(** * peertube-plugin-auth-openid-connect: a shallow embedding of [main.js]

    The plugin bridges an OpenID Connect identity provider and the PeerTube
    host.  This development embeds the stateful part of [main.js]:

    - the process-wide [store] and [loadSettingsAndCreateClient];
    - [onAuthRequest] (PKCE pair, authorization URL, encrypted cookie);
    - [handleCb] (cookie check, decryption, attribute mapping, hand-off);
    - [encrypt] / [decrypt], down to the bytes that Node's [crypto] module
      produces for the algorithm named in [encryptionOptions].

    JavaScript strings are sequences of UTF-16 code units, buffers are lists
    of bytes, objects used as dictionaries are finite maps.  Everything that
    the plugin obtains from a collaborator (random bytes, the settings
    store, the identity provider, the host registry) is an explicit
    argument of the embedded function. *)

From Stdlib Require Import ZArith NArith List Bool Lia Strings.Byte Btauto.
From Stdlib Require Import Strings.String Strings.Ascii.
From Stdlib Require Import DecimalN DecimalPos.
From stdpp Require Import base gmap list.
Import ListNotations.

(* ------------------------------------------------------------------ *)
(** * Bytes and the field GF(2^8)                                       *)
(* ------------------------------------------------------------------ *)

Module GF256.

(** A byte seen as eight bits, least significant first, as
    [Byte.to_bits] lays them out. *)
Definition bits8 : Type :=
  (bool * (bool * (bool * (bool * (bool * (bool * (bool * bool)))))))%type.

Definition xor_bits (x y : bits8) : bits8 :=
  let '(x0, (x1, (x2, (x3, (x4, (x5, (x6, x7))))))) := x in
  let '(y0, (y1, (y2, (y3, (y4, (y5, (y6, y7))))))) := y in
  (xorb x0 y0, (xorb x1 y1, (xorb x2 y2, (xorb x3 y3,
  (xorb x4 y4, (xorb x5 y5, (xorb x6 y6, xorb x7 y7))))))).

(** Multiplication by [x] modulo [x^8 + x^4 + x^3 + x + 1]:
    shift left, and fold 0x1b back in when the top bit falls out. *)
Definition xtime_bits (x : bits8) : bits8 :=
  let '(x0, (x1, (x2, (x3, (x4, (x5, (x6, x7))))))) := x in
  (x7, (xorb x0 x7, (x1, (xorb x2 x7, (xorb x3 x7, (x4, (x5, x6))))))).

(** The affine map of the S-box: bit [i] of the result is
    [b_i + b_(i+4) + b_(i+5) + b_(i+6) + b_(i+7) + c_i], with [c = 0x63]. *)
Definition affine_bits (x : bits8) : bits8 :=
  let '(x0, (x1, (x2, (x3, (x4, (x5, (x6, x7))))))) := x in
  let s a b c d e := xorb a (xorb b (xorb c (xorb d e))) in
  (negb (s x0 x4 x5 x6 x7), (negb (s x1 x5 x6 x7 x0),
  (s x2 x6 x7 x0 x1, (s x3 x7 x0 x1 x2, (s x4 x0 x1 x2 x3,
  (negb (s x5 x1 x2 x3 x4), (negb (s x6 x2 x3 x4 x5),
  s x7 x3 x4 x5 x6))))))).

Definition bxor (a b : byte) : byte :=
  Byte.of_bits (xor_bits (Byte.to_bits a) (Byte.to_bits b)).

Definition xtime (a : byte) : byte :=
  Byte.of_bits (xtime_bits (Byte.to_bits a)).

Definition affine (a : byte) : byte :=
  Byte.of_bits (affine_bits (Byte.to_bits a)).

Definition sel (c : bool) (a : byte) : byte := if c then a else x00.

(** Field multiplication, one partial product per bit of [b]. *)
Definition gmul (a b : byte) : byte :=
  let '(b0, (b1, (b2, (b3, (b4, (b5, (b6, b7))))))) := Byte.to_bits b in
  let a1 := xtime a in
  let a2 := xtime a1 in
  let a3 := xtime a2 in
  let a4 := xtime a3 in
  let a5 := xtime a4 in
  let a6 := xtime a5 in
  let a7 := xtime a6 in
  bxor (sel b0 a) (bxor (sel b1 a1) (bxor (sel b2 a2) (bxor (sel b3 a3)
  (bxor (sel b4 a4) (bxor (sel b5 a5) (bxor (sel b6 a6) (sel b7 a7))))))).

(** Multiplicative inverse as the 254th power; 0 is sent to 0. *)
Definition ginv (a : byte) : byte :=
  let a2 := gmul a a in
  let a4 := gmul a2 a2 in
  let a8 := gmul a4 a4 in
  let a16 := gmul a8 a8 in
  let a32 := gmul a16 a16 in
  let a64 := gmul a32 a32 in
  let a128 := gmul a64 a64 in
  gmul a128 (gmul a64 (gmul a32 (gmul a16 (gmul a8 (gmul a4 a2))))).

(** The constants of MixColumns and InvMixColumns. *)
Definition mul2 (a : byte) : byte := xtime a.
Definition mul3 (a : byte) : byte := bxor (xtime a) a.
Definition mul9 (a : byte) : byte := bxor (xtime (xtime (xtime a))) a.
Definition mul11 (a : byte) : byte :=
  bxor (xtime (xtime (xtime a))) (bxor (xtime a) a).
Definition mul13 (a : byte) : byte :=
  bxor (xtime (xtime (xtime a))) (bxor (xtime (xtime a)) a).
Definition mul14 (a : byte) : byte :=
  bxor (xtime (xtime (xtime a))) (bxor (xtime (xtime a)) (xtime a)).

Definition byte_of_nat (n : nat) : byte :=
  match Byte.of_nat n with Some b => b | None => x00 end.

Definition all_bytes : list byte :=
  Eval vm_compute in List.map byte_of_nat (seq 0 256).

Definition index (b : byte) : nat := Byte.to_nat b.

End GF256.

(* ------------------------------------------------------------------ *)
(** * AES-256, the block cipher behind the algorithm name ['aes256']    *)
(* ------------------------------------------------------------------ *)

Module AES.
Import GF256.

(** A word is a column of the state: four consecutive input bytes. *)
Definition word : Type := (byte * byte * byte * byte)%type.
Definition block : Type := (word * word * word * word)%type.

Definition sbox_table : list byte :=
  Eval vm_compute in List.map (fun b => affine (ginv b)) all_bytes.

Definition position (y : byte) (l : list byte) : nat :=
  (fix go (l : list byte) (i : nat) : nat :=
     match l with
     | [] => i
     | x :: l' => if Byte.eqb x y then i else go l' (S i)
     end) l 0%nat.

Definition inv_sbox_table : list byte :=
  Eval vm_compute in
    List.map (fun y => byte_of_nat (position y sbox_table)) all_bytes.

Definition sbox (b : byte) : byte := nth (index b) sbox_table x00.
Definition inv_sbox (b : byte) : byte := nth (index b) inv_sbox_table x00.

Definition map_word (f : byte -> byte) (w : word) : word :=
  let '(a, b, c, d) := w in (f a, f b, f c, f d).
Definition map_block (f : word -> word) (s : block) : block :=
  let '(a, b, c, d) := s in (f a, f b, f c, f d).

Definition xor_word (v w : word) : word :=
  let '(a, b, c, d) := v in
  let '(a', b', c', d') := w in
  (bxor a a', bxor b b', bxor c c', bxor d d').

Definition xor_block (s t : block) : block :=
  let '(a, b, c, d) := s in
  let '(a', b', c', d') := t in
  (xor_word a a', xor_word b b', xor_word c c', xor_word d d').

Definition sub_bytes : block -> block := map_block (map_word sbox).
Definition inv_sub_bytes : block -> block := map_block (map_word inv_sbox).

(** Row [r] of the state is rotated left by [r] columns. *)
Definition shift_rows (s : block) : block :=
  let '((s0, s1, s2, s3), (s4, s5, s6, s7),
        (s8, s9, s10, s11), (s12, s13, s14, s15)) := s in
  ((s0, s5, s10, s15), (s4, s9, s14, s3),
   (s8, s13, s2, s7), (s12, s1, s6, s11)).

Definition inv_shift_rows (s : block) : block :=
  let '((s0, s1, s2, s3), (s4, s5, s6, s7),
        (s8, s9, s10, s11), (s12, s13, s14, s15)) := s in
  ((s0, s13, s10, s7), (s4, s1, s14, s11),
   (s8, s5, s2, s15), (s12, s9, s6, s3)).

Definition mix_column (w : word) : word :=
  let '(a, b, c, d) := w in
  (bxor (mul2 a) (bxor (mul3 b) (bxor c d)),
   bxor a (bxor (mul2 b) (bxor (mul3 c) d)),
   bxor a (bxor b (bxor (mul2 c) (mul3 d))),
   bxor (mul3 a) (bxor b (bxor c (mul2 d)))).

Definition inv_mix_column (w : word) : word :=
  let '(a, b, c, d) := w in
  (bxor (mul14 a) (bxor (mul11 b) (bxor (mul13 c) (mul9 d))),
   bxor (mul9 a) (bxor (mul14 b) (bxor (mul11 c) (mul13 d))),
   bxor (mul13 a) (bxor (mul9 b) (bxor (mul14 c) (mul11 d))),
   bxor (mul11 a) (bxor (mul13 b) (bxor (mul9 c) (mul14 d)))).

Definition mix_columns : block -> block := map_block mix_column.
Definition inv_mix_columns : block -> block := map_block inv_mix_column.

Definition add_round_key (k s : block) : block := xor_block s k.

Definition round (k s : block) : block :=
  add_round_key k (mix_columns (shift_rows (sub_bytes s))).
Definition final_round (k s : block) : block :=
  add_round_key k (shift_rows (sub_bytes s)).

Definition inv_round (k s : block) : block :=
  inv_sub_bytes (inv_shift_rows (inv_mix_columns (add_round_key k s))).
Definition inv_final_round (k s : block) : block :=
  inv_sub_bytes (inv_shift_rows (add_round_key k s)).

(** The rounds after the initial key addition; the last key of the list
    is used by the final round, which has no MixColumns. *)
Fixpoint rounds (ks : list block) (s : block) : block :=
  match ks with
  | [] => s
  | k :: ks' =>
      match ks' with
      | [] => final_round k s
      | _ :: _ => rounds ks' (round k s)
      end
  end.

Fixpoint inv_rounds (ks : list block) (s : block) : block :=
  match ks with
  | [] => s
  | k :: ks' =>
      match ks' with
      | [] => inv_final_round k s
      | _ :: _ => inv_round k (inv_rounds ks' s)
      end
  end.

Definition cipher (rks : list block) (s : block) : block :=
  match rks with
  | [] => s
  | k0 :: ks => rounds ks (add_round_key k0 s)
  end.

Definition inv_cipher (rks : list block) (s : block) : block :=
  match rks with
  | [] => s
  | k0 :: ks => add_round_key k0 (inv_rounds ks s)
  end.

(** ** Key expansion for a 256-bit key (Nk = 8, 60 words, 15 round keys) *)

Definition rot_word (w : word) : word :=
  let '(a, b, c, d) := w in (b, c, d, a).
Definition sub_word : word -> word := map_word sbox.

Definition zero_word : word := (x00, x00, x00, x00).

(** [expand n i window rc] produces words [i], [i+1], ... ([n] of them);
    [window] holds the eight words before word [i], oldest first, and
    [rc] is the round constant for the next multiple of 8. *)
Fixpoint expand (n i : nat) (window : list word) (rc : byte) : list word :=
  match n with
  | O => []
  | S n' =>
      match window with
      | w8 :: rest =>
          let prev := List.last window zero_word in
          let t :=
            if Nat.eqb (i mod 8) 0
            then xor_word (sub_word (rot_word prev)) (rc, x00, x00, x00)
            else if Nat.eqb (i mod 8) 4 then sub_word prev
            else prev in
          let w := xor_word w8 t in
          w :: expand n' (S i) (rest ++ [w])
                 (if Nat.eqb (i mod 8) 0 then xtime rc else rc)
      | [] => []
      end
  end.

Fixpoint words_of_bytes (l : list byte) : list word :=
  match l with
  | a :: b :: c :: d :: l' => (a, b, c, d) :: words_of_bytes l'
  | _ => []
  end.

Fixpoint blocks_of_words (l : list word) : list block :=
  match l with
  | a :: b :: c :: d :: l' => (a, b, c, d) :: blocks_of_words l'
  | _ => []
  end.

Definition key_words (key : list byte) : list word :=
  let w := words_of_bytes key in w ++ expand 52 8 w x01.

Definition round_keys (key : list byte) : list block :=
  blocks_of_words (key_words key).

Definition encrypt_block (key : list byte) : block -> block :=
  cipher (round_keys key).
Definition decrypt_block (key : list byte) : block -> block :=
  inv_cipher (round_keys key).

End AES.

(* ------------------------------------------------------------------ *)
(** * JavaScript strings, buffers and thrown errors                     *)
(* ------------------------------------------------------------------ *)

(** A JavaScript string is its sequence of UTF-16 code units
    (numbers below 65536). *)
Abbreviation jsstring := (list N).

(** The code units of an ASCII literal. *)
Definition js (s : string) : jsstring :=
  List.map N_of_ascii (list_ascii_of_string s).
Arguments js s%_string.

(** A Node [Buffer]. *)
Abbreviation buffer := (list byte).

Inductive js_error : Type :=
| TypeError (msg : string)
| RangeError (msg : string)
| URIError (msg : string)
| Error (msg : string).

(** The outcome of an expression that may throw (or of an awaited promise
    that may reject). *)
Inductive result (A : Type) : Type :=
| Ok (a : A)
| Throw (e : js_error).
Arguments Ok {A} a.
Arguments Throw {A} e.

Definition rbind {A B : Type} (r : result A) (k : A -> result B) : result B :=
  match r with
  | Ok a => k a
  | Throw e => Throw e
  end.

Declare Scope result_scope.
Delimit Scope result_scope with result.
Notation "'let?' x ':=' r 'in' k" :=
  (rbind r (fun x => k))
  (at level 10, x name, r at level 100, k at level 200) : result_scope.
Local Open Scope result_scope.
Local Open Scope N_scope.

Definition byte_of_N (n : N) : byte :=
  match Byte.of_N n with Some b => b | None => x00 end.

Module Encoding.

(** ** [buf.toString('hex')] and [Buffer.from(str, 'hex')] *)

Definition hex_digit (n : N) : N :=
  if n <? 10 then 48 + n else 87 + n.

Definition hex_byte (b : byte) : jsstring :=
  let n := Byte.to_N b in [hex_digit (n / 16); hex_digit (n mod 16)].

Definition hex_encode (bs : buffer) : jsstring := flat_map hex_byte bs.

(** The value of a hex digit.  Node's decoder looks at the low eight bits
    of a code unit only. *)
Definition hex_value (u : N) : option N :=
  let c := u mod 256 in
  if (48 <=? c) && (c <=? 57) then Some (c - 48)
  else if (97 <=? c) && (c <=? 102) then Some (c - 87)
  else if (65 <=? c) && (c <=? 70) then Some (c - 55)
  else None.

(** Decoding stops at the first pair that is not two hex digits; an odd
    trailing character is dropped. *)
Fixpoint hex_decode (s : jsstring) : buffer :=
  match s with
  | h :: l :: s' =>
      match hex_value h, hex_value l with
      | Some a, Some b => byte_of_N (16 * a + b) :: hex_decode s'
      | _, _ => []
      end
  | _ => []
  end.

(** ** [str.split(sep)] for a one-character separator *)

Fixpoint split (sep : N) (s : jsstring) : list jsstring :=
  match s with
  | [] => [[]]
  | c :: s' =>
      if c =? sep then [] :: split sep s'
      else match split sep s' with
           | h :: t => (c :: h) :: t
           | [] => [[c]]
           end
  end.

(** ** UTF-8, the ['utf8'] input and output encoding *)

Definition utf8_encode_cp (cp : N) : buffer :=
  if cp <? 128 then [byte_of_N cp]
  else if cp <? 2048 then
    [byte_of_N (192 + cp / 64); byte_of_N (128 + cp mod 64)]
  else if cp <? 65536 then
    [byte_of_N (224 + cp / 4096); byte_of_N (128 + (cp / 64) mod 64);
     byte_of_N (128 + cp mod 64)]
  else
    [byte_of_N (240 + cp / 262144); byte_of_N (128 + (cp / 4096) mod 64);
     byte_of_N (128 + (cp / 64) mod 64); byte_of_N (128 + cp mod 64)].

Definition is_high_surrogate (u : N) : bool := (55296 <=? u) && (u <? 56320).
Definition is_low_surrogate (u : N) : bool := (56320 <=? u) && (u <? 57344).

Definition replacement : N := 65533.

(** A surrogate pair is one code point; a lone surrogate is encoded as
    U+FFFD. *)
Fixpoint utf8_encode (s : jsstring) : buffer :=
  match s with
  | [] => []
  | u :: s' =>
      if is_high_surrogate u then
        match s' with
        | l :: s'' =>
            if is_low_surrogate l
            then utf8_encode_cp (65536 + (u - 55296) * 1024 + (l - 56320))
                   ++ utf8_encode s''
            else utf8_encode_cp replacement ++ utf8_encode s'
        | [] => utf8_encode_cp replacement
        end
      else if is_low_surrogate u
      then utf8_encode_cp replacement ++ utf8_encode s'
      else utf8_encode_cp u ++ utf8_encode s'
  end.

(** Decoder state: continuation bytes still needed, the code point
    accumulated so far and the range allowed for the next byte. *)
Record utf8_state : Type := {
  needed : nat;
  acc : N;
  lower : N;
  upper : N
}.

Definition utf8_init : utf8_state :=
  {| needed := 0; acc := 0; lower := 128; upper := 191 |}.

Definition emit_cp (cp : N) : jsstring :=
  if cp <? 65536 then [cp]
  else [55296 + (cp - 65536) / 1024; 56320 + (cp - 65536) mod 1024].

(** A byte met when no sequence is open. *)
Definition utf8_start (b : N) : jsstring * utf8_state :=
  if b <? 128 then ([b], utf8_init)
  else if (194 <=? b) && (b <=? 223) then
    ([], {| needed := 1; acc := b mod 32; lower := 128; upper := 191 |})
  else if (224 <=? b) && (b <=? 239) then
    ([], {| needed := 2; acc := b mod 16;
            lower := (if b =? 224 then 160 else 128);
            upper := (if b =? 237 then 159 else 191) |})
  else if (240 <=? b) && (b <=? 244) then
    ([], {| needed := 3; acc := b mod 8;
            lower := (if b =? 240 then 144 else 128);
            upper := (if b =? 244 then 143 else 191) |})
  else ([replacement], utf8_init).

(** Ill-formed input never throws: each maximal ill-formed part becomes
    one U+FFFD and decoding resumes at the offending byte. *)
Fixpoint utf8_run (st : utf8_state) (bs : buffer) : jsstring :=
  match bs with
  | [] => match needed st with O => [] | S _ => [replacement] end
  | b :: bs' =>
      let n := Byte.to_N b in
      match needed st with
      | O => let '(out, st') := utf8_start n in out ++ utf8_run st' bs'
      | S k =>
          if (lower st <=? n) && (n <=? upper st) then
            let cp := acc st * 64 + n mod 64 in
            match k with
            | O => emit_cp cp ++ utf8_run utf8_init bs'
            | S _ =>
                utf8_run {| needed := k; acc := cp;
                            lower := 128; upper := 191 |} bs'
            end
          else
            replacement ::
              (let '(out, st') := utf8_start n in out ++ utf8_run st' bs')
      end
  end.

Definition utf8_decode (bs : buffer) : jsstring := utf8_run utf8_init bs.

(** Code units below 128: the alphabet of code verifiers and of tokens. *)
Definition seven_bit (s : jsstring) : Prop :=
  List.Forall (fun u => u < 128) s.

(** Unicode scalar values: code points that are not surrogates. *)
Definition is_scalar (cp : N) : Prop :=
  cp < 55296 \/ 57344 <= cp < 1114112.

(** A string in which every surrogate is one half of a pair. *)
Fixpoint well_formed (s : jsstring) : Prop :=
  match s with
  | [] => True
  | u :: s' =>
      if is_high_surrogate u then
        match s' with
        | l :: s'' => is_low_surrogate l = true /\ well_formed s''
        | [] => False
        end
      else is_low_surrogate u = false /\ u < 65536 /\ well_formed s'
  end.

(** ** Encodings by name *)

Inductive encoding : Type := utf8 | hex.

(** The bytes of a string under an encoding, as [Buffer.from(str, enc)]
    and [cipher.update(str, enc)] take them. *)
Definition bytes_of (enc : encoding) (s : jsstring) : buffer :=
  match enc with
  | utf8 => utf8_encode s
  | hex => hex_decode s
  end.

(** [buf.toString(enc)] *)
Definition toString (enc : encoding) (b : buffer) : jsstring :=
  match enc with
  | utf8 => utf8_decode b
  | hex => hex_encode b
  end.

(** [Buffer.from(x, enc)] where [x] is an array element that may be
    [undefined]: a missing element is a [TypeError]. *)
Definition buffer_from (x : option jsstring) (enc : encoding)
  : result buffer :=
  match x with
  | Some s => Ok (bytes_of enc s)
  | None =>
      Throw (TypeError "The first argument must be of type string or an instance of Buffer")
  end.

End Encoding.

(* ------------------------------------------------------------------ *)
(** * Node's [crypto] cipher objects for ['aes256'] (AES-256-CBC)        *)
(* ------------------------------------------------------------------ *)

Module Cipher.
Import GF256 AES.

Fixpoint blocks_of_bytes (l : buffer) : list block :=
  match l with
  | b0 :: b1 :: b2 :: b3 :: b4 :: b5 :: b6 :: b7 ::
    b8 :: b9 :: b10 :: b11 :: b12 :: b13 :: b14 :: b15 :: l' =>
      ((b0, b1, b2, b3), (b4, b5, b6, b7),
       (b8, b9, b10, b11), (b12, b13, b14, b15)) :: blocks_of_bytes l'
  | _ => []
  end.

Definition bytes_of_block (s : block) : buffer :=
  let '((b0, b1, b2, b3), (b4, b5, b6, b7),
        (b8, b9, b10, b11), (b12, b13, b14, b15)) := s in
  [b0; b1; b2; b3; b4; b5; b6; b7; b8; b9; b10; b11; b12; b13; b14; b15].

Definition bytes_of_blocks (l : list block) : buffer :=
  flat_map bytes_of_block l.

Definition zero_block : block :=
  (zero_word, zero_word, zero_word, zero_word).

Definition block_of_bytes (l : buffer) : block :=
  match blocks_of_bytes l with
  | s :: _ => s
  | [] => zero_block
  end.

(** Cipher block chaining over an arbitrary block transformation. *)
Section Chaining.
Variable E D : block -> block.

Fixpoint cbc_encrypt (prev : block) (ps : list block) : list block :=
  match ps with
  | [] => []
  | p :: ps' =>
      let c := E (xor_block p prev) in c :: cbc_encrypt c ps'
  end.

Fixpoint cbc_decrypt (prev : block) (cs : list block) : list block :=
  match cs with
  | [] => []
  | c :: cs' => xor_block (D c) prev :: cbc_decrypt c cs'
  end.
End Chaining.

(** Bytewise exclusive or of [a] with [b], over the length of [b] at most;
    what is left of [a] is kept. *)
Fixpoint xor_bytes (a b : buffer) : buffer :=
  match a, b with
  | x :: a', y :: b' => bxor x y :: xor_bytes a' b'
  | _, _ => a
  end.

(** PKCS#7 padding, always added: [n] bytes of value [n],
    [1 <= n <= 16]. *)
Definition pad_length (len : nat) : nat := (16 - len mod 16)%nat.

Definition pad (bs : buffer) : buffer :=
  let n := pad_length (length bs) in
  bs ++ repeat (byte_of_nat n) n.

Definition unpad (bs : buffer) : option buffer :=
  let n := Byte.to_nat (List.last bs x00) in
  if (Nat.leb 1 n && Nat.leb n 16 && Nat.leb n (length bs))%bool then
    let body := firstn (length bs - n) bs in
    let tail := skipn (length bs - n) bs in
    if forallb (Byte.eqb (byte_of_nat n)) tail then Some body else None
  else None.

(** The algorithm named in [encryptionOptions]; OpenSSL reads ['aes256']
    as AES-256 in CBC mode. *)
Inductive cipher_name : Type := aes256.

(** [createCipheriv(algorithm, key, iv)], [update] and [final] taken
    together: the IV must be 16 bytes, which is looked at first, and the
    key 32 bytes. *)
Definition check_key_iv (key iv : buffer) : result unit :=
  if negb (Nat.eqb (length iv) 16)
  then Throw (TypeError "Invalid initialization vector")
  else if negb (Nat.eqb (length key) 32)
  then Throw (RangeError "Invalid key length")
  else Ok tt.

Definition cipher_run (algorithm : cipher_name) (key iv plain : buffer)
  : result buffer :=
  match algorithm with
  | aes256 =>
      let? _ := check_key_iv key iv in
      Ok (bytes_of_blocks
            (cbc_encrypt (encrypt_block key) (block_of_bytes iv)
               (blocks_of_bytes (pad plain))))
  end.

(** [createDecipheriv], [update] and [final]: [final] throws when the
    input is not a positive number of whole blocks or when the padding of
    the last block is wrong. *)
Definition decipher_run (algorithm : cipher_name) (key iv data : buffer)
  : result buffer :=
  match algorithm with
  | aes256 =>
      let? _ := check_key_iv key iv in
      if (Nat.eqb (length data) 0
          || negb (Nat.eqb (length data mod 16) 0))%bool
      then Throw (Error "wrong final block length")
      else
        match unpad (bytes_of_blocks
                       (cbc_decrypt (decrypt_block key) (block_of_bytes iv)
                          (blocks_of_bytes data))) with
        | Some plain => Ok plain
        | None => Throw (Error "bad decrypt")
        end
  end.

End Cipher.

(* ------------------------------------------------------------------ *)
(** * JavaScript values                                                 *)
(* ------------------------------------------------------------------ *)

(** The values that settings and userinfo claims can take, as
    [JSON.parse] builds them, and those that [parseInt] returns.  [JNum z]
    is the Number with the integral value [z]; Numbers with a fractional
    part are not represented and the sign of zero is not tracked. *)
#[warnings="-register-all"]
Inductive jsvalue : Type :=
| JUndefined
| JNull
| JBool (b : bool)
| JNum (z : Z)
| JNaN
| JInfinity (negative : bool)
| JStr (s : jsstring)
| JArr (items : list jsvalue)
| JObj (fields : list (jsstring * jsvalue)).

(** What a property access [o[k]] on a plain object evaluates to: a value
    as above ([undefined] when there is nothing under [k]), or what the
    object inherits from [Object.prototype]: one of its functions, or the
    prototype itself under [__proto__]. *)
Inductive member : Type :=
| Data (v : jsvalue)
| Builtin (name : jsstring)
| ObjectPrototype.

Module Js.

Fixpoint digits_of_uint (d : Decimal.uint) : jsstring :=
  match d with
  | Decimal.Nil => []
  | Decimal.D0 d' => 48 :: digits_of_uint d'
  | Decimal.D1 d' => 49 :: digits_of_uint d'
  | Decimal.D2 d' => 50 :: digits_of_uint d'
  | Decimal.D3 d' => 51 :: digits_of_uint d'
  | Decimal.D4 d' => 52 :: digits_of_uint d'
  | Decimal.D5 d' => 53 :: digits_of_uint d'
  | Decimal.D6 d' => 54 :: digits_of_uint d'
  | Decimal.D7 d' => 55 :: digits_of_uint d'
  | Decimal.D8 d' => 56 :: digits_of_uint d'
  | Decimal.D9 d' => 57 :: digits_of_uint d'
  end.

Definition decimal (n : N) : jsstring := digits_of_uint (N.to_uint n).

(** The Number nearest to a natural number: exact below 2^53, rounded to
    53 significant bits above, ties to even. *)
Definition round_to_double (n : N) : N :=
  if n <? 2 ^ 53 then n
  else
    let shift := N.log2 n - 52 in
    let q := N.shiftr n shift in
    let r := N.land n (N.ones shift) in
    let half := 2 ^ (shift - 1) in
    let q' := if r <? half then q
              else if half <? r then q + 1
              else if N.even q then q else q + 1 in
    N.shiftl q' shift.

(** ** Number::toString *)

(** Among the numbers written with [k] significant digits, the one
    nearest to [v] whose Number is [v], if there is one (of two equally
    near, the one with the even last digit). *)
Definition nearest_with (v k : N) : option N :=
  let p := 10 ^ (N.of_nat (length (decimal v)) - k) in
  let lo := v / p * p in
  let hi := lo + p in
  match round_to_double lo =? v, round_to_double hi =? v with
  | true, true =>
      Some (if v - lo <? hi - v then lo
            else if hi - v <? v - lo then hi
            else if N.even (v / p) then lo else hi)
  | true, false => Some lo
  | false, true => Some hi
  | false, false => None
  end.

(** The number with the fewest significant digits whose Number is [v];
    17 digits always suffice. *)
Definition shortest (v : N) : N :=
  fold_right
    (fun k rest => match nearest_with v k with Some c => c | None => rest end)
    v (List.map N.of_nat (seq 1 17)).

Fixpoint drop_zeros (ds : jsstring) : jsstring :=
  match ds with
  | u :: ds' => if u =? 48 then drop_zeros ds' else ds
  | [] => []
  end.

(** Up to 21 digits a number is written out in full, from 22 digits on
    with its significant digits and an exponent. *)
Definition print_digits (c : N) : jsstring :=
  let ds := decimal c in
  let n := N.of_nat (length ds) in
  if n <=? 21 then ds
  else
    match rev (drop_zeros (rev ds)) with
    | [] => ds
    | [d] => d :: js "e+" ++ decimal (n - 1)
    | d :: more => d :: 46 :: more ++ js "e+" ++ decimal (n - 1)
    end.

(** Below 2^53 an integer is its own shortest notation. *)
Definition number_to_string (z : Z) : jsstring :=
  let v := round_to_double (Z.abs_N z) in
  (if (z <? 0)%Z then [45] else [])
  ++ (if v <? 2 ^ 53 then decimal v else print_digits (shortest v)).

(** ** ToString and ToBoolean *)

Definition has_own (name : jsstring) (fields : list (jsstring * jsvalue))
  : bool :=
  existsb (fun kv => bool_decide (fst kv = name)) fields.

(** ToString of a value, as applied by ['' + v], by [String(v)] and by
    property access [o[v]].  An object is asked for its [valueOf] and its
    [toString]: the inherited [valueOf] returns the object, the inherited
    [toString] returns ["[object Object]"], and an own property of that
    name, which in parsed JSON is never a function, leaves nothing to
    call.  An array joins the strings of its elements. *)
Fixpoint data_to_string (v : jsvalue) : result jsstring :=
  match v with
  | JUndefined => Ok (js "undefined")
  | JNull => Ok (js "null")
  | JBool true => Ok (js "true")
  | JBool false => Ok (js "false")
  | JNum z => Ok (number_to_string z)
  | JNaN => Ok (js "NaN")
  | JInfinity false => Ok (js "Infinity")
  | JInfinity true => Ok (js "-Infinity")
  | JStr s => Ok s
  | JArr items =>
      (fix join (l : list jsvalue) : result jsstring :=
         match l with
         | [] => Ok []
         | x :: l' =>
             let? e := match x with
                       | JUndefined | JNull => Ok []
                       | _ => data_to_string x
                       end in
             match l' with
             | [] => Ok e
             | _ :: _ => let? r := join l' in Ok (e ++ 44 :: r)
             end
         end) items
  | JObj fields =>
      if has_own (js "toString") fields
      then Throw (TypeError "Cannot convert object to primitive value")
      else Ok (js "[object Object]")
  end.

(** The name under which a function of [Object.prototype] prints. *)
Definition builtin_name (key : jsstring) : jsstring :=
  if bool_decide (key = js "constructor") then js "Object" else key.

Definition to_string (m : member) : result jsstring :=
  match m with
  | Data v => data_to_string v
  | Builtin key =>
      Ok (js "function " ++ builtin_name key ++ js "() { [native code] }")
  | ObjectPrototype => Ok (js "[object Object]")
  end.

(** ToBoolean, as applied by [if (v)], [!v] and [v || d]. *)
Definition data_truthy (v : jsvalue) : bool :=
  match v with
  | JUndefined | JNull | JNaN => false
  | JBool b => b
  | JNum z => negb (z =? 0)%Z
  | JStr s => match s with [] => false | _ :: _ => true end
  | JInfinity _ | JArr _ | JObj _ => true
  end.

Definition truthy (m : member) : bool :=
  match m with
  | Data v => data_truthy v
  | Builtin _ | ObjectPrototype => true
  end.

(** ** Property access *)

(** The functions that every plain object inherits. *)
Definition object_prototype_functions : list jsstring :=
  [ js "constructor"; js "__defineGetter__"; js "__defineSetter__";
    js "hasOwnProperty"; js "__lookupGetter__"; js "__lookupSetter__";
    js "isPrototypeOf"; js "propertyIsEnumerable"; js "toString";
    js "valueOf"; js "toLocaleString" ].

(** [o[k]] for a property key [k], on a plain object: the own property,
    else what [Object.prototype] has under [k], else [undefined]. *)
Definition get (o : gmap jsstring jsvalue) (k : jsstring) : member :=
  match o !! k with
  | Some v => Data v
  | None =>
      if bool_decide (k = js "__proto__") then ObjectPrototype
      else if existsb (fun name => bool_decide (name = k))
                      object_prototype_functions
      then Builtin k
      else Data JUndefined
  end.

(** [o[p]] where [p] is itself a value: it is first turned into a
    property key, which can throw. *)
Definition get_computed (o : gmap jsstring jsvalue) (p : member)
  : result member :=
  let? k := to_string p in Ok (get o k).

(** ** [parseInt(string, 10)] *)

Definition is_whitespace (u : N) : bool :=
  (9 <=? u) && (u <=? 13) || (u =? 32) || (u =? 160) || (u =? 5760)
  || (8192 <=? u) && (u <=? 8202) || (u =? 8232) || (u =? 8233)
  || (u =? 8239) || (u =? 8287) || (u =? 12288) || (u =? 65279).

Fixpoint trim_start (s : jsstring) : jsstring :=
  match s with
  | u :: s' => if is_whitespace u then trim_start s' else s
  | [] => []
  end.

Definition digit_value (u : N) : option N :=
  if (48 <=? u) && (u <=? 57) then Some (u - 48) else None.

(** The longest prefix of decimal digits, as a number; [None] when the
    prefix is empty. *)
Fixpoint parse_digits (acc : option N) (s : jsstring) : option N :=
  match s with
  | u :: s' =>
      match digit_value u with
      | Some d =>
          parse_digits
            (Some (10 * (match acc with Some a => a | None => 0 end) + d)) s'
      | None => acc
      end
  | [] => acc
  end.

Definition number_of (negative : bool) (n : N) : jsvalue :=
  let m := round_to_double n in
  if 2 ^ 1024 <=? m then JInfinity negative
  else JNum (if negative then - Z.of_N m else Z.of_N m).

Definition parseInt (s : jsstring) : jsvalue :=
  let s1 := trim_start s in
  let '(negative, s2) :=
    match s1 with
    | u :: r =>
        if u =? 45 then (true, r)
        else if u =? 43 then (false, r)
        else (false, s1)
    | [] => (false, s1)
    end in
  match parse_digits None s2 with
  | None => JNaN
  | Some n => number_of negative n
  end.

(** Whether a sign, if there is one, is the minus sign. *)
Definition negative_sign (sign : jsstring) : bool :=
  bool_decide (sign = [45]).

(** The number written by a string of decimal digits. *)
Definition decimal_value (digits : jsstring) : N :=
  fold_left (fun a u => 10 * a + (u - 48)) digits 0.

Definition is_digit (u : N) : Prop := 48 <= u <= 57.

(** ** [str.replace(/[^a-z0-9._]/g, '_')] *)

Definition allowed_in_username (u : N) : bool :=
  (97 <=? u) && (u <=? 122) || (48 <=? u) && (u <=? 57)
  || (u =? 46) || (u =? 95).

Definition replace_disallowed (s : jsstring) : jsstring :=
  List.map (fun u => if allowed_in_username u then u else 95) s.

(** [str.startsWith(prefix)] *)
Fixpoint startsWith (prefix s : jsstring) : bool :=
  match prefix with
  | [] => true
  | p :: prefix' =>
      match s with
      | c :: s' => (c =? p) && startsWith prefix' s'
      | [] => false
      end
  end.

(** [hay] has [needle] as a contiguous part. *)
Definition contains (needle hay : jsstring) : Prop :=
  exists before after, hay = before ++ needle ++ after.

End Js.

(* ------------------------------------------------------------------ *)
(** * The [openid-client] objects the plugin holds                      *)
(* ------------------------------------------------------------------ *)

Module OpenId.
Import Encoding.

(** [url.parse(endpoint, true)] as far as [url.format] reads it once the
    library has cleared [search]: what [format] prints for protocol,
    credentials, host and path (Node has lowercased the host and given a
    URL without a path the path [/]); the query as an object, in the
    order of its keys, a key that occurs several times having all its
    values; and the fragment as [format] prints it (nothing, or the
    fragment from its [#] on). *)
Record parsed_url : Type := {
  url_base : jsstring;
  url_query : list (jsstring * (jsstring * list jsstring));
  url_hash : jsstring
}.

(** Issuer metadata obtained by discovery; only the authorization
    endpoint matters here: [None] when the metadata has none, otherwise
    the outcome of [url.parse] on it, which throws on a value that is not
    a string. *)
Record issuer : Type := {
  authorization_endpoint : option (result parsed_url)
}.

(** The [clientOptions] object literal of [loadSettingsAndCreateClient];
    an absent key is [None]. *)
Record client_options : Type := {
  client_id : member;
  redirect_uris : list jsvalue;
  response_types : list jsstring;
  client_secret : option member;
  token_endpoint_auth_method : option jsstring
}.

Record oidc_client : Type := {
  client_issuer : issuer;
  client_metadata : client_options
}.

(** [new issuer.Client(clientOptions)]: the constructor wants a client id
    that is a string and not the empty one. *)
Definition new_client (iss : issuer) (metadata : client_options)
  : result oidc_client :=
  match client_id metadata with
  | Data (JStr (_ :: _)) =>
      Ok {| client_issuer := iss; client_metadata := metadata |}
  | _ => Throw (TypeError "client_id is required")
  end.

(** [querystring.escape]: unreserved characters stay, every other
    character becomes the [%XX] of its UTF-8 bytes.  A surrogate takes
    the code unit after it as its other half, whatever that is, and
    throws when nothing follows. *)
Definition unreserved (n : N) : bool :=
  (97 <=? n) && (n <=? 122) || (65 <=? n) && (n <=? 90)
  || (48 <=? n) && (n <=? 57)
  || (n =? 45) || (n =? 95) || (n =? 46) || (n =? 33) || (n =? 126)
  || (n =? 42) || (n =? 39) || (n =? 40) || (n =? 41).

Definition upper_hex_digit (n : N) : N :=
  if n <? 10 then 48 + n else 55 + n.

Definition percent (b : N) : jsstring :=
  [37; upper_hex_digit (b / 16); upper_hex_digit (b mod 16)].

Fixpoint escape (s : jsstring) : result jsstring :=
  match s with
  | [] => Ok []
  | c :: s' =>
      if c <? 128 then
        let? r := escape s' in
        Ok ((if unreserved c then [c] else percent c) ++ r)
      else if c <? 2048 then
        let? r := escape s' in
        Ok (percent (192 + c / 64) ++ percent (128 + c mod 64) ++ r)
      else if (c <? 55296) || (57344 <=? c) then
        let? r := escape s' in
        Ok (percent (224 + c / 4096) ++ percent (128 + (c / 64) mod 64)
            ++ percent (128 + c mod 64) ++ r)
      else
        match s' with
        | [] => Throw (URIError "URI malformed")
        | d :: s'' =>
            let cp := 65536 + (c mod 1024) * 1024 + d mod 1024 in
            let? r := escape s'' in
            Ok (percent (240 + cp / 262144)
                ++ percent (128 + (cp / 4096) mod 64)
                ++ percent (128 + (cp / 64) mod 64)
                ++ percent (128 + cp mod 64) ++ r)
        end
  end.

(** Strings that [escape] takes without throwing. *)
Definition escapable (s : jsstring) : Prop := exists r, escape s = Ok r.

(** [querystring.stringify] of an object whose values are strings or
    lists of strings: one [key=value] for every value, joined by [&]. *)
Definition fields_of (q : list (jsstring * (jsstring * list jsstring)))
  : list (jsstring * jsstring) :=
  flat_map (fun kv => List.map (pair (fst kv))
                               (fst (snd kv) :: snd (snd kv))) q.

Fixpoint stringify_fields (l : list (jsstring * jsstring))
  : result jsstring :=
  match l with
  | [] => Ok []
  | (k, v) :: l' =>
      let? ks := escape k in
      let? vs := escape v in
      match l' with
      | [] => Ok (ks ++ 61 :: vs)
      | _ :: _ =>
          let? r := stringify_fields l' in Ok (ks ++ 61 :: vs ++ 38 :: r)
      end
  end.

Definition stringify (q : list (jsstring * (jsstring * list jsstring)))
  : result jsstring :=
  stringify_fields (fields_of q).

(** Object spread: a key already present keeps its place and takes the
    new value, a new key goes last. *)
Fixpoint assign {V : Type} (o : list (jsstring * V)) (k : jsstring) (v : V)
  : list (jsstring * V) :=
  match o with
  | [] => [(k, v)]
  | (k', v') :: o' =>
      if decide (k' = k) then (k, v) :: o' else (k', v') :: assign o' k v
  end.

Definition spread {V : Type} (o params : list (jsstring * V))
  : list (jsstring * V) :=
  fold_left (fun o kv => assign o (fst kv) (snd kv)) params o.

Definition only (l : list jsvalue) : jsvalue :=
  match l with
  | [v] => v
  | _ => JUndefined
  end.

(** [null] and [undefined] are dropped, what is left is turned into
    strings, key after key. *)
Fixpoint strings_of (l : list (jsstring * member))
  : result (list (jsstring * jsstring)) :=
  match l with
  | [] => Ok []
  | (k, v) :: l' =>
      match v with
      | Data JUndefined | Data JNull => strings_of l'
      | _ =>
          let? s := Js.to_string v in
          let? r := strings_of l' in
          Ok ((k, s) :: r)
      end
  end.

(** The parameters of an authorization request: the client's defaults
    overridden by the caller's, which here are strings. *)
Definition authorization_params (c : oidc_client)
    (params : list (jsstring * jsstring))
  : result (list (jsstring * jsstring)) :=
  let m := client_metadata c in
  let defaults :=
    [ (js "client_id", client_id m);
      (js "scope", Data (JStr (js "openid")));
      (js "response_type", Data (only (List.map JStr (response_types m))));
      (js "redirect_uri", Data (only (redirect_uris m))) ] in
  strings_of
    (spread defaults
       (List.map (fun kv => (fst kv, Data (JStr (snd kv)))) params)).

(** [client.authorizationUrl(params)]: the endpoint is parsed, the
    parameters are put over its own query, and [url.format] prints the
    result, the query after a [?] when it is not empty.  ([format] also
    replaces every [#] of the query, of which an escaped query has
    none.) *)
Definition authorizationUrl (c : oidc_client)
    (params : list (jsstring * jsstring)) : result jsstring :=
  match authorization_endpoint (client_issuer c) with
  | None =>
      Throw (TypeError "authorization_endpoint must be configured on the issuer")
  | Some parsed =>
      let? target := parsed in
      let? authParams := authorization_params c params in
      let query :=
        spread (url_query target)
               (List.map (fun kv => (fst kv, (snd kv, []))) authParams) in
      let? search := stringify query in
      Ok (url_base target
          ++ match search with
             | [] => []
             | _ :: _ => 63 :: search
             end
          ++ url_hash target)
  end.

(** The token set returned by [client.callback]. *)
Record token_set : Type := {
  access_token : jsvalue
}.

End OpenId.

(* ------------------------------------------------------------------ *)
(** * The plugin: [main.js]                                             *)
(* ------------------------------------------------------------------ *)

Module Plugin.
Import Encoding Cipher OpenId.

(** ** Process-wide state and the collaborators' state *)

(** The [store] object.  The host's [userAuthenticated] function is
    represented by the number of the registration that returned it. *)
Record store : Type := {
  client : option oidc_client;
  userAuthenticated : option nat;
  secretKey : option jsstring;
  redirectUrl : option jsstring
}.

(** The identity handed to the host, next to [req] and [res]. *)
Record identity : Type := {
  username : jsstring;
  email : member;
  displayName : member;
  role : jsvalue
}.

(** The object literal of lines 235-242 as the host receives it, without
    [res] and [req]: its keys, in order, each with its value. *)
Definition identity_object (i : identity) : list (jsstring * member) :=
  [ (js "username", Data (JStr (username i)));
    (js "email", email i);
    (js "displayName", displayName i);
    (js "role", Data (role i)) ].

(** An entry of the host's list of external authentications. *)
Record registration : Type := {
  authName : jsstring;
  reg_webserverUrl : jsstring;
  handle : nat
}.

(** The host: [registerExternalAuth] appends an entry and returns a fresh
    [userAuthenticated] function, [unregisterExternalAuth(name)] removes
    the entries registered under [name]. *)
Record host : Type := {
  registered : list registration;
  next_handle : nat;
  accepted : list (nat * identity)
}.

Inductive log_level : Type := LogDebug | LogInfo | LogError.

Record log_entry : Type := {
  level : log_level;
  message : string;
  detail : option js_error
}.

Record cookie_options : Type := {
  secure : bool;
  httpOnly : bool;
  sameSite : jsstring;
  maxAge : Z
}.

(** What has been written to HTTP responses, oldest first. *)
Inductive res_action : Type :=
| ResCookie (name value : jsstring) (options : cookie_options)
| ResRedirect (url : jsstring).

(** The response object: whether its [cookie] and [redirect] methods
    throw (for instance because the headers are already sent). *)
Record response : Type := {
  cookie_throws : option js_error;
  redirect_throws : option js_error
}.

Record request : Type := {
  cookies : gmap jsstring jsstring
}.

Record world : Type := {
  w_store : store;
  w_host : host;
  w_log : list log_entry;
  w_res : list res_action
}.

(** ** State and exceptions *)

Definition M (A : Type) : Type := world -> world * result A.

Definition ret {A : Type} (a : A) : M A := fun w => (w, Ok a).

Definition bind {A B : Type} (m : M A) (k : A -> M B) : M B :=
  fun w =>
    match m w with
    | (w', Ok a) => k a w'
    | (w', Throw e) => (w', Throw e)
    end.

Definition throw {A : Type} (e : js_error) : M A := fun w => (w, Throw e).

(** An awaited promise or a call into a library: its outcome is given. *)
Definition lift {A : Type} (r : result A) : M A := fun w => (w, r).

(** [try { m } catch (err) { h err }] *)
Definition try_catch {A : Type} (m : M A) (h : js_error -> M A) : M A :=
  fun w =>
    match m w with
    | (w', Ok a) => (w', Ok a)
    | (w', Throw e) => h e w'
    end.

Declare Scope plugin_scope.
Delimit Scope plugin_scope with plugin.
Notation "x <- m ;; k" := (bind m (fun x => k))
  (at level 100, m at next level, right associativity) : plugin_scope.
Notation "m ;; k" := (bind m (fun _ => k))
  (at level 100, right associativity) : plugin_scope.
Local Open Scope plugin_scope.

Definition get_store : M store := fun w => (w, Ok (w_store w)).

Definition put_store (s : store) : M unit :=
  fun w =>
    ({| w_store := s; w_host := w_host w; w_log := w_log w;
        w_res := w_res w |}, Ok tt).

Definition put_host (h : host) : M unit :=
  fun w =>
    ({| w_store := w_store w; w_host := h; w_log := w_log w;
        w_res := w_res w |}, Ok tt).

Definition set_client (c : option oidc_client) : M unit :=
  s <- get_store ;;
  put_store {| client := c; userAuthenticated := userAuthenticated s;
               secretKey := secretKey s; redirectUrl := redirectUrl s |}.

Definition set_userAuthenticated (f : option nat) : M unit :=
  s <- get_store ;;
  put_store {| client := client s; userAuthenticated := f;
               secretKey := secretKey s; redirectUrl := redirectUrl s |}.

Definition set_secretKey (k : option jsstring) : M unit :=
  s <- get_store ;;
  put_store {| client := client s; userAuthenticated := userAuthenticated s;
               secretKey := k; redirectUrl := redirectUrl s |}.

Definition set_redirectUrl (u : option jsstring) : M unit :=
  s <- get_store ;;
  put_store {| client := client s; userAuthenticated := userAuthenticated s;
               secretKey := secretKey s; redirectUrl := u |}.

Definition logger (l : log_level) (msg : string) (err : option js_error)
  : M unit :=
  fun w =>
    ({| w_store := w_store w; w_host := w_host w;
        w_log := w_log w ++ [{| level := l; message := msg; detail := err |}];
        w_res := w_res w |}, Ok tt).

Definition respond (a : res_action) : M unit :=
  fun w =>
    ({| w_store := w_store w; w_host := w_host w; w_log := w_log w;
        w_res := w_res w ++ [a] |}, Ok tt).

(** [res.cookie(name, value, options)] and [res.redirect(url)] *)
Definition res_cookie (res : response) (name value : jsstring)
    (options : cookie_options) : M unit :=
  match cookie_throws res with
  | Some e => throw e
  | None => respond (ResCookie name value options)
  end.

Definition res_redirect (res : response) (url : jsstring) : M unit :=
  match redirect_throws res with
  | Some e => throw e
  | None => respond (ResRedirect url)
  end.

(** ** The host's registry *)

Definition get_host : M host := fun w => (w, Ok (w_host w)).

Definition registerExternalAuth (name webserverUrl : jsstring) : M nat :=
  h <- get_host ;;
  let r := {| authName := name; reg_webserverUrl := webserverUrl;
              handle := next_handle h |} in
  put_host {| registered := registered h ++ [r];
              next_handle := S (next_handle h);
              accepted := accepted h |} ;;
  ret (next_handle h).

Definition unregisterExternalAuth (name : jsstring) : M unit :=
  h <- get_host ;;
  put_host {| registered :=
                List.filter (fun r => negb (bool_decide (authName r = name)))
                            (registered h);
              next_handle := next_handle h;
              accepted := accepted h |}.

(** Calling the function that [registerExternalAuth] returned. *)
Definition call_userAuthenticated (f : nat) (i : identity) : M unit :=
  h <- get_host ;;
  put_host {| registered := registered h; next_handle := next_handle h;
              accepted := accepted h ++ [(f, i)] |}.

(** Names registered with the host after a run. *)
Definition registered_names (w : world) : list jsstring :=
  List.map authName (registered (w_host w)).

(** ** Constants *)

Record encryption_options : Type := {
  algorithm : cipher_name;
  inputEncoding : encoding;
  outputEncoding : encoding
}.

Definition encryptionOptions : encryption_options :=
  {| algorithm := aes256; inputEncoding := utf8; outputEncoding := hex |}.

Definition cookieName : jsstring := js "plugin-auth-openid-code-verifier".

Definition null_error (what : string) : js_error :=
  TypeError ("Cannot read properties of null: " ++ what).

(** A string or [null], as a value. *)
Definition value_of (s : option jsstring) : jsvalue :=
  match s with
  | Some u => JStr u
  | None => JNull
  end.

(** ** [encrypt] and [decrypt] *)

(** [createCipheriv(algorithm, store.secretKey, iv)] wants a key: a
    string key is taken as its UTF-8 bytes, [null] is a [TypeError]. *)
Definition key_bytes (st : store) : result buffer :=
  match secretKey st with
  | Some k => Ok (utf8_encode k)
  | None => Throw (TypeError "The key argument must be of type string")
  end.

(** [random] is the outcome of [getRandomBytes(16)]. *)
Definition encrypt (st : store) (random : result buffer) (data : jsstring)
  : result jsstring :=
  let '(algorithm, inputEncoding, outputEncoding) :=
    (algorithm encryptionOptions, inputEncoding encryptionOptions,
     outputEncoding encryptionOptions) in
  let? iv := random in
  let? key := key_bytes st in
  let? encrypted :=
    cipher_run algorithm key iv (bytes_of inputEncoding data) in
  Ok (toString outputEncoding iv ++ 58 :: toString outputEncoding encrypted).

Definition decrypt (st : store) (data : jsstring) : result jsstring :=
  let '(algorithm, inputEncoding, outputEncoding) :=
    (algorithm encryptionOptions, inputEncoding encryptionOptions,
     outputEncoding encryptionOptions) in
  let encryptedArray := split 58 data in
  let? iv := buffer_from (encryptedArray !! 0%nat) outputEncoding in
  let? encrypted := buffer_from (encryptedArray !! 1%nat) outputEncoding in
  let? key := key_bytes st in
  let? plain := decipher_run algorithm key iv encrypted in
  Ok (toString inputEncoding plain).

(** ** [loadSettingsAndCreateClient] *)

(** What the collaborators answer during one run: the settings store,
    issuer discovery and the host configuration. *)
Record config_env : Type := {
  getSettings : result (gmap jsstring jsvalue);
  discover : member -> result issuer;
  getWebserverUrl : jsstring
}.

(** Lines 110-115, up to the first [await]. *)
Definition reset_client : M unit :=
  st <- get_store ;;
  (match client st with
   | Some _ => unregisterExternalAuth (js "openid")
   | None => ret tt
   end) ;;
  set_client None ;;
  set_userAuthenticated None.

(** Lines 136-187, after discovery has answered. *)
Definition create_client (env : config_env)
    (settings : gmap jsstring jsvalue) (iss : issuer) : M unit :=
  logger LogDebug "Discovered issuer %s." None ;;
  st <- get_store ;;
  let secret := Js.get settings (js "client-secret") in
  let clientOptions :=
    {| client_id := Js.get settings (js "client-id");
       redirect_uris := [value_of (redirectUrl st)];
       response_types := [js "code"];
       client_secret := if Js.truthy secret then Some secret else None;
       token_endpoint_auth_method :=
         if Js.truthy secret then None else Some (js "none") |} in
  c <- lift (new_client iss clientOptions) ;;
  set_client (Some c) ;;
  st' <- get_store ;;
  match userAuthenticated st' with
  | Some _ => ret tt
  | None =>
      let webserverUrl := getWebserverUrl env in
      result <- registerExternalAuth (js "openid-connect") webserverUrl ;;
      set_userAuthenticated (Some result)
  end.

(** Lines 123-134, once the settings are there. *)
Definition configure (env : config_env)
    (settings : gmap jsstring jsvalue) : M unit :=
  if negb (Js.truthy (Js.get settings (js "discover-url"))) then
    logger LogInfo
      "Do not register external openid auth because discover URL is not set."
      None
  else if negb (Js.truthy (Js.get settings (js "client-id"))) then
    logger LogInfo
      "Do not register external openid auth because client ID is not set."
      None
  else
    let discoverUrl := Js.get settings (js "discover-url") in
    iss <- lift (discover env discoverUrl) ;;
    create_client env settings iss.

Definition loadSettingsAndCreateClient (env : config_env) : M unit :=
  reset_client ;;
  settings <- lift (getSettings env) ;;
  configure env settings.

(** The handler installed by [settingsManager.onSettingsChange]. *)
Definition onSettingsChange (env : config_env) : M unit :=
  try_catch (loadSettingsAndCreateClient env)
    (fun err =>
       logger LogError
         "Cannot load settings and create client after settings changes."
         (Some err)).

(** [register]: the callback URL, the secret key from
    [getRandomBytes(16)] and the first configuration. *)
Definition register (env : config_env) (random : result buffer) : M unit :=
  set_redirectUrl
    (Some (getWebserverUrl env
           ++ js "/plugins/auth-openid-connect/router/id-token-cb")) ;;
  secretKeyBuf <- lift random ;;
  set_secretKey (Some (toString hex secretKeyBuf)) ;;
  loadSettingsAndCreateClient env.

(** ** [onAuthRequest] *)

(** The outcomes of [generators.codeVerifier()],
    [generators.codeChallenge(v)] and [getRandomBytes(16)]. *)
Record auth_env : Type := {
  codeVerifier_result : result jsstring;
  codeChallenge_result : jsstring -> result jsstring;
  randomBytes_result : result buffer
}.

(** The object literal given to [authorizationUrl]. *)
Definition authorization_request (codeChallenge : jsstring)
  : list (jsstring * jsstring) :=
  [ (js "scope", js "openid email profile");
    (js "response_mode", js "form_post");
    (js "code_challenge", codeChallenge);
    (js "code_challenge_method", js "S256") ].

(** The body of the [try] block. *)
Definition auth_request_steps (webserverUrl : jsstring) (env : auth_env)
    (res : response) : M unit :=
  codeVerifier <- lift (codeVerifier_result env) ;;
  codeChallenge <- lift (codeChallenge_result env codeVerifier) ;;
  st <- get_store ;;
  c <- match client st with
       | Some c => ret c
       | None => throw (null_error "authorizationUrl")
       end ;;
  redirectUrl <- lift (authorizationUrl c (authorization_request codeChallenge)) ;;
  st' <- get_store ;;
  encryptedCodeVerifier <-
    lift (encrypt st' (randomBytes_result env) codeVerifier) ;;
  res_cookie res cookieName encryptedCodeVerifier
    {| secure := Js.startsWith (js "https://") webserverUrl;
       httpOnly := true;
       sameSite := js "none";
       maxAge := 1000 * 60 * 10 |} ;;
  res_redirect res redirectUrl.

Definition onAuthRequest (webserverUrl : jsstring) (env : auth_env)
    (res : response) : M unit :=
  try_catch (auth_request_steps webserverUrl env res)
    (fun err => logger LogError "Cannot handle auth request." (Some err)).

(** ** [handleCb] *)

(** What the identity provider and the settings store answer during one
    callback: [client.callbackParams(req)], [client.callback(...)],
    [client.userinfo(accessToken)] and [getSettings]. *)
Record callback_env : Type := {
  callbackParams : result jsvalue;
  callback : jsvalue -> jsvalue -> jsstring -> result token_set;
  userinfo : jsvalue -> result (gmap jsstring jsvalue);
  cb_getSettings : result (gmap jsstring jsvalue)
}.

Definition onCBError (res : response) : M unit :=
  res_redirect res (js "/login?externalAuthError=true").

(** [parseInt('' + v, 10)]: the concatenation throws when [v] cannot be
    turned into a string. *)
Definition role_of (v : member) : result jsvalue :=
  let? s := Js.to_string v in Ok (Js.parseInt s).

(** Lines 222-225: the property access can throw as well. *)
Definition map_role (settings userInfo : gmap jsstring jsvalue)
  : result jsvalue :=
  let p := Js.get settings (js "role-property") in
  if Js.truthy p then
    let? v := Js.get_computed userInfo p in role_of v
  else Ok JUndefined.

(** Lines 227-230. *)
Definition map_displayName (settings userInfo : gmap jsstring jsvalue)
  : result member :=
  let p := Js.get settings (js "display-name-property") in
  if Js.truthy p then Js.get_computed userInfo p else Ok (Data JUndefined).

(** Lines 232-233: a value that is not a string has no [replace] method. *)
Definition map_username (settings userInfo : gmap jsstring jsvalue)
  : result jsstring :=
  let? v := Js.get_computed userInfo
              (Js.get settings (js "username-property")) in
  let username := if Js.truthy v then v else Data (JStr []) in
  match username with
  | Data (JStr s) => Ok (Js.replace_disallowed s)
  | _ => Throw (TypeError "username.replace is not a function")
  end.

(** Line 239. *)
Definition map_email (settings userInfo : gmap jsstring jsvalue)
  : result member :=
  Js.get_computed userInfo (Js.get settings (js "mail-property")).

(** Lines 222-242: the three mappings and then the object literal, in
    the order in which they are evaluated. *)
Definition map_identity (settings userInfo : gmap jsstring jsvalue)
  : result identity :=
  let? role := map_role settings userInfo in
  let? displayName := map_displayName settings userInfo in
  let? username := map_username settings userInfo in
  let? email := map_email settings userInfo in
  Ok {| username := username;
        email := email;
        displayName := displayName;
        role := role |}.

(** The body of the [try] block. *)
Definition callback_steps (env : callback_env)
    (encryptedCodeVerifier : jsstring) : M unit :=
  st <- get_store ;;
  codeVerifier <- lift (decrypt st encryptedCodeVerifier) ;;
  st1 <- get_store ;;
  c <- match client st1 with
       | Some c => ret c
       | None => throw (null_error "callbackParams")
       end ;;
  params <- lift (callbackParams env) ;;
  tokenSet <-
    lift (callback env (value_of (redirectUrl st1)) params codeVerifier) ;;
  let accessToken := access_token tokenSet in
  userInfo <- lift (userinfo env accessToken) ;;
  settings <- lift (cb_getSettings env) ;;
  logger LogDebug "Got userinfo from openid auth." None ;;
  identity <- lift (map_identity settings userInfo) ;;
  st2 <- get_store ;;
  match userAuthenticated st2 with
  | None => throw (TypeError "store.userAuthenticated is not a function")
  | Some f => call_userAuthenticated f identity
  end.

Definition handleCb (env : callback_env) (req : request) (res : response)
  : M unit :=
  st <- get_store ;;
  match userAuthenticated st with
  | None =>
      logger LogInfo
        "Received callback but cannot userAuthenticated function does not exist."
        None ;;
      onCBError res
  | Some _ =>
      match cookies req !! cookieName with
      | None | Some [] =>
          logger LogError
            "Received callback but code verifier not found in request cookie."
            None ;;
          onCBError res
      | Some encryptedCodeVerifier =>
          try_catch (callback_steps env encryptedCodeVerifier)
            (fun err =>
               logger LogError "Error in handle callback." (Some err) ;;
               onCBError res)
      end
  end.

(** The callback gets as far as the attribute mapping: the acceptor [f]
    and a client are in the store, the cookie decrypts, the identity
    provider answers the token exchange and the userinfo request with
    [userInfo], and the settings store answers with [settings]. *)
Definition reaches_mapping (w : world) (env : callback_env) (req : request)
    (f : nat) (settings userInfo : gmap jsstring jsvalue) : Prop :=
  userAuthenticated (w_store w) = Some f
  /\ exists c u cookie codeVerifier params tokenSet,
       client (w_store w) = Some c
       /\ cookies req !! cookieName = Some (u :: cookie)
       /\ decrypt (w_store w) (u :: cookie) = Ok codeVerifier
       /\ callbackParams env = Ok params
       /\ callback env (value_of (redirectUrl (w_store w))) params
            codeVerifier = Ok tokenSet
       /\ userinfo env (access_token tokenSet) = Ok userInfo
       /\ cb_getSettings env = Ok settings.

(** Between [w] and [w'] the host was handed exactly the identity [i],
    through the acceptor [f]. *)
Definition handed_over (w w' : world) (f : nat) (i : identity) : Prop :=
  accepted (w_host w') = accepted (w_host w) ++ [(f, i)].

(** ** The plugin at run time *)

(** What reaches the plugin once [register] has returned: a change of
    settings runs the handler of line 90, a visitor starts a login through
    the [onAuthRequest] of a registration, a visitor comes back from the
    identity provider to the router's [/id-token-cb]. *)
Inductive event : Type :=
| SettingsChanged (env : config_env)
| AuthRequested (webserverUrl : jsstring) (env : auth_env) (res : response)
| CallbackReceived (env : callback_env) (req : request) (res : response).

Definition dispatch (e : event) : M unit :=
  match e with
  | SettingsChanged env => onSettingsChange env
  | AuthRequested webserverUrl env res => onAuthRequest webserverUrl env res
  | CallbackReceived env req res => handleCb env req res
  end.

(** A sequence of events, each handler running to its end before the
    next one starts. *)
Definition run (events : list event) (w : world) : world :=
  fold_left (fun w e => fst (dispatch e w)) events w.

(** How the store and the host stand to each other between two events:
    client and acceptor are there together or not at all; the host's
    entries are all named ['openid-connect'] and numbered in the order of
    their registration; the acceptor of the store is the one of the latest
    entry; every identity accepted so far came through an acceptor that
    the host had handed out, under a username of the permitted
    characters. *)
Definition consistent (w : world) : Prop :=
  (client (w_store w) = None <-> userAuthenticated (w_store w) = None)
  /\ List.Forall (fun r => authName r = js "openid-connect")
                 (registered (w_host w))
  /\ List.map handle (registered (w_host w))
     = List.seq 0 (next_handle (w_host w))
  /\ (forall f, userAuthenticated (w_store w) = Some f ->
                next_handle (w_host w) = S f)
  /\ List.Forall
       (fun fi =>
          (fst fi < next_handle (w_host w))%nat
          /\ List.Forall (fun c => Js.allowed_in_username c = true)
                         (username (snd fi)))
       (accepted (w_host w)).

(** The entry that line 157 adds to the host's list. *)
Definition openid_connect_registration (env : config_env) (h : host)
  : registration :=
  {| authName := js "openid-connect";
     reg_webserverUrl := getWebserverUrl env;
     handle := next_handle h |}.

(** The world before [register] has run. *)
Definition initial_world : world :=
  {| w_store := {| client := None; userAuthenticated := None;
                   secretKey := None; redirectUrl := None |};
     w_host := {| registered := []; next_handle := 0; accepted := [] |};
     w_log := [];
     w_res := [] |}.

End Plugin.

(* ------------------------------------------------------------------ *)
(** * A deployment: one instance, one identity provider, one user       *)
(* ------------------------------------------------------------------ *)

Module Scenario.
Import GF256 Encoding OpenId Plugin.

Definition enabled_settings : gmap jsstring jsvalue :=
  <[js "discover-url" := JStr (js "https://idp.example/.well-known")]>
  (<[js "client-id" := JStr (js "abc")]>
  (<[js "username-property" := JStr (js "preferred_username")]>
  (<[js "mail-property" := JStr (js "email")]>
  (<[js "role-property" := JStr (js "role")]> ∅)))).

(** The administrator has emptied the discover URL. *)
Definition disabled_settings : gmap jsstring jsvalue :=
  <[js "discover-url" := JStr []]> enabled_settings.

Definition idp : issuer :=
  {| authorization_endpoint :=
       Some (Ok {| url_base := js "https://idp.example/auth";
                   url_query := [];
                   url_hash := [] |}) |}.

(** An identity provider whose authorization endpoint is
    [https://LOGIN.example?p=b2c], as Node parses it. *)
Definition idp_with_query : issuer :=
  {| authorization_endpoint :=
       Some (Ok {| url_base := js "https://login.example/";
                   url_query := [(js "p", (js "b2c", []))];
                   url_hash := [] |}) |}.

Definition enabled : config_env :=
  {| getSettings := Ok enabled_settings;
     discover := fun _ => Ok idp;
     getWebserverUrl := js "https://tube.example" |}.

Definition disabled : config_env :=
  {| getSettings := Ok disabled_settings;
     discover := fun _ => Ok idp;
     getWebserverUrl := js "https://tube.example" |}.

(** Same settings, but the identity provider does not answer. *)
Definition unreachable : config_env :=
  {| getSettings := Ok enabled_settings;
     discover := fun _ => Throw (Error "connect ECONNREFUSED");
     getWebserverUrl := js "https://tube.example" |}.

(** Bytes 0x00..0x0f for the key, 0xf0..0xff for the IV. *)
Definition key_buffer : buffer := firstn 16 all_bytes.
Definition iv_buffer : buffer := skipn 240 all_bytes.

Definition verifier : jsstring :=
  js "dBjftJeZ4CVP-mB92K27uhbUJU1p1r_wW1gFWFOEjXk".

(** The instance after start-up with the enabled settings. *)
Definition started : world :=
  fst (register enabled (Ok key_buffer) initial_world).

Definition login : auth_env :=
  {| codeVerifier_result := Ok verifier;
     codeChallenge_result :=
       fun _ => Ok (js "E9Melhoa2OwvFrEMTJguCHaoeK1t8URWbuGJSstw-cM");
     randomBytes_result := Ok iv_buffer |}.

Definition fine : response :=
  {| cookie_throws := None; redirect_throws := None |}.

(** The cookie set by [onAuthRequest] for [login]. *)
Definition token : jsstring :=
  js ("f0f1f2f3f4f5f6f7f8f9fafbfcfdfeff:"
      ++ "46e85740a2afff759a6819ad5c64699f18eb794f96aac092e8d1177647203242"
      ++ "767889b8dd0941a9743b86325a981b7d").

(** The same token with the last bit of the IV segment flipped. *)
Definition modified_token : jsstring :=
  js ("f0f1f2f3f4f5f6f7f8f9fafbfcfdfefe:"
      ++ "46e85740a2afff759a6819ad5c64699f18eb794f96aac092e8d1177647203242"
      ++ "767889b8dd0941a9743b86325a981b7d").

(** The same token with its last ciphertext digit changed. *)
Definition damaged_token : jsstring :=
  js ("f0f1f2f3f4f5f6f7f8f9fafbfcfdfeff:"
      ++ "46e85740a2afff759a6819ad5c64699f18eb794f96aac092e8d1177647203242"
      ++ "767889b8dd0941a9743b86325a981b7c").

(** What the identity provider knows about the user, with a given value
    of the [role] claim. *)
Definition claims_with_role (r : jsstring) : gmap jsstring jsvalue :=
  <[js "preferred_username" := JStr (js "John.Doe")]>
  (<[js "email" := JStr (js "john@example.org")]>
  (<[js "role" := JStr r]> ∅)).

Definition claims : gmap jsstring jsvalue := claims_with_role (js "2").

(** An identity provider that answers with [userInfo], the settings
    store answering with [settings]. *)
Definition provider_configured (settings userInfo : gmap jsstring jsvalue)
  : callback_env :=
  {| callbackParams := Ok (JObj [(js "code", JStr (js "c0de"))]);
     callback := fun _ _ _ =>
       Ok {| access_token := JStr (js "at") |};
     userinfo := fun _ => Ok userInfo;
     cb_getSettings := Ok settings |}.

Definition provider_answering (userInfo : gmap jsstring jsvalue)
  : callback_env :=
  provider_configured enabled_settings userInfo.

(** No role property is configured. *)
Definition settings_without_role : gmap jsstring jsvalue :=
  delete (js "role-property") enabled_settings.

(** The identity provider says nothing about a role. *)
Definition claims_without_role : gmap jsstring jsvalue :=
  delete (js "role") claims.

Definition provider : callback_env := provider_answering claims.

(** A login attempt during which [getRandomBytes] fails. *)
Definition login_without_entropy : auth_env :=
  {| codeVerifier_result := Ok verifier;
     codeChallenge_result :=
       fun _ => Ok (js "E9Melhoa2OwvFrEMTJguCHaoeK1t8URWbuGJSstw-cM");
     randomBytes_result := Throw (Error "entropy source failed") |}.

(** The same user, with any value as [role] claim or as
    [preferred_username] claim. *)
Definition claims_with_role_value (r : jsvalue) : gmap jsstring jsvalue :=
  <[js "role" := r]> claims.

Definition claims_with_username_value (u : jsvalue)
  : gmap jsstring jsvalue :=
  <[js "preferred_username" := u]> claims.

(** The administrator has entered a client secret. *)
Definition confidential_settings : gmap jsstring jsvalue :=
  <[js "client-secret" := JStr (js "s3cret")]> enabled_settings.

Definition confidential : config_env :=
  {| getSettings := Ok confidential_settings;
     discover := fun _ => Ok idp;
     getWebserverUrl := js "https://tube.example" |}.

Definition with_cookie (value : jsstring) : request :=
  {| cookies := <[cookieName := value]> ∅ |}.

Definition without_cookie : request := {| cookies := ∅ |}.

End Scenario.

(* ================================================================== *)
(** * Properties                                                        *)
(* ================================================================== *)

(* ------------------------------------------------------------------ *)
(** ** The field operations, bit by bit                                 *)
(* ------------------------------------------------------------------ *)

Module GF256Facts.
Import GF256.

Lemma to_bits_inj (a b : byte) : Byte.to_bits a = Byte.to_bits b -> a = b.
Proof.
  intros H.
  rewrite <- (Byte.of_bits_to_bits a), <- (Byte.of_bits_to_bits b).
  now rewrite H.
Qed.

Lemma to_bits_bxor (a b : byte) :
  Byte.to_bits (bxor a b) = xor_bits (Byte.to_bits a) (Byte.to_bits b).
Proof. unfold bxor. apply Byte.to_bits_of_bits. Qed.

Lemma to_bits_xtime (a : byte) :
  Byte.to_bits (xtime a) = xtime_bits (Byte.to_bits a).
Proof. unfold xtime. apply Byte.to_bits_of_bits. Qed.

(** Replace the bits of a byte by eight boolean variables. *)
Ltac bits_of x :=
  let t := fresh "t" in
  generalize (Byte.to_bits x); intros t;
  destruct t as [? [? [? [? [? [? [? ?]]]]]]].

Ltac push_bits :=
  unfold mul2, mul3, mul9, mul11, mul13, mul14;
  repeat (rewrite to_bits_bxor || rewrite to_bits_xtime).

Ltac split_pairs :=
  repeat match goal with |- (_, _) = (_, _) => f_equal end.

Ltac bits_eq := cbn [xor_bits xtime_bits]; split_pairs; btauto.

Lemma bxor_cancel_r (a k : byte) : bxor (bxor a k) k = a.
Proof. apply to_bits_inj. push_bits. bits_of a. bits_of k. bits_eq. Qed.

Lemma bxor_comm (a b : byte) : bxor a b = bxor b a.
Proof. apply to_bits_inj. push_bits. bits_of a. bits_of b. bits_eq. Qed.

Lemma bxor_assoc (a b c : byte) : bxor a (bxor b c) = bxor (bxor a b) c.
Proof.
  apply to_bits_inj. push_bits. bits_of a. bits_of b. bits_of c. bits_eq.
Qed.

Lemma bxor_0_r (a : byte) : bxor a x00 = a.
Proof. destruct a; reflexivity. Qed.

Lemma bxor_diag (a : byte) : bxor a a = x00.
Proof. destruct a; reflexivity. Qed.

Lemma to_nat_byte_of_nat (n : nat) :
  (n < 256)%nat -> Byte.to_nat (byte_of_nat n) = n.
Proof.
  intros H. unfold byte_of_nat.
  destruct (Byte.of_nat n) as [b|] eqn:E.
  - now apply Byte.to_of_nat.
  - apply Byte.of_nat_None_iff in E. lia.
Qed.

End GF256Facts.

(* ------------------------------------------------------------------ *)
(** ** The inverse cipher undoes the cipher                             *)
(* ------------------------------------------------------------------ *)

Module AESFacts.
Import GF256 GF256Facts AES.

Lemma inv_sbox_sbox (b : byte) : inv_sbox (sbox b) = b.
Proof. destruct b; reflexivity. Qed.

(** The table is the S-box of the standard: inversion in the field
    followed by the affine map. *)
Lemma sbox_spec (b : byte) : sbox b = affine (ginv b).
Proof. destruct b; vm_compute; reflexivity. Qed.

Lemma inv_mix_column_mix_column (w : word) :
  inv_mix_column (mix_column w) = w.
Proof.
  destruct w as [[[a b] c] d]. unfold inv_mix_column, mix_column.
  split_pairs; apply to_bits_inj; push_bits;
    bits_of a; bits_of b; bits_of c; bits_of d; bits_eq.
Qed.

Lemma xor_word_cancel_r (w k : word) : xor_word (xor_word w k) k = w.
Proof.
  destruct w as [[[a b] c] d], k as [[[a' b'] c'] d']. cbv [xor_word].
  now rewrite !bxor_cancel_r.
Qed.

Lemma xor_block_cancel_r (s k : block) : xor_block (xor_block s k) k = s.
Proof.
  destruct s as [[[a b] c] d], k as [[[a' b'] c'] d']. cbv [xor_block].
  now rewrite !xor_word_cancel_r.
Qed.

Lemma add_round_key_involutive (k s : block) :
  add_round_key k (add_round_key k s) = s.
Proof. apply xor_block_cancel_r. Qed.

Lemma inv_shift_rows_shift_rows (s : block) :
  inv_shift_rows (shift_rows s) = s.
Proof.
  destruct s as [[[[[[a0 a1] a2] a3] [[[b0 b1] b2] b3]]
                   [[[c0 c1] c2] c3]] [[[d0 d1] d2] d3]].
  reflexivity.
Qed.

Lemma inv_sub_bytes_sub_bytes (s : block) : inv_sub_bytes (sub_bytes s) = s.
Proof.
  destruct s as [[[[[[a0 a1] a2] a3] [[[b0 b1] b2] b3]]
                   [[[c0 c1] c2] c3]] [[[d0 d1] d2] d3]].
  cbv [inv_sub_bytes sub_bytes map_block map_word].
  now rewrite !inv_sbox_sbox.
Qed.

Lemma inv_mix_columns_mix_columns (s : block) :
  inv_mix_columns (mix_columns s) = s.
Proof.
  destruct s as [[[a b] c] d]. cbv [inv_mix_columns mix_columns map_block].
  now rewrite !inv_mix_column_mix_column.
Qed.

Lemma inv_round_round (k s : block) : inv_round k (round k s) = s.
Proof.
  unfold inv_round, round.
  now rewrite add_round_key_involutive, inv_mix_columns_mix_columns,
    inv_shift_rows_shift_rows, inv_sub_bytes_sub_bytes.
Qed.

Lemma inv_final_round_final_round (k s : block) :
  inv_final_round k (final_round k s) = s.
Proof.
  unfold inv_final_round, final_round.
  now rewrite add_round_key_involutive, inv_shift_rows_shift_rows,
    inv_sub_bytes_sub_bytes.
Qed.

Lemma inv_rounds_rounds (ks : list block) :
  forall s, inv_rounds ks (rounds ks s) = s.
Proof.
  induction ks as [|k ks IH]; intros s; [reflexivity|].
  destruct ks as [|k' ks'].
  - apply inv_final_round_final_round.
  - change (inv_round k (inv_rounds (k' :: ks') (rounds (k' :: ks') (round k s))) = s).
    rewrite IH. apply inv_round_round.
Qed.

Lemma inv_cipher_cipher (rks : list block) (s : block) :
  inv_cipher rks (cipher rks s) = s.
Proof.
  destruct rks as [|k0 ks]; [reflexivity|]. unfold inv_cipher, cipher.
  rewrite inv_rounds_rounds. apply add_round_key_involutive.
Qed.

Lemma decrypt_block_encrypt_block (key : list byte) (s : block) :
  decrypt_block key (encrypt_block key s) = s.
Proof. apply inv_cipher_cipher. Qed.

(** The worked example of FIPS 197, appendix C.3. *)
Example fips197_c3 :
  encrypt_block (firstn 32 all_bytes)
    ((x00, x11, x22, x33), (x44, x55, x66, x77),
     (x88, x99, xaa, xbb), (xcc, xdd, xee, xff))
  = ((x8e, xa2, xb7, xca), (x51, x67, x45, xbf),
     (xea, xfc, x49, x90), (x4b, x49, x60, x89)).
Proof. vm_compute. reflexivity. Qed.

End AESFacts.

(* ------------------------------------------------------------------ *)
(** ** Hex, [split] and UTF-8 on seven-bit strings                      *)
(* ------------------------------------------------------------------ *)

Module EncodingFacts.
Import GF256 Encoding.

Lemma to_N_byte_of_N (n : N) : n < 256 -> Byte.to_N (byte_of_N n) = n.
Proof.
  intros H. unfold byte_of_N.
  destruct (Byte.of_N n) as [b|] eqn:E.
  - now apply Byte.to_of_N.
  - apply Byte.of_N_None_iff in E. lia.
Qed.

Lemma byte_of_N_to_N (b : byte) : byte_of_N (Byte.to_N b) = b.
Proof. unfold byte_of_N. now rewrite Byte.of_to_N. Qed.

Lemma hex_decode_hex_byte (b : byte) (s : jsstring) :
  hex_decode (hex_byte b ++ s) = b :: hex_decode s.
Proof. destruct b; reflexivity. Qed.

Lemma hex_decode_encode (bs : buffer) : hex_decode (hex_encode bs) = bs.
Proof.
  induction bs as [|b bs IH]; [reflexivity|].
  cbn [hex_encode flat_map]. rewrite hex_decode_hex_byte.
  f_equal. exact IH.
Qed.

Lemma hex_byte_chars (b : byte) :
  List.Forall (fun u => u <> 58 /\ u < 128) (hex_byte b).
Proof.
  destruct b; repeat constructor; cbv; congruence.
Qed.

Lemma hex_encode_chars (bs : buffer) :
  List.Forall (fun u => u <> 58 /\ u < 128) (hex_encode bs).
Proof.
  induction bs as [|b bs IH]; [constructor|].
  cbn [hex_encode flat_map]. apply Forall_app. split; [apply hex_byte_chars|exact IH].
Qed.

Lemma hex_encode_length (bs : buffer) :
  length (hex_encode bs) = (2 * length bs)%nat.
Proof.
  unfold hex_encode.
  induction bs as [|b bs IH]; [reflexivity|].
  cbn [flat_map]. rewrite length_app, IH. destruct b; cbn; lia.
Qed.

Lemma hex_encode_seven_bit (bs : buffer) : seven_bit (hex_encode bs).
Proof.
  eapply List.Forall_impl; [|apply hex_encode_chars]. intros u [_ H]. exact H.
Qed.

Lemma split_no_sep (sep : N) (s : jsstring) :
  List.Forall (fun u => u <> sep) s -> split sep s = [s].
Proof.
  induction 1 as [|u s Hu _ IH]; [reflexivity|].
  cbn [split]. destruct (N.eqb_spec u sep) as [->|_]; [congruence|].
  now rewrite IH.
Qed.

Lemma split_at_sep (sep : N) (s t : jsstring) :
  List.Forall (fun u => u <> sep) s ->
  split sep (s ++ sep :: t) = s :: split sep t.
Proof.
  induction 1 as [|u s Hu _ IH].
  - cbn. now rewrite N.eqb_refl.
  - cbn [app split]. destruct (N.eqb_spec u sep) as [->|_]; [congruence|].
    now rewrite IH.
Qed.

Lemma split_token (iv encrypted : buffer) :
  split 58 (hex_encode iv ++ 58 :: hex_encode encrypted)
  = [hex_encode iv; hex_encode encrypted].
Proof.
  rewrite split_at_sep, split_no_sep; [reflexivity| |];
    (eapply List.Forall_impl; [|apply hex_encode_chars]); intros u [H _]; exact H.
Qed.

Example hex_decode_stops : hex_decode (js "1ag123") = [x1a].
Proof. reflexivity. Qed.

Example hex_decode_odd : hex_decode (js "1a7") = [x1a].
Proof. reflexivity. Qed.

Example split_colons :
  split 58 (js "ab:cd:ef") = [js "ab"; js "cd"; js "ef"].
Proof. reflexivity. Qed.

Example split_none : split 58 (js "abcd") = [js "abcd"].
Proof. reflexivity. Qed.

(** U+00E9, U+20AC and U+1F600 (a surrogate pair), then a lone
    surrogate, which comes back as U+FFFD. *)
Example utf8_examples :
  utf8_encode [233; 8364; 55357; 56832]
  = [xc3; xa9; xe2; x82; xac; xf0; x9f; x98; x80]
  /\ utf8_decode (utf8_encode [233; 8364; 55357; 56832])
     = [233; 8364; 55357; 56832]
  /\ utf8_decode (utf8_encode [97; 55357; 98]) = [97; 65533; 98]
  /\ utf8_decode [xc3; x28; xe2; x82] = [65533; 40; 65533].
Proof. repeat split; reflexivity. Qed.

Lemma utf8_encode_seven_bit (s : jsstring) :
  seven_bit s -> utf8_encode s = List.map byte_of_N s.
Proof.
  induction 1 as [|u s Hu _ IH]; [reflexivity|].
  cbn [utf8_encode List.map].
  unfold is_high_surrogate, is_low_surrogate, utf8_encode_cp.
  replace (55296 <=? u) with false by (symmetry; apply N.leb_gt; lia).
  replace (56320 <=? u) with false by (symmetry; apply N.leb_gt; lia).
  replace (u <? 128) with true by (symmetry; apply N.ltb_lt; lia).
  cbn. now rewrite IH.
Qed.

Lemma utf8_decode_seven_bit (s : jsstring) :
  seven_bit s -> utf8_decode (List.map byte_of_N s) = s.
Proof.
  unfold utf8_decode.
  induction 1 as [|u s Hu _ IH]; [reflexivity|].
  cbn [List.map utf8_run utf8_init needed].
  rewrite to_N_byte_of_N by lia. unfold utf8_start.
  replace (u <? 128) with true by (symmetry; apply N.ltb_lt; lia).
  cbn. now rewrite IH.
Qed.

Lemma utf8_roundtrip_seven_bit (s : jsstring) :
  seven_bit s -> utf8_decode (utf8_encode s) = s.
Proof.
  intros H. rewrite utf8_encode_seven_bit by exact H.
  now apply utf8_decode_seven_bit.
Qed.

Lemma utf8_encode_length_seven_bit (s : jsstring) :
  seven_bit s -> length (utf8_encode s) = length s.
Proof.
  intros H. rewrite utf8_encode_seven_bit by exact H. apply length_map.
Qed.

(** *** UTF-8 on every well-formed string *)

(** Linear arithmetic with division and remainder by constants. *)
Ltac lia_div := zify; Z.to_euclidean_division_equations; lia.

(** Settle one comparison of the goal from the arithmetic context. *)
Ltac settle_test :=
  match goal with
  | |- context [?a <? ?b] =>
      first [ replace (a <? b) with true by (symmetry; apply N.ltb_lt; lia_div)
            | replace (a <? b) with false by (symmetry; apply N.ltb_ge; lia_div) ]
  | |- context [?a <=? ?b] =>
      first [ replace (a <=? b) with true by (symmetry; apply N.leb_le; lia_div)
            | replace (a <=? b) with false by (symmetry; apply N.leb_gt; lia_div) ]
  | |- context [?a =? ?b] =>
      first [ replace (a =? b) with true by (symmetry; apply N.eqb_eq; lia_div)
            | replace (a =? b) with false by (symmetry; apply N.eqb_neq; lia_div) ]
  end.

(** Decoding what one scalar value was encoded to gives its code units
    back and leaves the decoder ready for the next character. *)
Lemma utf8_run_encode_cp (cp : N) (rest : buffer) :
  is_scalar cp ->
  utf8_run utf8_init (utf8_encode_cp cp ++ rest)
  = emit_cp cp ++ utf8_run utf8_init rest.
Proof.
  intros Hs. unfold is_scalar in Hs. unfold utf8_encode_cp.
  destruct (N.ltb_spec cp 128) as [H1|H1];
    [|destruct (N.ltb_spec cp 2048) as [H2|H2];
      [|destruct (N.ltb_spec cp 65536) as [H3|H3]]].
  - cbn [app utf8_run utf8_init needed].
    rewrite to_N_byte_of_N by lia. unfold utf8_start, emit_cp.
    repeat settle_test. reflexivity.
  - assert (Hd : cp = 64 * (cp / 64) + cp mod 64 /\ cp mod 64 < 64
                 /\ 2 <= cp / 64 < 32) by lia_div.
    set (a := cp / 64) in *. set (b := cp mod 64) in *. clearbody a b.
    cbn [app utf8_run utf8_init needed].
    rewrite !to_N_byte_of_N by lia. unfold utf8_start.
    repeat settle_test. cbn [andb app utf8_run needed acc lower upper].
    repeat settle_test. cbn [andb]. f_equal. f_equal. lia_div.
  - assert (Hd : cp = 4096 * (cp / 4096) + 64 * ((cp / 64) mod 64)
                      + cp mod 64
                 /\ (cp / 64) mod 64 < 64 /\ cp mod 64 < 64
                 /\ cp / 4096 < 16) by lia_div.
    set (a := cp / 4096) in *. set (b := (cp / 64) mod 64) in *.
    set (c := cp mod 64) in *. clearbody a b c.
    cbn [app utf8_run utf8_init needed].
    rewrite !to_N_byte_of_N by lia. unfold utf8_start.
    do 5 settle_test.
    cbn [andb app utf8_run needed acc lower upper].
    destruct (N.eqb_spec (224 + a) 224) as [E1|E1];
      destruct (N.eqb_spec (224 + a) 237) as [E2|E2];
      try (exfalso; lia);
      repeat settle_test; cbn [andb app utf8_run needed acc lower upper];
      repeat settle_test; cbn [andb]; f_equal; f_equal; lia_div.
  - assert (Hd : cp = 262144 * (cp / 262144) + 4096 * ((cp / 4096) mod 64)
                      + 64 * ((cp / 64) mod 64) + cp mod 64
                 /\ (cp / 4096) mod 64 < 64 /\ (cp / 64) mod 64 < 64
                 /\ cp mod 64 < 64 /\ cp / 262144 < 5) by lia_div.
    set (a := cp / 262144) in *. set (b := (cp / 4096) mod 64) in *.
    set (c := (cp / 64) mod 64) in *. set (d := cp mod 64) in *.
    clearbody a b c d.
    cbn [app utf8_run utf8_init needed].
    rewrite !to_N_byte_of_N by lia. unfold utf8_start.
    do 7 settle_test.
    cbn [andb app utf8_run needed acc lower upper].
    destruct (N.eqb_spec (240 + a) 240) as [E1|E1];
      destruct (N.eqb_spec (240 + a) 244) as [E2|E2];
      try (exfalso; lia);
      repeat settle_test; cbn [andb app utf8_run needed acc lower upper];
      repeat settle_test; cbn [andb app utf8_run needed acc lower upper];
      repeat settle_test; cbn [andb]; f_equal; f_equal; lia_div.
Qed.

Lemma surrogate_bounds (u : N) :
  (is_high_surrogate u = true <-> 55296 <= u < 56320)
  /\ (is_low_surrogate u = true <-> 56320 <= u < 57344).
Proof.
  unfold is_high_surrogate, is_low_surrogate.
  rewrite !andb_true_iff, !N.leb_le, !N.ltb_lt. tauto.
Qed.

Lemma utf8_roundtrip_upto (n : nat) :
  forall s : jsstring,
    (length s <= n)%nat -> well_formed s ->
    utf8_decode (utf8_encode s) = s.
Proof.
  unfold utf8_decode.
  induction n as [|n IH]; intros s Hlen Hwf.
  - destruct s; [reflexivity|cbn in Hlen; lia].
  - destruct s as [|u s]; [reflexivity|].
    cbn [utf8_encode well_formed] in *.
    destruct (is_high_surrogate u) eqn:Hh.
    + destruct s as [|l s]; [destruct Hwf|]. destruct Hwf as [Hl Hwf].
      rewrite Hl. apply surrogate_bounds in Hh, Hl.
      rewrite utf8_run_encode_cp by (unfold is_scalar; lia).
      rewrite IH by (cbn [length] in Hlen; auto; lia).
      unfold emit_cp.
      replace (65536 + (u - 55296) * 1024 + (l - 56320) <? 65536) with false
        by (symmetry; apply N.ltb_ge; lia).
      cbn [app]. f_equal; [|f_equal]; lia_div.
    + destruct Hwf as (Hl & Hu & Hwf). rewrite Hl.
      assert (Hs : is_scalar u).
      { unfold is_scalar.
        destruct (surrogate_bounds u) as [H1 H2].
        destruct (N.lt_ge_cases u 55296); [now left|right].
        destruct (N.lt_ge_cases u 56320);
          [rewrite (proj2 H1) in Hh by lia; discriminate|].
        destruct (N.lt_ge_cases u 57344);
          [rewrite (proj2 H2) in Hl by lia; discriminate|lia]. }
      rewrite utf8_run_encode_cp by exact Hs.
      rewrite IH by (cbn [length] in Hlen; auto; lia).
      unfold emit_cp.
      replace (u <? 65536) with true by (symmetry; apply N.ltb_lt; lia).
      reflexivity.
Qed.

Lemma utf8_roundtrip (s : jsstring) :
  well_formed s -> utf8_decode (utf8_encode s) = s.
Proof. apply (utf8_roundtrip_upto (length s)). lia. Qed.

Lemma seven_bit_well_formed (s : jsstring) : seven_bit s -> well_formed s.
Proof.
  induction 1 as [|u s Hu _ IH]; [exact I|].
  cbn [well_formed]. unfold is_high_surrogate, is_low_surrogate.
  replace (55296 <=? u) with false by (symmetry; apply N.leb_gt; lia).
  replace (56320 <=? u) with false by (symmetry; apply N.leb_gt; lia).
  cbn. repeat split; [lia|exact IH].
Qed.

End EncodingFacts.

(* ------------------------------------------------------------------ *)
(** ** Padding, chaining and the cipher objects                         *)
(* ------------------------------------------------------------------ *)

Module CipherFacts.
Import GF256 GF256Facts AES AESFacts Encoding Cipher.

Lemma blocks_of_bytes_of_block (s : block) (l : buffer) :
  blocks_of_bytes (bytes_of_block s ++ l) = s :: blocks_of_bytes l.
Proof.
  destruct s as [[[[[[a0 a1] a2] a3] [[[b0 b1] b2] b3]]
                   [[[c0 c1] c2] c3]] [[[d0 d1] d2] d3]].
  reflexivity.
Qed.

Lemma blocks_of_bytes_of_blocks (bl : list block) :
  blocks_of_bytes (bytes_of_blocks bl) = bl.
Proof.
  induction bl as [|s bl IH]; [reflexivity|].
  cbn [bytes_of_blocks flat_map]. rewrite blocks_of_bytes_of_block.
  f_equal. exact IH.
Qed.

Lemma bytes_of_block_length (s : block) : length (bytes_of_block s) = 16%nat.
Proof.
  destruct s as [[[[[[a0 a1] a2] a3] [[[b0 b1] b2] b3]]
                   [[[c0 c1] c2] c3]] [[[d0 d1] d2] d3]].
  reflexivity.
Qed.

Lemma bytes_of_blocks_length (bl : list block) :
  length (bytes_of_blocks bl) = (16 * length bl)%nat.
Proof.
  induction bl as [|s bl IH]; [reflexivity|].
  cbn [bytes_of_blocks flat_map]. rewrite length_app, bytes_of_block_length.
  fold (bytes_of_blocks bl). rewrite IH. cbn [length]. lia.
Qed.

(** A buffer of [16 * n] bytes is the concatenation of its blocks. *)
Lemma bytes_of_blocks_of_bytes (n : nat) :
  forall l : buffer,
    length l = (16 * n)%nat -> bytes_of_blocks (blocks_of_bytes l) = l.
Proof.
  induction n as [|n IH]; intros l Hl.
  - destruct l; [reflexivity|discriminate].
  - do 16 (destruct l as [|? l]; [cbn in Hl; lia|]).
    cbn [blocks_of_bytes bytes_of_blocks flat_map bytes_of_block app].
    do 16 f_equal. apply IH. cbn [length] in Hl. lia.
Qed.

Lemma blocks_of_bytes_length (n : nat) :
  forall l : buffer,
    length l = (16 * n)%nat -> length (blocks_of_bytes l) = n.
Proof.
  induction n as [|n IH]; intros l Hl.
  - destruct l; [reflexivity|discriminate].
  - do 16 (destruct l as [|? l]; [cbn in Hl; lia|]).
    cbn [blocks_of_bytes length]. f_equal. apply IH. cbn [length] in Hl. lia.
Qed.

Lemma block_of_bytes_of_block (s : block) :
  block_of_bytes (bytes_of_block s) = s.
Proof.
  unfold block_of_bytes. rewrite <- (app_nil_r (bytes_of_block s)).
  now rewrite blocks_of_bytes_of_block.
Qed.

Section ChainingFacts.
Variable E D : block -> block.
Hypothesis D_E : forall s, D (E s) = s.

Lemma cbc_decrypt_encrypt (ps : list block) :
  forall prev, cbc_decrypt D prev (cbc_encrypt E prev ps) = ps.
Proof.
  induction ps as [|p ps IH]; intros prev; [reflexivity|].
  cbn [cbc_encrypt cbc_decrypt].
  rewrite D_E, xor_block_cancel_r. f_equal. apply IH.
Qed.

Lemma cbc_encrypt_length (ps : list block) :
  forall prev, length (cbc_encrypt E prev ps) = length ps.
Proof.
  induction ps as [|p ps IH]; intros prev; [reflexivity|].
  cbn [cbc_encrypt length]. f_equal. apply IH.
Qed.
End ChainingFacts.

Lemma pad_length_range (len : nat) :
  (1 <= pad_length len <= 16)%nat.
Proof.
  unfold pad_length. pose proof (Nat.mod_upper_bound len 16). lia.
Qed.

Lemma pad_whole_blocks (bs : buffer) :
  length (pad bs) = (16 * S (length bs / 16))%nat.
Proof.
  unfold pad, pad_length. rewrite length_app, repeat_length.
  pose proof (Nat.div_mod_eq (length bs) 16).
  pose proof (Nat.mod_upper_bound (length bs) 16). lia.
Qed.

Lemma unpad_pad (bs : buffer) : unpad (pad bs) = Some bs.
Proof.
  unfold unpad, pad.
  pose proof (pad_length_range (length bs)) as Hr.
  set (n := pad_length (length bs)) in *.
  assert (Hlast : List.last (bs ++ repeat (byte_of_nat n) n) x00 = byte_of_nat n).
  { destruct n as [|m]; [lia|].
    replace (repeat (byte_of_nat (S m)) (S m))
      with (repeat (byte_of_nat (S m)) m ++ [byte_of_nat (S m)]).
    - rewrite app_assoc. apply last_last.
    - change [byte_of_nat (S m)] with (repeat (byte_of_nat (S m)) 1).
      rewrite <- repeat_app. f_equal. lia. }
  rewrite Hlast, to_nat_byte_of_nat by lia.
  rewrite length_app, repeat_length.
  replace (length bs + n - n)%nat with (length bs) by lia.
  rewrite firstn_app, Nat.sub_diag, firstn_all, firstn_O, app_nil_r.
  rewrite skipn_app, Nat.sub_diag, skipn_all, skipn_O, app_nil_l.
  replace (Nat.leb 1 n && Nat.leb n 16 && Nat.leb n (length bs + n))%bool
    with true
    by (symmetry; rewrite !andb_true_iff, !Nat.leb_le; lia).
  replace (forallb (Byte.eqb (byte_of_nat n)) (repeat (byte_of_nat n) n))
    with true; [reflexivity|].
  symmetry. apply forallb_forall. intros x Hx.
  apply repeat_spec in Hx. subst x. now apply Byte.byte_dec_lb.
Qed.

(** What [decipher_run] returns on the output of [cipher_run], for the
    same key and IV. *)
Lemma decipher_run_cipher_run (key iv plain : buffer) :
  length key = 32%nat -> length iv = 16%nat ->
  exists encrypted,
    cipher_run aes256 key iv plain = Ok encrypted
    /\ decipher_run aes256 key iv encrypted = Ok plain.
Proof.
  intros Hk Hi. unfold cipher_run, decipher_run, check_key_iv.
  rewrite Hk, Hi. cbn [Nat.eqb negb rbind].
  eexists. split; [reflexivity|].
  set (ps := blocks_of_bytes (pad plain)).
  assert (Hps : length ps = S (length plain / 16)).
  { apply blocks_of_bytes_length, pad_whole_blocks. }
  rewrite bytes_of_blocks_length, cbc_encrypt_length, Hps.
  replace ((16 * S (length plain / 16)) mod 16)%nat with 0%nat
    by (symmetry; rewrite Nat.mul_comm; apply Nat.Div0.mod_mul).
  cbn [Nat.eqb Nat.mul Nat.add orb negb].
  rewrite blocks_of_bytes_of_blocks.
  rewrite cbc_decrypt_encrypt by apply decrypt_block_encrypt_block.
  unfold ps.
  rewrite (bytes_of_blocks_of_bytes _ _ (pad_whole_blocks plain)).
  now rewrite unpad_pad.
Qed.

(** *** Changing the IV changes the first block, and nothing else *)

Lemma bxor_bxor (a b c : byte) : bxor (bxor a b) c = bxor a (bxor b c).
Proof. symmetry. apply bxor_assoc. Qed.

Lemma xor_block_assoc (s a b : block) :
  xor_block (xor_block s a) b = xor_block s (xor_block a b).
Proof.
  destruct s as [[[[[[s0 s1] s2] s3] [[[s4 s5] s6] s7]]
                   [[[s8 s9] s10] s11]] [[[s12 s13] s14] s15]].
  destruct a as [[[[[[a0 a1] a2] a3] [[[a4 a5] a6] a7]]
                   [[[a8 a9] a10] a11]] [[[a12 a13] a14] a15]].
  destruct b as [[[[[[b0 b1] b2] b3] [[[b4 b5] b6] b7]]
                   [[[b8 b9] b10] b11]] [[[b12 b13] b14] b15]].
  cbv [xor_block xor_word]. now rewrite !bxor_bxor.
Qed.

Lemma xor_bytes_nil_r (a : buffer) : xor_bytes a [] = a.
Proof. now destruct a. Qed.

Lemma xor_bytes_length (a b : buffer) : length (xor_bytes a b) = length a.
Proof.
  revert b. induction a as [|x a IH]; intros [|y b]; cbn; try reflexivity.
  now rewrite IH.
Qed.

Lemma xor_bytes_app (a tail b : buffer) :
  (length b <= length a)%nat ->
  xor_bytes (a ++ tail) b = xor_bytes a b ++ tail.
Proof.
  revert a. induction b as [|y b IH]; intros a H.
  - now rewrite !xor_bytes_nil_r.
  - destruct a as [|x a]; [cbn in H; lia|].
    cbn [app xor_bytes]. rewrite IH; [reflexivity|]. cbn in H. lia.
Qed.

Lemma bytes_of_block_xor (s t : block) :
  bytes_of_block (xor_block s t)
  = xor_bytes (bytes_of_block s) (bytes_of_block t).
Proof.
  destruct s as [[[[[[s0 s1] s2] s3] [[[s4 s5] s6] s7]]
                   [[[s8 s9] s10] s11]] [[[s12 s13] s14] s15]].
  destruct t as [[[[[[a0 a1] a2] a3] [[[a4 a5] a6] a7]]
                   [[[a8 a9] a10] a11]] [[[a12 a13] a14] a15]].
  reflexivity.
Qed.

Lemma bytes_of_block_of_bytes (l : buffer) :
  length l = 16%nat -> bytes_of_block (block_of_bytes l) = l.
Proof.
  intros H. do 16 (destruct l as [|? l]; [discriminate|]).
  destruct l; [reflexivity|discriminate].
Qed.

Lemma bxor_fixed (x y : byte) : bxor x y = x -> y = x00.
Proof.
  intros H. rewrite <- (bxor_cancel_r y x), (bxor_comm y x), H.
  apply bxor_diag.
Qed.

Lemma bxor_zero (x y : byte) : bxor x y = x00 -> x = y.
Proof.
  intros H. rewrite <- (bxor_cancel_r x y), H. destruct y; reflexivity.
Qed.

(** Two IVs of the same length that differ change whatever they are
    XORed into. *)
Lemma xor_bytes_differs (iv iv' : buffer) :
  length iv = length iv' -> iv <> iv' ->
  forall plain : buffer,
    (length iv <= length plain)%nat ->
    xor_bytes plain (xor_bytes iv iv') <> plain.
Proof.
  revert iv'. induction iv as [|x iv IH]; intros [|y iv'] Hlen Hne plain Hp;
    try discriminate; [congruence|].
  destruct plain as [|p plain]; [cbn in Hp; lia|].
  cbn [xor_bytes]. intros Heq. injection Heq as Hhead Htail.
  apply bxor_fixed, bxor_zero in Hhead. subst y.
  apply (IH iv') with (plain := plain); try assumption.
  - cbn in Hlen. lia.
  - congruence.
  - cbn in Hp. lia.
Qed.

(** Decrypting under another IV what was chained from [iv]. *)
Lemma cbc_decrypt_other_iv (E D : block -> block) (iv iv' p : block)
    (ps : list block) :
  (forall s, D (E s) = s) ->
  cbc_decrypt D iv' (cbc_encrypt E iv (p :: ps))
  = xor_block p (xor_block iv iv') :: ps.
Proof.
  intros D_E. cbn [cbc_encrypt cbc_decrypt].
  now rewrite D_E, xor_block_assoc, (cbc_decrypt_encrypt E D D_E).
Qed.

Lemma pad_xor_bytes (plain delta : buffer) :
  (length delta <= length plain)%nat ->
  xor_bytes (pad plain) delta = pad (xor_bytes plain delta).
Proof.
  intros H. unfold pad. rewrite xor_bytes_app by exact H.
  now rewrite xor_bytes_length.
Qed.

(** [decipher_run] under a different IV: no error, and the plaintext
    comes back with its first block changed by the difference of the
    IVs. *)
Lemma decipher_run_other_iv (key iv iv' plain : buffer) :
  length key = 32%nat -> length iv = 16%nat -> length iv' = 16%nat ->
  (16 <= length plain)%nat ->
  exists encrypted,
    cipher_run aes256 key iv plain = Ok encrypted
    /\ decipher_run aes256 key iv' encrypted
       = Ok (xor_bytes plain (xor_bytes iv iv')).
Proof.
  intros Hk Hi Hi' Hp. unfold cipher_run, decipher_run, check_key_iv.
  rewrite Hk, Hi, Hi'. cbn [Nat.eqb negb rbind].
  eexists. split; [reflexivity|].
  pose proof (pad_whole_blocks plain) as Hpad.
  pose proof (blocks_of_bytes_length _ _ Hpad) as Hps.
  pose proof (bytes_of_blocks_of_bytes _ _ Hpad) as Hflat.
  destruct (blocks_of_bytes (pad plain)) as [|p ps] eqn:Eps;
    [discriminate|].
  rewrite bytes_of_blocks_length, cbc_encrypt_length, Hps.
  replace ((16 * S (length plain / 16)) mod 16)%nat with 0%nat
    by (symmetry; rewrite Nat.mul_comm; apply Nat.Div0.mod_mul).
  cbn [Nat.eqb Nat.mul Nat.add orb negb].
  rewrite blocks_of_bytes_of_blocks.
  rewrite cbc_decrypt_other_iv by apply decrypt_block_encrypt_block.
  assert (Hd : length (xor_bytes iv iv') = 16%nat)
    by (now rewrite xor_bytes_length).
  replace (bytes_of_blocks
             (xor_block p (xor_block (block_of_bytes iv) (block_of_bytes iv'))
              :: ps))
    with (xor_bytes (pad plain) (xor_bytes iv iv')).
  - rewrite pad_xor_bytes by lia. now rewrite unpad_pad.
  - rewrite <- Hflat at 1. cbn [bytes_of_blocks flat_map].
    rewrite xor_bytes_app by (rewrite bytes_of_block_length; lia).
    f_equal. rewrite !bytes_of_block_xor.
    now rewrite !bytes_of_block_of_bytes.
Qed.

(** The CBC-AES256 example of NIST SP 800-38A, F.2.5, followed by the
    padding block that the cipher object adds. *)
Example sp800_38a_f25 :
  cipher_run aes256
    (hex_decode
       (js ("603deb1015ca71be2b73aef0857d7781"
            ++ "1f352c073b6108d72d9810a30914dff4")))
    (hex_decode (js "000102030405060708090a0b0c0d0e0f"))
    (hex_decode
       (js ("6bc1bee22e409f96e93d7e117393172a"
            ++ "ae2d8a571e03ac9c9eb76fac45af8e51"
            ++ "30c81c46a35ce411e5fbc1191a0a52ef"
            ++ "f69f2445df4f9b17ad2b417be66c3710")))
  = Ok (hex_decode
          (js ("f58c4c04d6e5f1ba779eabfb5f7bfbd6"
               ++ "9cfc4e967edb808d679f777bc6702c7d"
               ++ "39f23369a9d9bacfa530e26304231461"
               ++ "b2eb05e2c39be9fcda6c19078c6a9d1b"
               ++ "3f461796d6b0d6b2e0c2a72b4d80e644"))).
Proof. vm_compute. reflexivity. Qed.

End CipherFacts.

(* ------------------------------------------------------------------ *)
(** ** [encrypt] and [decrypt]                                          *)
(* ------------------------------------------------------------------ *)

Module CryptoBoxFacts.
Import GF256 GF256Facts AES AESFacts Encoding EncodingFacts.
Import Cipher CipherFacts Plugin Scenario.

(** The key that [register] stores is 32 characters, hence 32 bytes. *)
Lemma key_bytes_of_store (st : store) (secretKeyBuf : buffer) :
  secretKey st = Some (hex_encode secretKeyBuf) ->
  length secretKeyBuf = 16%nat ->
  exists key, key_bytes st = Ok key /\ length key = 32%nat.
Proof.
  intros Hk Hl. unfold key_bytes. rewrite Hk. eexists. split; [reflexivity|].
  rewrite utf8_encode_length_seven_bit by apply hex_encode_seven_bit.
  rewrite hex_encode_length. lia.
Qed.

(** [decrypt] on a token made of two hex segments. *)
Lemma decrypt_token (st : store) (iv encrypted : buffer) :
  decrypt st (hex_encode iv ++ 58 :: hex_encode encrypted)
  = (let? key := key_bytes st in
     let? plain := decipher_run aes256 key iv encrypted in
     Ok (utf8_decode plain)).
Proof.
  unfold decrypt, encryptionOptions.
  cbn [algorithm inputEncoding outputEncoding]. rewrite split_token.
  cbn [lookup list_lookup buffer_from bytes_of toString rbind].
  now rewrite !hex_decode_encode.
Qed.

(** [encrypt] once the IV is there. *)
Lemma encrypt_with_iv (st : store) (iv : buffer) (s : jsstring) :
  encrypt st (Ok iv) s
  = (let? key := key_bytes st in
     let? encrypted := cipher_run aes256 key iv (utf8_encode s) in
     Ok (hex_encode iv ++ 58 :: hex_encode encrypted)).
Proof. reflexivity. Qed.

(** C1. For every string in which no surrogate stands alone, hence for
    every string over the alphabet of code verifiers, decrypting what
    [encrypt] returned under the key kept in the store gives the string
    back. *)
Theorem decrypt_encrypt_roundtrip
    (st : store) (secretKeyBuf iv : buffer) (s : jsstring) :
  secretKey st = Some (hex_encode secretKeyBuf) ->
  length secretKeyBuf = 16%nat ->
  length iv = 16%nat ->
  well_formed s ->
  exists token,
    encrypt st (Ok iv) s = Ok token /\ decrypt st token = Ok s.
Proof.
  intros Hk Hl Hi Hs.
  destruct (key_bytes_of_store st secretKeyBuf Hk Hl) as (key & Hkey & Hlen).
  destruct (decipher_run_cipher_run key iv (utf8_encode s) Hlen Hi)
    as (encrypted & Henc & Hdec).
  exists (hex_encode iv ++ 58 :: hex_encode encrypted). split.
  - rewrite encrypt_with_iv, Hkey. cbn [rbind]. rewrite Henc. reflexivity.
  - rewrite decrypt_token, Hkey. cbn [rbind]. rewrite Hdec. cbn [rbind].
    now rewrite utf8_roundtrip.
Qed.

Lemma decrypt_encrypt_roundtrip_witness :
  exists token,
    encrypt (w_store started) (Ok iv_buffer) verifier = Ok token
    /\ decrypt (w_store started) token = Ok verifier.
Proof.
  apply (decrypt_encrypt_roundtrip (w_store started) key_buffer iv_buffer
           verifier).
  - reflexivity.
  - reflexivity.
  - reflexivity.
  - apply seven_bit_well_formed. unfold seven_bit, verifier. cbn.
    repeat constructor.
Defined.

(** What [decrypt] does reject: a token without separator, an IV
    segment that is not 16 bytes, a ciphertext segment that is not a
    positive number of whole blocks. *)
Lemma decrypt_without_separator (st : store) (data : jsstring) :
  List.Forall (fun u => u <> 58) data ->
  exists e, decrypt st data = Throw e.
Proof.
  intros H. unfold decrypt, encryptionOptions.
  cbn [algorithm inputEncoding outputEncoding].
  rewrite (split_no_sep 58 data H).
  cbn [lookup list_lookup buffer_from rbind]. eauto.
Qed.

Lemma decrypt_malformed (st : store) (ivh cth : jsstring) :
  List.Forall (fun u => u <> 58) ivh ->
  List.Forall (fun u => u <> 58) cth ->
  length (hex_decode ivh) <> 16%nat
  \/ length (hex_decode cth) = 0%nat
  \/ (length (hex_decode cth) mod 16 <> 0)%nat ->
  exists e, decrypt st (ivh ++ 58 :: cth) = Throw e.
Proof.
  intros Hi Hc Hbad. unfold decrypt, encryptionOptions.
  cbn [algorithm inputEncoding outputEncoding].
  rewrite (split_at_sep 58 ivh cth Hi), (split_no_sep 58 cth Hc).
  cbn [lookup list_lookup buffer_from bytes_of rbind].
  destruct (key_bytes st) as [key|]; cbn [rbind]; [|eauto].
  unfold decipher_run, check_key_iv.
  destruct (Nat.eqb_spec (length (hex_decode ivh)) 16) as [E|E];
    cbn [negb rbind]; [|eauto].
  destruct (Nat.eqb_spec (length key) 32); cbn [negb rbind]; [|eauto].
  destruct Hbad as [Hbad | [Hbad | Hbad]]; [congruence| |].
  - rewrite Hbad. cbn. eauto.
  - destruct (Nat.eqb_spec (length (hex_decode cth) mod 16) 0);
      [congruence|].
    rewrite orb_true_r. eauto.
Qed.

(** C6, at a concrete token: the token that [encrypt] made for the
    verifier, with the last bit of its IV segment flipped, decrypts
    without error to another string. *)
Lemma modified_iv_not_detected :
  encrypt (w_store started) (Ok iv_buffer) verifier = Ok token
  /\ split 58 modified_token !! 0%nat <> split 58 token !! 0%nat
  /\ split 58 modified_token !! 1%nat = split 58 token !! 1%nat
  /\ decrypt (w_store started) modified_token
     = Ok (js "dBjftJeZ4CVP-mB82K27uhbUJU1p1r_wW1gFWFOEjXk")
  /\ js "dBjftJeZ4CVP-mB82K27uhbUJU1p1r_wW1gFWFOEjXk" <> verifier.
Proof.
  split; [vm_compute; reflexivity|].
  split; [vm_compute; discriminate|].
  split; [vm_compute; reflexivity|].
  split; [vm_compute; reflexivity|].
  vm_compute; discriminate.
Qed.

(** C6, as the code has it.  A token whose IV segment was replaced by
    another 16-byte IV is not rejected when the plaintext has at least 16
    bytes: [decrypt] returns the plaintext with its first 16 bytes XORed
    with the difference of the two IVs, bytes that are not those of the
    plaintext when the IVs differ. *)
Theorem decrypt_with_modified_iv
    (st : store) (secretKeyBuf iv iv' : buffer) (s : jsstring) :
  secretKey st = Some (hex_encode secretKeyBuf) ->
  length secretKeyBuf = 16%nat ->
  length iv = 16%nat ->
  length iv' = 16%nat ->
  (16 <= length (utf8_encode s))%nat ->
  (exists encrypted,
     encrypt st (Ok iv) s = Ok (hex_encode iv ++ 58 :: hex_encode encrypted)
     /\ decrypt st (hex_encode iv' ++ 58 :: hex_encode encrypted)
        = Ok (utf8_decode (xor_bytes (utf8_encode s) (xor_bytes iv iv'))))
  /\ (iv <> iv' ->
      xor_bytes (utf8_encode s) (xor_bytes iv iv') <> utf8_encode s).
Proof.
  intros Hk Hl Hi Hi' Hs. split.
  - destruct (key_bytes_of_store st secretKeyBuf Hk Hl)
      as (key & Hkey & Hlen).
    destruct (decipher_run_other_iv key iv iv' (utf8_encode s) Hlen Hi Hi' Hs)
      as (encrypted & Henc & Hdec).
    exists encrypted. split.
    + rewrite encrypt_with_iv, Hkey. cbn [rbind]. rewrite Henc. reflexivity.
    + rewrite decrypt_token, Hkey. cbn [rbind]. rewrite Hdec. reflexivity.
  - intros Hne. apply xor_bytes_differs; [congruence|exact Hne|lia].
Qed.

Lemma decrypt_with_modified_iv_witness :
  (exists encrypted,
     encrypt (w_store started) (Ok iv_buffer) verifier
     = Ok (hex_encode iv_buffer ++ 58 :: hex_encode encrypted)
     /\ decrypt (w_store started)
          (hex_encode (firstn 16 all_bytes) ++ 58 :: hex_encode encrypted)
        = Ok (utf8_decode
                (xor_bytes (utf8_encode verifier)
                   (xor_bytes iv_buffer (firstn 16 all_bytes)))))
  /\ (iv_buffer <> firstn 16 all_bytes ->
      xor_bytes (utf8_encode verifier)
        (xor_bytes iv_buffer (firstn 16 all_bytes))
      <> utf8_encode verifier).
Proof.
  apply (decrypt_with_modified_iv (w_store started) key_buffer iv_buffer
           (firstn 16 all_bytes) verifier).
  - reflexivity.
  - reflexivity.
  - reflexivity.
  - reflexivity.
  - vm_compute. lia.
Defined.

End CryptoBoxFacts.

(* ------------------------------------------------------------------ *)
(** ** [parseInt] and the username pattern                              *)
(* ------------------------------------------------------------------ *)

Module JsFacts.
Import Js.

(** Decide a boolean test on code units from the bounds in the context. *)
Ltac decide_tests :=
  repeat match goal with
         | |- context [?a <=? ?b] =>
             destruct (N.leb_spec a b); try lia
         | |- context [?a =? ?b] =>
             destruct (N.eqb_spec a b); try lia
         end.

Lemma digit_value_digit (u : N) : is_digit u -> digit_value u = Some (u - 48).
Proof. unfold is_digit, digit_value. intros H. now decide_tests. Qed.

Lemma digit_not_whitespace (u : N) : is_digit u -> is_whitespace u = false.
Proof. unfold is_digit, is_whitespace. intros H. now decide_tests. Qed.

(** After a first digit, [parse_digits] reads on to the first character
    that is not a digit. *)
Lemma parse_digits_prefix (digits rest : jsstring) :
  List.Forall is_digit digits ->
  match rest with [] => True | u :: _ => digit_value u = None end ->
  forall a : N,
    parse_digits (Some a) (digits ++ rest)
    = Some (fold_left (fun a u => 10 * a + (u - 48)) digits a).
Proof.
  intros Hd Hr. induction Hd as [|u digits Hu _ IH]; intros a.
  - cbn [app fold_left]. destruct rest as [|r rest]; [reflexivity|].
    cbn [parse_digits]. now rewrite Hr.
  - cbn [app parse_digits fold_left]. rewrite (digit_value_digit u Hu).
    apply IH.
Qed.

Lemma parseInt_prefix (digits rest : jsstring) :
  digits <> [] ->
  List.Forall is_digit digits ->
  match rest with [] => True | u :: _ => digit_value u = None end ->
  parseInt (digits ++ rest) = number_of false (decimal_value digits).
Proof.
  intros Hne Hd Hr. destruct digits as [|d digits]; [congruence|].
  pose proof (Forall_inv Hd) as Hd0.
  unfold parseInt. cbn [app trim_start].
  rewrite (digit_not_whitespace d Hd0).
  replace (d =? 45) with false
    by (symmetry; apply N.eqb_neq; unfold is_digit in Hd0; lia).
  replace (d =? 43) with false
    by (symmetry; apply N.eqb_neq; unfold is_digit in Hd0; lia).
  cbn [parse_digits]. rewrite (digit_value_digit d Hd0).
  rewrite (parse_digits_prefix digits rest (Forall_inv_tail Hd) Hr).
  unfold decimal_value. cbn [fold_left]. reflexivity.
Qed.

(** Below 2^53 nothing is rounded. *)
Lemma number_of_exact (n : N) :
  n < 2 ^ 53 -> number_of false n = JNum (Z.of_N n).
Proof.
  intros H. unfold number_of, round_to_double.
  replace (n <? 2 ^ 53) with true by (symmetry; now apply N.ltb_lt).
  assert (2 ^ 53 < 2 ^ 1024) by (apply N.pow_lt_mono_r; lia).
  replace (2 ^ 1024 <=? n) with false by (symmetry; apply N.leb_gt; lia).
  reflexivity.
Qed.

(** The characters that the pattern [[^a-z0-9._]] leaves alone. *)
Lemma allowed_in_username_spec (u : N) :
  allowed_in_username u = true
  <-> In u (js "abcdefghijklmnopqrstuvwxyz0123456789._").
Proof.
  unfold allowed_in_username. split.
  - intros H.
    assert (97 <= u <= 122 \/ 48 <= u <= 57 \/ u = 46 \/ u = 95) as Hu.
    { rewrite !orb_true_iff, !andb_true_iff, !N.leb_le, !N.eqb_eq in H. lia. }
    clear H. cbn. lia.
  - cbn. intros H.
    repeat (destruct H as [<-|H]; [reflexivity|]). destruct H.
Qed.



(** Property access on a plain object, and the printing of large
    Numbers. *)
Example get_own_first :
  get (<[js "constructor" := JNum 1]> ∅) (js "constructor") = Data (JNum 1).
Proof. reflexivity. Qed.

Example get_inherited :
  get ∅ (js "constructor") = Builtin (js "constructor")
  /\ get ∅ (js "__proto__") = ObjectPrototype
  /\ get ∅ (js "role") = Data JUndefined.
Proof. repeat split. Qed.

Example to_string_examples :
  to_string (Builtin (js "constructor"))
  = Ok (js "function Object() { [native code] }")
  /\ data_to_string (JObj [(js "a", JNum 1)]) = Ok (js "[object Object]")
  /\ data_to_string (JObj [(js "toString", JNum 1)])
     = Throw (TypeError "Cannot convert object to primitive value")
  /\ data_to_string (JArr [JNum 1; JNull; JStr (js "x")]) = Ok (js "1,,x")
  /\ data_to_string (JArr [JObj [(js "toString", JNum 1)]])
     = Throw (TypeError "Cannot convert object to primitive value").
Proof. repeat split. Qed.

Example number_to_string_examples :
  number_to_string 0 = js "0"
  /\ number_to_string (-42) = js "-42"
  /\ number_to_string (2 ^ 60) = js "1152921504606847000"
  /\ number_to_string (10 ^ 21) = js "1e+21"
  /\ number_to_string (2 ^ 70) = js "1.1805916207174113e+21"
  /\ parseInt (number_to_string (2 ^ 70)) = JNum 1.
Proof. vm_compute. repeat split. Qed.

End JsFacts.

(* ------------------------------------------------------------------ *)
(** ** The callback: attribute mapping                                  *)
(* ------------------------------------------------------------------ *)

Module CallbackFacts.
Import Encoding OpenId Plugin Scenario JsFacts.

Local Open Scope plugin_scope.

Arguments decrypt : simpl never.
Arguments map_identity : simpl never.
Arguments map_username : simpl never.
Arguments map_role : simpl never.
Arguments map_displayName : simpl never.
Arguments map_email : simpl never.
Arguments cookieName : simpl never.
Arguments js : simpl never.

(** Once the mapping step is reached, what is left of [handleCb] is the
    mapping and the hand-off. *)
Lemma handleCb_from_mapping (w : world) (env : callback_env) (req : request)
    (res : response) (f : nat) (settings userInfo : gmap jsstring jsvalue) :
  reaches_mapping w env req f settings userInfo ->
  handleCb env req res w
  = try_catch
      (identity <- lift (map_identity settings userInfo) ;;
       call_userAuthenticated f identity)
      (fun err =>
         logger LogError "Error in handle callback." (Some err) ;;
         onCBError res)
      (fst (logger LogDebug "Got userinfo from openid auth." None w)).
Proof.
  intros (Hf & c & u & cookie & v & params & ts & Hc & Hcookie & Hdec
          & Hparams & Hcb & Hui & Hset).
  destruct w as [st h lg rs]. cbn in Hf, Hc, Hdec, Hcb.
  unfold handleCb, bind, get_store. cbn. rewrite Hf, Hcookie.
  unfold try_catch, callback_steps, bind, get_store, lift. cbn.
  rewrite Hdec, Hc. cbn. rewrite Hparams, Hcb, Hui, Hset. cbn.
  destruct (map_identity settings userInfo); cbn; [|reflexivity].
  now rewrite Hf.
Qed.

Lemma handleCb_hands_over (w : world) (env : callback_env) (req : request)
    (res : response) (f : nat) (settings userInfo : gmap jsstring jsvalue)
    (i : identity) :
  reaches_mapping w env req f settings userInfo ->
  map_identity settings userInfo = Ok i ->
  handed_over w (fst (handleCb env req res w)) f i.
Proof.
  intros Hr Hi. rewrite (handleCb_from_mapping _ _ _ _ _ _ _ Hr).
  destruct w as [st h lg rs].
  unfold handed_over, try_catch, bind, lift. cbn. rewrite Hi. reflexivity.
Qed.

(** A mapping that completes has completed in each of its four parts. *)
Lemma map_identity_parts (settings userInfo : gmap jsstring jsvalue)
    (i : identity) :
  map_identity settings userInfo = Ok i ->
  map_role settings userInfo = Ok (role i)
  /\ map_displayName settings userInfo = Ok (displayName i)
  /\ map_username settings userInfo = Ok (username i)
  /\ map_email settings userInfo = Ok (email i).
Proof.
  unfold map_identity.
  destruct (map_role settings userInfo); [|discriminate].
  destruct (map_displayName settings userInfo); [|discriminate].
  destruct (map_username settings userInfo); [|discriminate].
  destruct (map_email settings userInfo); [|discriminate].
  cbn. intros H. injection H as <-. cbn. auto.
Qed.

(** A property name that is a string is its own key. *)
Lemma get_computed_string (o : gmap jsstring jsvalue) (k : jsstring) :
  Js.get_computed o (Data (JStr k)) = Ok (Js.get o k).
Proof. reflexivity. Qed.

(** The callback of the deployment gets as far as the mapping, whatever
    the settings and whatever the identity provider says about the
    user. *)
Lemma started_reaches_mapping_with
    (settings userInfo : gmap jsstring jsvalue) :
  reaches_mapping started (provider_configured settings userInfo)
    (with_cookie token) 0 settings userInfo.
Proof.
  split; [reflexivity|].
  exists {| client_issuer := idp;
            client_metadata :=
              {| client_id := Data (JStr (js "abc"));
                 redirect_uris :=
                   [JStr (js ("https://tube.example/plugins/"
                              ++ "auth-openid-connect/router/id-token-cb"))];
                 response_types := [js "code"];
                 client_secret := None;
                 token_endpoint_auth_method := Some (js "none") |} |}.
  exists 102, (List.tl token), verifier.
  exists (JObj [(js "code", JStr (js "c0de"))]).
  exists {| access_token := JStr (js "at") |}.
  repeat split; vm_compute; reflexivity.
Defined.

Lemma started_reaches_mapping (userInfo : gmap jsstring jsvalue) :
  reaches_mapping started (provider_answering userInfo) (with_cookie token) 0
    enabled_settings userInfo.
Proof. exact (started_reaches_mapping_with enabled_settings userInfo). Defined.

(** The text of a function of [Object.prototype] is not a number. *)
Lemma parseInt_builtin (key : jsstring) :
  Js.parseInt (js "function " ++ Js.builtin_name key
               ++ js "() { [native code] }") = JNaN.
Proof. reflexivity. Qed.



(** C4, as the claim has it, fails on its first case: with no role
    property configured the object handed to the host does have the field
    [role]; what it holds is [undefined]. *)
Lemma role_field_present_when_unset :
  Js.truthy (Js.get settings_without_role (js "role-property")) = false
  /\ exists i,
       handed_over started
         (fst (handleCb (provider_configured settings_without_role claims)
                 (with_cookie token) fine started)) 0 i
       /\ List.map fst (identity_object i)
          = [js "username"; js "email"; js "displayName"; js "role"]
       /\ In (js "role", Data JUndefined) (identity_object i).
Proof.
  split; [vm_compute; reflexivity|].
  eexists. split.
  - apply (handleCb_hands_over _ _ _ _ _ _ _ _
             (started_reaches_mapping_with settings_without_role claims)).
    vm_compute. reflexivity.
  - split; [reflexivity|]. cbn. auto.
Qed.

(** C4. The role handed to the host, when the callback reaches the
    mapping and the mapping completes: the field [role] is always there;
    it holds [undefined] when no role property is configured; 2 when the
    property is configured and names a claim whose value is the string
    ["2"]; NaN, passed on as it is, when the property is configured and
    there is no claim of that name. *)
Theorem role_mapping (w : world) (env : callback_env) (req : request)
    (res : response) (f : nat) (settings userInfo : gmap jsstring jsvalue)
    (i : identity) :
  reaches_mapping w env req f settings userInfo ->
  map_identity settings userInfo = Ok i ->
  handed_over w (fst (handleCb env req res w)) f i
  /\ In (js "role", Data (role i)) (identity_object i)
  /\ let p := Js.get settings (js "role-property") in
     (Js.truthy p = false -> role i = JUndefined)
     /\ (Js.truthy p = true ->
         Js.get_computed userInfo p = Ok (Data (JStr (js "2"))) ->
         role i = JNum 2)
     /\ (forall k, Js.truthy p = true ->
         Js.to_string p = Ok k ->
         userInfo !! k = None ->
         role i = JNaN).
Proof.
  intros Hr Hi.
  split; [apply (handleCb_hands_over _ _ _ _ _ _ _ _ Hr Hi)|].
  split; [cbn; auto|].
  destruct (map_identity_parts _ _ _ Hi) as (Hrole & _).
  cbn zeta. unfold map_role in Hrole. repeat split.
  - intros Hp. rewrite Hp in Hrole. congruence.
  - intros Hp Hv. rewrite Hp, Hv in Hrole.
    change (Ok (JNum 2) = Ok (role i)) in Hrole. congruence.
  - intros k Hp Hk Hnone. rewrite Hp in Hrole.
    unfold Js.get_computed in Hrole. rewrite Hk in Hrole. cbn [rbind] in Hrole.
    unfold Js.get in Hrole. rewrite Hnone in Hrole.
    destruct (bool_decide (k = js "__proto__")).
    { change (Ok JNaN = Ok (role i)) in Hrole. congruence. }
    destruct (existsb _ _).
    { unfold role_of in Hrole. cbn [Js.to_string rbind] in Hrole.
      rewrite parseInt_builtin in Hrole. congruence. }
    change (Ok JNaN = Ok (role i)) in Hrole. congruence.
Qed.

Lemma role_mapping_witness :
  (let i := {| username := js "_ohn._oe";
               email := Data (JStr (js "john@example.org"));
               displayName := Data JUndefined;
               role := JUndefined |} in
   handed_over started
     (fst (handleCb (provider_configured settings_without_role claims)
             (with_cookie token) fine started)) 0 i
   /\ In (js "role", Data (role i)) (identity_object i)
   /\ let p := Js.get settings_without_role (js "role-property") in
      (Js.truthy p = false -> role i = JUndefined)
      /\ (Js.truthy p = true ->
          Js.get_computed claims p = Ok (Data (JStr (js "2"))) ->
          role i = JNum 2)
      /\ (forall k, Js.truthy p = true ->
          Js.to_string p = Ok k ->
          claims !! k = None ->
          role i = JNaN))
  /\ (let i := {| username := js "_ohn._oe";
                  email := Data (JStr (js "john@example.org"));
                  displayName := Data JUndefined;
                  role := JNum 2 |} in
      handed_over started
        (fst (handleCb provider (with_cookie token) fine started)) 0 i
      /\ In (js "role", Data (role i)) (identity_object i)
      /\ let p := Js.get enabled_settings (js "role-property") in
         (Js.truthy p = false -> role i = JUndefined)
         /\ (Js.truthy p = true ->
             Js.get_computed claims p = Ok (Data (JStr (js "2"))) ->
             role i = JNum 2)
         /\ (forall k, Js.truthy p = true ->
             Js.to_string p = Ok k ->
             claims !! k = None ->
             role i = JNaN))
  /\ (let i := {| username := js "_ohn._oe";
                  email := Data (JStr (js "john@example.org"));
                  displayName := Data JUndefined;
                  role := JNaN |} in
      handed_over started
        (fst (handleCb (provider_answering claims_without_role)
                (with_cookie token) fine started)) 0 i
      /\ In (js "role", Data (role i)) (identity_object i)
      /\ let p := Js.get enabled_settings (js "role-property") in
         (Js.truthy p = false -> role i = JUndefined)
         /\ (Js.truthy p = true ->
             Js.get_computed claims_without_role p
             = Ok (Data (JStr (js "2"))) ->
             role i = JNum 2)
         /\ (forall k, Js.truthy p = true ->
             Js.to_string p = Ok k ->
             claims_without_role !! k = None ->
             role i = JNaN)).
Proof.
  split; [|split].
  - apply (role_mapping started
             (provider_configured settings_without_role claims)
             (with_cookie token) fine 0 settings_without_role claims).
    + exact (started_reaches_mapping_with settings_without_role claims).
    + vm_compute. reflexivity.
  - apply (role_mapping started provider (with_cookie token) fine 0
             enabled_settings claims).
    + exact (started_reaches_mapping claims).
    + vm_compute. reflexivity.
  - apply (role_mapping started (provider_answering claims_without_role)
             (with_cookie token) fine 0 enabled_settings claims_without_role).
    + exact (started_reaches_mapping claims_without_role).
    + vm_compute. reflexivity.
Defined.

(** C10. A role claim that starts with decimal digits and goes on with
    something else is mapped to the Number written by those digits, which
    is never NaN and is the exact integer below 2^53: ["2abc"] gives 2. *)
Theorem role_numeric_prefix (w : world) (env : callback_env) (req : request)
    (res : response) (f : nat) (settings userInfo : gmap jsstring jsvalue)
    (i : identity) (digits rest : jsstring) :
  reaches_mapping w env req f settings userInfo ->
  map_identity settings userInfo = Ok i ->
  Js.truthy (Js.get settings (js "role-property")) = true ->
  Js.get_computed userInfo (Js.get settings (js "role-property"))
  = Ok (Data (JStr (digits ++ rest))) ->
  digits <> [] ->
  List.Forall Js.is_digit digits ->
  match rest with [] => True | u :: _ => ~ Js.is_digit u end ->
  (handed_over w (fst (handleCb env req res w)) f i
   /\ role i = Js.number_of false (Js.decimal_value digits)
   /\ role i <> JNaN
   /\ (Js.decimal_value digits < 2 ^ 53 ->
       role i = JNum (Z.of_N (Js.decimal_value digits))))
  /\ Js.parseInt (js "2abc") = JNum 2.
Proof.
  intros Hr Hi Hp Hv Hne Hd Hrest. split; [|reflexivity].
  split; [apply (handleCb_hands_over _ _ _ _ _ _ _ _ Hr Hi)|].
  destruct (map_identity_parts _ _ _ Hi) as (Hrole & _).
  unfold map_role, role_of in Hrole. rewrite Hp, Hv in Hrole.
  cbn [rbind Js.to_string Js.data_to_string] in Hrole.
  injection Hrole as <-.
  assert (Hparse : Js.parseInt (digits ++ rest)
                   = Js.number_of false (Js.decimal_value digits)).
  { apply parseInt_prefix; [exact Hne|exact Hd|].
    destruct rest as [|u rest]; [exact I|].
    unfold Js.is_digit in Hrest. unfold Js.digit_value.
    destruct (N.leb_spec 48 u), (N.leb_spec u 57); cbn; try reflexivity.
    lia. }
  rewrite Hparse. split; [reflexivity|]. split.
  - unfold Js.number_of.
    destruct (2 ^ 1024 <=? Js.round_to_double (Js.decimal_value digits));
      discriminate.
  - apply number_of_exact.
Qed.

Lemma role_numeric_prefix_witness :
  (let i := {| username := js "_ohn._oe";
               email := Data (JStr (js "john@example.org"));
               displayName := Data JUndefined;
               role := JNum 2 |} in
   handed_over started
     (fst (handleCb (provider_answering (claims_with_role (js "2abc")))
             (with_cookie token) fine started)) 0 i
   /\ role i = Js.number_of false (Js.decimal_value (js "2"))
   /\ role i <> JNaN
   /\ (Js.decimal_value (js "2") < 2 ^ 53 ->
       role i = JNum (Z.of_N (Js.decimal_value (js "2")))))
  /\ Js.parseInt (js "2abc") = JNum 2.
Proof.
  apply (role_numeric_prefix started
           (provider_answering (claims_with_role (js "2abc")))
           (with_cookie token) fine 0 enabled_settings
           (claims_with_role (js "2abc"))
           {| username := js "_ohn._oe";
              email := Data (JStr (js "john@example.org"));
              displayName := Data JUndefined;
              role := JNum 2 |}
           (js "2") (js "abc")).
  - exact (started_reaches_mapping (claims_with_role (js "2abc"))).
  - vm_compute. reflexivity.
  - vm_compute. reflexivity.
  - vm_compute. reflexivity.
  - discriminate.
  - unfold js. cbn. constructor; [unfold Js.is_digit; lia|constructor].
  - unfold js. cbn. unfold Js.is_digit. lia.
Defined.

End CallbackFacts.

(* ------------------------------------------------------------------ *)
(** ** The error paths                                                  *)
(* ------------------------------------------------------------------ *)

Module ErrorPathFacts.
Import Encoding OpenId Plugin Scenario.

Local Open Scope plugin_scope.

Arguments decrypt : simpl never.
Arguments encrypt : simpl never.
Arguments authorizationUrl : simpl never.
Arguments cookieName : simpl never.
Arguments js : simpl never.

(** C5. A callback whose transport cookie is missing, or present but
    such that decryption fails, is answered by a redirect to
    [/login?externalAuthError=true] and by nothing else; nothing is handed
    to the host. *)
Theorem callback_without_usable_cookie (w : world) (env : callback_env)
    (req : request) (res : response) :
  redirect_throws res = None ->
  (cookies req !! cookieName = None
   \/ exists c e,
        cookies req !! cookieName = Some c
        /\ decrypt (w_store w) c = Throw e) ->
  let w' := fst (handleCb env req res w) in
  w_res w' = w_res w ++ [ResRedirect (js "/login?externalAuthError=true")]
  /\ accepted (w_host w') = accepted (w_host w).
Proof.
  intros Hres Hcookie. destruct w as [st h lg rs]. cbn in Hcookie.
  unfold handleCb, bind, get_store, onCBError, res_redirect. cbn.
  rewrite Hres.
  destruct (userAuthenticated st) as [f|]; [|cbn; auto].
  destruct Hcookie as [-> | (c & e & -> & Hdec)]; [cbn; auto|].
  destruct c as [|u c]; [cbn; auto|].
  unfold try_catch, callback_steps, bind, get_store, lift. cbn.
  rewrite Hdec. cbn. auto.
Qed.

Lemma callback_without_usable_cookie_witness :
  let w' := fst (handleCb provider (with_cookie damaged_token) fine started) in
  w_res w'
  = w_res started ++ [ResRedirect (js "/login?externalAuthError=true")]
  /\ accepted (w_host w') = accepted (w_host started).
Proof.
  apply (callback_without_usable_cookie started provider
           (with_cookie damaged_token) fine).
  - reflexivity.
  - right. exists damaged_token, (Error "bad decrypt").
    split; vm_compute; reflexivity.
Defined.

(** What the [try] block of [onAuthRequest] can have done when it ends:
    it touches neither the store, the host nor the log; if it completes,
    the response carries the cookie and then the redirect; if it throws,
    the response carries nothing new or the cookie alone. *)
Lemma auth_request_steps_effects (url : jsstring) (env : auth_env)
    (res : response) (w : world) :
  let w' := fst (auth_request_steps url env res w) in
  w_store w' = w_store w /\ w_host w' = w_host w /\ w_log w' = w_log w
  /\ match snd (auth_request_steps url env res w) with
     | Ok _ =>
         exists c challenge value options location,
           client (w_store w) = Some c
           /\ authorizationUrl c (authorization_request challenge)
              = Ok location
           /\ w_res w' = w_res w ++ [ResCookie cookieName value options;
                                     ResRedirect location]
     | Throw _ =>
         w_res w' = w_res w
         \/ exists value options,
              w_res w' = w_res w ++ [ResCookie cookieName value options]
     end.
Proof.
  destruct w as [st h lg rs].
  unfold auth_request_steps, bind, lift, get_store. cbn.
  destruct (codeVerifier_result env) as [v|]; cbn; [|auto].
  destruct (codeChallenge_result env v) as [ch|]; cbn; [|auto].
  destruct (client st) as [c|]; cbn; [|auto].
  destruct (authorizationUrl c (authorization_request ch)) as [loc|] eqn:Hloc;
    cbn; [|auto].
  destruct (encrypt st (randomBytes_result env) v) as [value|]; cbn; [|auto].
  unfold res_cookie, res_redirect.
  destruct (cookie_throws res); cbn; [auto|].
  destruct (redirect_throws res); cbn.
  - repeat split. right. eauto.
  - repeat split. exists c, ch, value. do 2 eexists.
    rewrite <- app_assoc. cbn. eauto.
Qed.

(** C7. When any of the steps of [onAuthRequest] throws, the error is
    logged and the client is sent neither a redirect nor anything else:
    at most the cookie has been put on the response, which is never
    completed. *)
Theorem auth_request_failure (url : jsstring) (env : auth_env)
    (res : response) (w : world) (e : js_error) :
  snd (auth_request_steps url env res w) = Throw e ->
  let w' := fst (onAuthRequest url env res w) in
  w_log w'
  = w_log w ++ [{| level := LogError;
                   message := "Cannot handle auth request.";
                   detail := Some e |}]
  /\ (forall location, In (ResRedirect location) (w_res w') ->
                       In (ResRedirect location) (w_res w))
  /\ (w_res w' = w_res w
      \/ exists value options,
           w_res w' = w_res w ++ [ResCookie cookieName value options])
  /\ snd (onAuthRequest url env res w) = Ok tt.
Proof.
  intros He.
  pose proof (auth_request_steps_effects url env res w) as H.
  cbn zeta in H. rewrite He in H. destruct H as (_ & _ & Hlog & Hres).
  unfold onAuthRequest, try_catch.
  destruct (auth_request_steps url env res w) as [w1 r]. cbn in *. subst r.
  unfold logger. cbn. rewrite Hlog.
  split; [reflexivity|]. split; [|split; [exact Hres|reflexivity]].
  intros location Hin. destruct Hres as [Hr | (value & options & Hr)];
    rewrite Hr in Hin; [exact Hin|].
  apply in_app_or in Hin. destruct Hin as [Hin | [Hin | []]];
    [exact Hin|discriminate].
Qed.

Lemma auth_request_failure_witness :
  let w' := fst (onAuthRequest (js "https://tube.example")
                   login_without_entropy fine started) in
  w_log w'
  = w_log started ++ [{| level := LogError;
                         message := "Cannot handle auth request.";
                         detail := Some (Error "entropy source failed") |}]
  /\ (forall location, In (ResRedirect location) (w_res w') ->
                       In (ResRedirect location) (w_res started))
  /\ (w_res w' = w_res started
      \/ exists value options,
           w_res w' = w_res started ++ [ResCookie cookieName value options])
  /\ snd (onAuthRequest (js "https://tube.example") login_without_entropy
            fine started) = Ok tt.
Proof.
  apply (auth_request_failure (js "https://tube.example")
           login_without_entropy fine started
           (Error "entropy source failed")).
  vm_compute. reflexivity.
Defined.

End ErrorPathFacts.

(* ------------------------------------------------------------------ *)
(** ** Configuration                                                    *)
(* ------------------------------------------------------------------ *)

Module ConfigFacts.
Import Encoding EncodingFacts Cipher CipherFacts OpenId Plugin Scenario.
Import CryptoBoxFacts ErrorPathFacts.

Local Open Scope plugin_scope.

Arguments encrypt : simpl never.
Arguments cookieName : simpl never.
Arguments js : simpl never.

Lemma contains_app_r (needle a b : jsstring) :
  Js.contains needle b -> Js.contains needle (a ++ b).
Proof.
  intros (p & q & ->). exists (a ++ p), q. now rewrite <- app_assoc.
Qed.

Lemma contains_app_l (needle a b : jsstring) :
  Js.contains needle a -> Js.contains needle (a ++ b).
Proof.
  intros (p & q & ->). exists p, (q ++ b). now rewrite <- !app_assoc.
Qed.

Lemma contains_cons (needle b : jsstring) (x : N) :
  Js.contains needle b -> Js.contains needle (x :: b).
Proof. apply (contains_app_r needle [x] b). Qed.

Lemma contains_refl (needle : jsstring) : Js.contains needle needle.
Proof. exists [], []. now rewrite app_nil_r. Qed.

(** ** The query string *)

Lemma escape_cons_inv (c : N) (s r : jsstring) :
  escape (c :: s) = Ok r ->
  exists a b, r = a ++ b /\ a <> [].
Proof.
  cbn [escape].
  destruct (c <? 128).
  { destruct (escape s) as [t|]; [|discriminate]. cbn.
    intros H. injection H as <-.
    destruct (unreserved c); eexists _, t; (split; [reflexivity|discriminate]). }
  destruct (c <? 2048).
  { destruct (escape s) as [t|]; [|discriminate]. cbn.
    intros H. injection H as <-.
    exists (percent (192 + c / 64)), (percent (128 + c mod 64) ++ t).
    split; [reflexivity|discriminate]. }
  destruct ((c <? 55296) || (57344 <=? c)).
  { destruct (escape s) as [t|]; [|discriminate]. cbn.
    intros H. injection H as <-.
    eexists (percent _), _. split; [reflexivity|discriminate]. }
  destruct s as [|d s]; [discriminate|].
  destruct (escape s) as [t|]; [|discriminate]. cbn.
  intros H. injection H as <-.
  eexists (percent _), _. split; [reflexivity|discriminate].
Qed.

(** A string in which every surrogate is one half of a pair is
    escapable. *)
Lemma escapable_well_formed_upto (n : nat) (s : jsstring) :
  (length s <= n)%nat -> well_formed s -> escapable s.
Proof.
  revert s. induction n as [|n IH]; intros s Hlen Hwf.
  { destruct s; [exists []; reflexivity|cbn in Hlen; lia]. }
  destruct s as [|c s]; [exists []; reflexivity|].
  cbn [well_formed] in Hwf. unfold escapable. cbn [escape].
  destruct (is_high_surrogate c) eqn:Hh.
  - unfold is_high_surrogate in Hh.
    apply andb_true_iff in Hh. destruct Hh as [H1 H2].
    apply N.leb_le in H1. apply N.ltb_lt in H2.
    replace (c <? 128) with false by (symmetry; apply N.ltb_ge; lia).
    replace (c <? 2048) with false by (symmetry; apply N.ltb_ge; lia).
    replace (c <? 55296) with false by (symmetry; apply N.ltb_ge; lia).
    replace (57344 <=? c) with false by (symmetry; apply N.leb_gt; lia).
    cbn [orb]. destruct s as [|d s]; [destruct Hwf|].
    destruct Hwf as [_ Hwf].
    destruct (IH s) as [r Hr]; [cbn in Hlen; lia|exact Hwf|].
    rewrite Hr. cbn. eauto.
  - destruct Hwf as (Hl & _ & Hwf).
    destruct (IH s) as [r Hr]; [cbn in Hlen; lia|exact Hwf|].
    rewrite Hr. cbn.
    destruct (c <? 128); [eauto|]. destruct (c <? 2048); [eauto|].
    assert (Hs : (c <? 55296) || (57344 <=? c) = true).
    { unfold is_high_surrogate in Hh. unfold is_low_surrogate in Hl.
      destruct (N.ltb_spec c 55296); [reflexivity|].
      destruct (N.leb_spec 57344 c); [reflexivity|]. exfalso.
      destruct (N.leb_spec 55296 c); [|lia].
      destruct (N.ltb_spec c 56320); [discriminate|].
      destruct (N.leb_spec 56320 c); [|lia].
      destruct (N.ltb_spec c 57344); [discriminate|lia]. }
    rewrite Hs. eauto.
Qed.

Lemma escapable_well_formed (s : jsstring) : well_formed s -> escapable s.
Proof. apply (escapable_well_formed_upto (length s)). lia. Qed.


(** An escaped string has no [#] in it, nor has a query string: the
    replacement of [#] that [url.format] makes in the query finds
    nothing. *)
Lemma upper_hex_digit_no_hash (n : N) : upper_hex_digit n = 35 -> False.
Proof. unfold upper_hex_digit. destruct (n <? 10); lia. Qed.

Lemma percent_no_hash (b : N) : ~ In 35 (percent b).
Proof.
  intros [H | [H | [H | []]]];
    [discriminate | exact (upper_hex_digit_no_hash _ H)
    | exact (upper_hex_digit_no_hash _ H)].
Qed.

Lemma escape_no_hash_upto (n : nat) (s r : jsstring) :
  (length s <= n)%nat -> escape s = Ok r -> ~ In 35 r.
Proof.
  revert s r. induction n as [|n IH]; intros s r Hlen.
  { destruct s; [|cbn in Hlen; lia]. intros H. injection H as <-. auto. }
  destruct s as [|c s]; [intros H; injection H as <-; auto|].
  cbn [escape].
  assert (Hs : forall t, escape s = Ok t -> ~ In 35 t)
    by (intros t; apply IH; cbn in Hlen; lia).
  destruct (c <? 128).
  { destruct (escape s) as [t|]; [|discriminate]. cbn [rbind].
    intros H. injection H as <-. intros Hin.
    apply in_app_or in Hin. destruct Hin as [Hin | Hin];
      [|exact (Hs t eq_refl Hin)].
    destruct (unreserved c) eqn:E.
    - destruct Hin as [-> | []]. discriminate.
    - exact (percent_no_hash _ Hin). }
  destruct (c <? 2048).
  { destruct (escape s) as [t|]; [|discriminate]. cbn [rbind].
    intros H. injection H as <-. intros Hin.
    repeat (destruct Hin as [Hin | Hin];
            [first [discriminate | exact (upper_hex_digit_no_hash _ Hin)]|]).
    exact (Hs t eq_refl Hin). }
  destruct ((c <? 55296) || (57344 <=? c)).
  { destruct (escape s) as [t|]; [|discriminate]. cbn [rbind].
    intros H. injection H as <-. intros Hin.
    repeat (destruct Hin as [Hin | Hin];
            [first [discriminate | exact (upper_hex_digit_no_hash _ Hin)]|]).
    exact (Hs t eq_refl Hin). }
  destruct s as [|d s]; [discriminate|].
  destruct (escape s) as [t|] eqn:Et; [|discriminate]. cbn [rbind].
  intros H. injection H as <-. intros Hin.
  repeat (destruct Hin as [Hin | Hin];
          [first [discriminate | exact (upper_hex_digit_no_hash _ Hin)]|]).
  revert Hin. apply (IH s t); [cbn in Hlen; lia|exact Et].
Qed.

Lemma escape_no_hash (s r : jsstring) : escape s = Ok r -> ~ In 35 r.
Proof. apply (escape_no_hash_upto (length s)). lia. Qed.

Lemma stringify_fields_no_hash (l : list (jsstring * jsstring))
    (s : jsstring) :
  stringify_fields l = Ok s -> ~ In 35 s.
Proof.
  revert s. induction l as [|[k v] l IH]; intros s Hs.
  { injection Hs as <-. auto. }
  cbn [stringify_fields] in Hs.
  destruct (escape k) as [ks|] eqn:Ek; [|discriminate].
  destruct (escape v) as [vs|] eqn:Ev; [|discriminate].
  cbn [rbind] in Hs.
  assert (Hpair : ~ In 35 (ks ++ 61 :: vs)).
  { intros Hin. apply in_app_or in Hin.
    destruct Hin as [Hin | [Hin | Hin]]; [|discriminate|].
    - exact (escape_no_hash _ _ Ek Hin).
    - exact (escape_no_hash _ _ Ev Hin). }
  destruct l as [|kv l]; [injection Hs as <-; exact Hpair|].
  destruct (stringify_fields (kv :: l)) as [r|] eqn:Er; [|discriminate].
  injection Hs as <-. intros Hin.
  replace (ks ++ 61 :: vs ++ 38 :: r) with ((ks ++ 61 :: vs) ++ 38 :: r)
    in Hin by (now rewrite <- app_assoc).
  apply in_app_or in Hin. destruct Hin as [Hin | [Hin | Hin]];
    [exact (Hpair Hin)|discriminate|exact (IH r eq_refl Hin)].
Qed.

(** [stringify] succeeds when every key and every value is escapable. *)
Lemma stringify_fields_ok (l : list (jsstring * jsstring)) :
  List.Forall (fun kv => escapable (fst kv) /\ escapable (snd kv)) l ->
  exists s, stringify_fields l = Ok s.
Proof.
  induction 1 as [|[k v] l [[ks Hk] [vs Hv]] _ [s IH]]; [exists []; reflexivity|].
  cbn [stringify_fields fst snd] in *. rewrite Hk, Hv. cbn [rbind].
  destruct l; [eauto|]. rewrite IH. cbn. eauto.
Qed.

(** Every pair of the query shows up in the query string. *)
Lemma stringify_fields_contains (k v ks vs s : jsstring)
    (l : list (jsstring * jsstring)) :
  stringify_fields l = Ok s ->
  In (k, v) l -> escape k = Ok ks -> escape v = Ok vs ->
  Js.contains (ks ++ 61 :: vs) s.
Proof.
  intros Hs Hin Hk Hv. revert s Hs.
  induction l as [|[k' v'] l IH]; intros s Hs; [destruct Hin|].
  cbn [stringify_fields] in Hs.
  destruct (escape k') as [ks'|] eqn:Ek; [|discriminate].
  destruct (escape v') as [vs'|] eqn:Ev; [|discriminate].
  cbn [rbind] in Hs. destruct Hin as [Heq | Hin].
  - injection Heq as -> ->. rewrite Hk in Ek. rewrite Hv in Ev.
    injection Ek as <-. injection Ev as <-.
    destruct l as [|? ?].
    + injection Hs as <-. apply contains_refl.
    + destruct (stringify_fields _) as [r|]; [|discriminate].
      injection Hs as <-.
      exists [], (38 :: r). cbn. now rewrite <- app_assoc.
  - destruct l as [|kv l]; [destruct Hin|].
    destruct (stringify_fields (kv :: l)) as [r|] eqn:Er; [|discriminate].
    injection Hs as <-.
    replace (ks' ++ 61 :: vs' ++ 38 :: r)
      with ((ks' ++ 61 :: vs') ++ 38 :: r)
      by (now rewrite <- app_assoc).
    apply contains_app_r, contains_cons, IH; [exact Hin|reflexivity].
Qed.

(** ** Object spread *)

Lemma assign_same {V : Type} (o : list (jsstring * V)) (k : jsstring)
    (v : V) :
  In (k, v) (assign o k v).
Proof.
  induction o as [|[k' v'] o IH]; cbn [assign]; [now left|].
  destruct (decide (k' = k)); [now left|now right].
Qed.

Lemma assign_other {V : Type} (o : list (jsstring * V)) (k k' : jsstring)
    (v v' : V) :
  k <> k' -> In (k, v) o -> In (k, v) (assign o k' v').
Proof.
  intros Hne. induction o as [|[k0 v0] o IH]; intros Hin; [destruct Hin|].
  cbn [assign]. destruct (decide (k0 = k')) as [->|].
  - destruct Hin as [Heq | Hin]; [congruence|now right].
  - destruct Hin as [Heq | Hin]; [now left|right; auto].
Qed.

(** What was in an object before a spread is in it after, under a key of
    the spread with the value of the spread, under another key as it
    was. *)
Lemma assign_inv {V : Type} (o : list (jsstring * V)) (k k' : jsstring)
    (v v' : V) :
  In (k, v) (assign o k' v') ->
  (k = k' /\ v = v') \/ In (k, v) o.
Proof.
  induction o as [|[k0 v0] o IH]; cbn [assign].
  - intros [H | []]. injection H as <- <-. now left.
  - destruct (decide (k0 = k')) as [->|].
    + intros [H | H]; [injection H as <- <-; now left|right; now right].
    + intros [H | H]; [right; now left|].
      destruct (IH H) as [?|?]; [now left|right; now right].
Qed.

Lemma spread_in {V : Type} (params o : list (jsstring * V)) (k : jsstring)
    (v : V) :
  NoDup (List.map fst params) ->
  In (k, v) params -> In (k, v) (spread o params).
Proof.
  unfold spread. revert o.
  induction params as [|[k1 v1] params IH]; intros o Hnd Hin;
    [destruct Hin|].
  cbn [fold_left fst snd]. cbn [List.map fst] in Hnd.
  apply NoDup_cons in Hnd. destruct Hnd as [Hfresh Hnd].
  destruct Hin as [Heq | Hin].
  - injection Heq as -> ->. clear IH.
    assert (H : In (k, v) (assign o k v)) by apply assign_same.
    revert H. generalize (assign o k v). clear o.
    induction params as [|[k2 v2] params IH]; intros o H; [exact H|].
    cbn [fold_left fst snd]. cbn [List.map fst] in Hfresh, Hnd.
    apply NoDup_cons in Hnd. destruct Hnd as [_ Hnd].
    apply IH; [|exact Hnd|].
    + intros Hk. apply Hfresh. now right.
    + apply assign_other; [|exact H].
      intros ->. apply Hfresh. now left.
  - apply IH; [exact Hnd|exact Hin].
Qed.

Lemma spread_inv {V : Type} (params o : list (jsstring * V)) (k : jsstring)
    (v : V) :
  In (k, v) (spread o params) -> In (k, v) params \/ In (k, v) o.
Proof.
  unfold spread. revert o.
  induction params as [|[k1 v1] params IH]; intros o H; [now right|].
  cbn [fold_left fst snd] in H. destruct (IH _ H) as [Hin | Hin].
  - left. now right.
  - destruct (assign_inv _ _ _ _ _ Hin) as [[-> ->] | Hin'].
    + left. now left.
    + now right.
Qed.

(** ** The parameters of the authorization request *)

(** The object that [authorizationUrl] builds from the client's defaults
    and the literal of lines 165-170: the scope of the literal replaces
    the default one, in its place. *)
Lemma spread_authorization_request (id type uri : member)
    (codeChallenge : jsstring) :
  spread [ (js "client_id", id);
           (js "scope", Data (JStr (js "openid")));
           (js "response_type", type);
           (js "redirect_uri", uri) ]
         (List.map (fun kv => (fst kv, Data (JStr (snd kv))))
                   (authorization_request codeChallenge))
  = [ (js "client_id", id);
      (js "scope", Data (JStr (js "openid email profile")));
      (js "response_type", type);
      (js "redirect_uri", uri);
      (js "response_mode", Data (JStr (js "form_post")));
      (js "code_challenge", Data (JStr codeChallenge));
      (js "code_challenge_method", Data (JStr (js "S256"))) ].
Proof. vm_compute. reflexivity. Qed.

Lemma strings_of_in (l : list (jsstring * member))
    (q : list (jsstring * jsstring)) (k v : jsstring) :
  strings_of l = Ok q -> In (k, Data (JStr v)) l -> In (k, v) q.
Proof.
  revert q. induction l as [|[k' m] l IH]; intros q Hq Hin; [destruct Hin|].
  cbn [strings_of] in Hq.
  destruct Hin as [Heq | Hin].
  - injection Heq as -> ->. cbn in Hq.
    destruct (strings_of l); [|discriminate]. injection Hq as <-. now left.
  - destruct m as [[]| |]; try (apply (IH q Hq Hin));
      cbn [rbind] in Hq;
      (destruct (Js.to_string _); [|discriminate]); cbn [rbind] in Hq;
      (destruct (strings_of l) as [q'|]; [|discriminate]);
      injection Hq as <-; right; apply (IH q' eq_refl Hin).
Qed.

Lemma strings_of_keys (l : list (jsstring * member))
    (q : list (jsstring * jsstring)) :
  strings_of l = Ok q ->
  NoDup (List.map fst l) -> NoDup (List.map fst q).
Proof.
  assert (Hsub : forall l q, strings_of l = Ok q ->
            forall k, In k (List.map fst q) -> In k (List.map fst l)).
  { clear. induction l as [|[k' m] l IH]; intros q Hq k Hk.
    - injection Hq as <-. destruct Hk.
    - cbn [strings_of] in Hq.
      destruct m as [[]| |]; try (right; apply (IH q Hq k Hk));
        cbn [rbind] in Hq;
        (destruct (Js.to_string _); [|discriminate]); cbn [rbind] in Hq;
        (destruct (strings_of l) as [q'|]; [|discriminate]);
        injection Hq as <-; (destruct Hk as [<- | Hk]; [now left|]);
        right; apply (IH q' eq_refl k Hk). }
  revert q. induction l as [|[k' m] l IH]; intros q Hq Hnd.
  - injection Hq as <-. constructor.
  - cbn [List.map fst] in Hnd. apply NoDup_cons in Hnd.
    destruct Hnd as [Hfresh Hnd]. cbn [strings_of] in Hq.
    destruct m as [[]| |]; try (apply (IH q Hq Hnd));
      cbn [rbind] in Hq;
      (destruct (Js.to_string _); [|discriminate]); cbn [rbind] in Hq;
      (destruct (strings_of l) as [q'|] eqn:Eq; [|discriminate]);
      injection Hq as <-; cbn [List.map fst]; apply NoDup_cons;
      (split; [intros Hk; apply Hfresh, list_elem_of_In, (Hsub l q' Eq),
                 list_elem_of_In, Hk
              |apply (IH q' eq_refl Hnd)]).
Qed.

(** The parameters of a request that goes through: the three that
    [onAuthRequest] fixes are among them, and no key occurs twice. *)
Lemma authorization_params_fixed (c : oidc_client) (challenge : jsstring)
    (q : list (jsstring * jsstring)) :
  authorization_params c (authorization_request challenge) = Ok q ->
  NoDup (List.map fst q)
  /\ In (js "scope", js "openid email profile") q
  /\ In (js "response_mode", js "form_post") q
  /\ In (js "code_challenge_method", js "S256") q.
Proof.
  unfold authorization_params. rewrite spread_authorization_request.
  intros Hq. split.
  - apply (strings_of_keys _ _ Hq).
    apply (bool_decide_unpack _). vm_compute. exact I.
  - repeat split; apply (strings_of_in _ _ _ _ Hq); cbn; auto 10.
Qed.

(** An authorization URL that was built carries the three parameters. *)
Lemma authorization_url_fixed (c : oidc_client) (challenge location : jsstring) :
  authorizationUrl c (authorization_request challenge) = Ok location ->
  Js.contains (js "code_challenge_method=S256") location
  /\ Js.contains (js "response_mode=form_post") location
  /\ Js.contains (js "scope=openid%20email%20profile") location.
Proof.
  unfold authorizationUrl.
  destruct (authorization_endpoint (client_issuer c)) as [[target|]|];
    try discriminate.
  cbn [rbind].
  destruct (authorization_params c (authorization_request challenge))
    as [q|] eqn:Hq; [|discriminate].
  cbn [rbind]. unfold stringify.
  destruct (stringify_fields _) as [search|] eqn:Hs; [|discriminate].
  cbn [rbind]. intros H. injection H as <-.
  destruct (authorization_params_fixed c challenge q Hq)
    as (Hnd & Hscope & Hmode & Hmethod).
  assert (Hin : forall k v, In (k, v) q ->
            In (k, v)
              (fields_of
                 (spread (url_query target)
                    (List.map (fun kv => (fst kv, (snd kv, []))) q)))).
  { intros k v Hkv. unfold fields_of. apply in_flat_map.
    exists (k, (v, [])). split; [|now left].
    apply spread_in.
    - rewrite List.map_map. cbn [fst]. exact Hnd.
    - apply in_map_iff. exists (k, v). auto. }
  assert (Hc : forall k v ks vs, In (k, v) q ->
            escape k = Ok ks -> escape v = Ok vs ->
            Js.contains (ks ++ 61 :: vs)
              (url_base target
               ++ match search with [] => [] | _ :: _ => 63 :: search end
               ++ url_hash target)).
  { intros k v ks vs Hkv Hk Hv.
    pose proof (stringify_fields_contains k v ks vs search _ Hs
                  (Hin k v Hkv) Hk Hv) as Hcont.
    destruct search as [|u search].
    - destruct Hcont as (p & r & Hp). destruct p, ks; discriminate.
    - apply contains_app_r, contains_app_l, contains_cons, Hcont. }
  repeat split.
  - apply (Hc _ _ (js "code_challenge_method") (js "S256") Hmethod);
      reflexivity.
  - apply (Hc _ _ (js "response_mode") (js "form_post") Hmode); reflexivity.
  - apply (Hc _ _ (js "scope") (js "openid%20email%20profile") Hscope);
      reflexivity.
Qed.

Ltac literal_escapable :=
  apply escapable_well_formed, seven_bit_well_formed;
  unfold seven_bit, js; cbn; repeat constructor.

(** Whether the parameters can be put into a query string. *)
Lemma authorization_url_built (c : oidc_client) (target : parsed_url)
    (id challenge : jsstring) (cb : option jsstring) :
  authorization_endpoint (client_issuer c) = Some (Ok target) ->
  client_id (client_metadata c) = Data (JStr id) ->
  redirect_uris (client_metadata c) = [value_of cb] ->
  response_types (client_metadata c) = [js "code"] ->
  List.Forall (fun kv => escapable (fst kv) /\ escapable (snd kv))
              (fields_of (url_query target)) ->
  escapable id ->
  (forall s, cb = Some s -> escapable s) ->
  escapable challenge ->
  exists location,
    authorizationUrl c (authorization_request challenge) = Ok location.
Proof.
  intros He Hid Hcb Htype Hq Hi Hs Hch.
  unfold authorizationUrl. rewrite He. cbn [rbind].
  unfold authorization_params. rewrite Hid, Hcb, Htype.
  cbn [only List.map]. rewrite spread_authorization_request.
  assert (Hok : forall q,
            List.Forall (fun kv => escapable (fst kv) /\ escapable (snd kv))
                        q ->
            exists location,
              (let? search :=
                 stringify
                   (spread (url_query target)
                      (List.map (fun kv => (fst kv, (snd kv, []))) q)) in
               Ok (url_base target
                   ++ match search with [] => [] | _ :: _ => 63 :: search end
                   ++ url_hash target)) = Ok location).
  { intros q Hall.
    destruct (stringify_fields_ok
                (fields_of
                   (spread (url_query target)
                      (List.map (fun kv => (fst kv, (snd kv, []))) q))))
      as [search Hsearch].
    - apply List.Forall_forall. intros [k v] Hin.
      unfold fields_of in Hin. apply in_flat_map in Hin.
      destruct Hin as ([k' [v' vs]] & Hin & Hkv).
      destruct (spread_inv _ _ _ _ Hin) as [Hp | Ho].
      + apply in_map_iff in Hp. destruct Hp as ([k0 v0] & Heq & Hp).
        cbn [fst snd] in Heq. injection Heq as -> -> <-.
        cbn [fst snd List.map] in Hkv. destruct Hkv as [<- | []].
        apply (proj1 (List.Forall_forall _ _) Hall _ Hp).
      + apply (proj1 (List.Forall_forall _ _) Hq).
        unfold fields_of. apply in_flat_map. eauto.
    - unfold stringify. rewrite Hsearch. cbn [rbind]. eauto. }
  destruct cb as [s|]; cbn [value_of strings_of Js.to_string
                            Js.data_to_string rbind].
  - apply Hok. specialize (Hs s eq_refl).
    repeat (constructor; [cbn [fst snd]; split;
             first [assumption | literal_escapable]|]).
    constructor.
  - apply Hok.
    repeat (constructor; [cbn [fst snd]; split;
             first [assumption | literal_escapable]|]).
    constructor.
Qed.

(** A login request all of whose steps go through. *)
Lemma auth_request_sends (url : jsstring) (env : auth_env) (res : response)
    (w : world) (c : oidc_client)
    (codeVerifier codeChallenge location value : jsstring) :
  client (w_store w) = Some c ->
  codeVerifier_result env = Ok codeVerifier ->
  codeChallenge_result env codeVerifier = Ok codeChallenge ->
  authorizationUrl c (authorization_request codeChallenge) = Ok location ->
  encrypt (w_store w) (randomBytes_result env) codeVerifier = Ok value ->
  cookie_throws res = None ->
  redirect_throws res = None ->
  onAuthRequest url env res w
  = ({| w_store := w_store w; w_host := w_host w; w_log := w_log w;
        w_res :=
          w_res w
          ++ [ResCookie cookieName value
                {| secure := Js.startsWith (js "https://") url;
                   httpOnly := true;
                   sameSite := js "none";
                   maxAge := 600000 |};
              ResRedirect location] |}, Ok tt).
Proof.
  intros Hc Hv Hch Hloc Henc Hcookie Hredirect.
  destruct w as [st h lg rs]. cbn in Hc, Henc.
  unfold onAuthRequest, try_catch, auth_request_steps, bind, lift, get_store,
    res_cookie, res_redirect, respond.
  cbn. rewrite Hv. cbn. rewrite Hch. cbn. rewrite Hc. cbn.
  rewrite Hloc. cbn. rewrite Henc. cbn. rewrite Hcookie. cbn.
  rewrite Hredirect. cbn. rewrite <- app_assoc. reflexivity.
Qed.

(** With the key that [register] stores and a 16-byte IV, [encrypt]
    returns a token that is not empty. *)
Lemma encrypt_succeeds (st : store) (secretKeyBuf iv : buffer)
    (data : jsstring) :
  secretKey st = Some (hex_encode secretKeyBuf) ->
  length secretKeyBuf = 16%nat ->
  length iv = 16%nat ->
  exists u value, encrypt st (Ok iv) data = Ok (u :: value).
Proof.
  intros Hk Hl Hi.
  destruct (key_bytes_of_store st secretKeyBuf Hk Hl) as (key & Hkey & Hlen).
  destruct (decipher_run_cipher_run key iv (utf8_encode data) Hlen Hi)
    as (encrypted & Henc & _).
  rewrite encrypt_with_iv, Hkey. cbn [rbind]. rewrite Henc. cbn [rbind].
  destruct iv as [|b iv]; [discriminate|]. cbn. eauto.
Qed.

(** A run of [loadSettingsAndCreateClient] in which both settings are
    there, the client id being a string, and discovery answers. *)
Lemma load_creates_client (env : config_env) (w : world)
    (settings : gmap jsstring jsvalue) (iss : issuer) (u : N)
    (id : jsstring) :
  getSettings env = Ok settings ->
  Js.truthy (Js.get settings (js "discover-url")) = true ->
  Js.get settings (js "client-id") = Data (JStr (u :: id)) ->
  discover env (Js.get settings (js "discover-url")) = Ok iss ->
  let secret := Js.get settings (js "client-secret") in
  let w1 := fst (loadSettingsAndCreateClient env w) in
  client (w_store w1)
  = Some
      {| client_issuer := iss;
         client_metadata :=
           {| client_id := Data (JStr (u :: id));
              redirect_uris := [value_of (redirectUrl (w_store w))];
              response_types := [js "code"];
              client_secret := if Js.truthy secret then Some secret else None;
              token_endpoint_auth_method :=
                if Js.truthy secret then None else Some (js "none") |} |}
  /\ secretKey (w_store w1) = secretKey (w_store w)
  /\ redirectUrl (w_store w1) = redirectUrl (w_store w)
  /\ w_res w1 = w_res w.
Proof.
  intros Hs Hd Hc Hi. destruct w as [st h lg rs].
  unfold loadSettingsAndCreateClient, reset_client, configure, create_client,
    bind, lift, get_store.
  cbn. destruct (client st); cbn; rewrite Hs; cbn; rewrite Hd, Hc; cbn;
    rewrite Hi; cbn; unfold new_client; cbn; auto.
Qed.

(** C9. With a discover URL, a client id that is a string and no client
    secret, the client is built with the token endpoint auth method
    ['none'] and no secret.  A login request that then meets working
    generators, 16 random bytes, the key of [register], an authorization
    endpoint that Node can parse and a response that can be written is
    answered by the cookie and a redirect to the authorization URL, which
    carries [code_challenge_method=S256], [response_mode=form_post] and
    the scope [openid email profile]; and whatever the login request
    meets, a redirect that is sent carries them. *)
Theorem public_client_authorization_url (env : config_env) (w : world)
    (settings : gmap jsstring jsvalue) (iss : issuer) (target : parsed_url)
    (u : N) (id : jsstring) (secretKeyBuf iv : buffer)
    (url codeVerifier codeChallenge : jsstring) (login : auth_env)
    (res : response) :
  getSettings env = Ok settings ->
  Js.truthy (Js.get settings (js "discover-url")) = true ->
  Js.get settings (js "client-id") = Data (JStr (u :: id)) ->
  Js.truthy (Js.get settings (js "client-secret")) = false ->
  discover env (Js.get settings (js "discover-url")) = Ok iss ->
  authorization_endpoint iss = Some (Ok target) ->
  List.Forall (fun kv => escapable (fst kv) /\ escapable (snd kv))
              (fields_of (url_query target)) ->
  escapable (u :: id) ->
  (forall s, redirectUrl (w_store w) = Some s -> escapable s) ->
  secretKey (w_store w) = Some (hex_encode secretKeyBuf) ->
  length secretKeyBuf = 16%nat ->
  codeVerifier_result login = Ok codeVerifier ->
  codeChallenge_result login codeVerifier = Ok codeChallenge ->
  escapable codeChallenge ->
  randomBytes_result login = Ok iv ->
  length iv = 16%nat ->
  cookie_throws res = None ->
  redirect_throws res = None ->
  let w1 := fst (loadSettingsAndCreateClient env w) in
  (exists c,
     client (w_store w1) = Some c
     /\ token_endpoint_auth_method (client_metadata c) = Some (js "none")
     /\ client_secret (client_metadata c) = None)
  /\ (exists value options location,
        w_res (fst (onAuthRequest url login res w1))
        = w_res w1 ++ [ResCookie cookieName value options;
                       ResRedirect location]
        /\ Js.contains (js "code_challenge_method=S256") location
        /\ Js.contains (js "response_mode=form_post") location
        /\ Js.contains (js "scope=openid%20email%20profile") location)
  /\ forall (url' : jsstring) (login' : auth_env) (res' : response)
       (sent : list res_action) (location : jsstring),
       w_res (fst (onAuthRequest url' login' res' w1)) = w_res w1 ++ sent ->
       In (ResRedirect location) sent ->
       Js.contains (js "code_challenge_method=S256") location
       /\ Js.contains (js "response_mode=form_post") location
       /\ Js.contains (js "scope=openid%20email%20profile") location.
Proof.
  intros Hs Hd Hc Hsecret Hi He Hq Hid Hcb Hk Hl Hv Hch Hesc Hiv Hil
    Hcookie Hredirect. cbn zeta.
  destruct (load_creates_client env w settings iss u id Hs Hd Hc Hi)
    as (Hclient & Hkey & Hurl & _).
  cbn zeta in Hclient. rewrite Hsecret in Hclient.
  set (w1 := fst (loadSettingsAndCreateClient env w)) in *.
  split; [eexists; split; [exact Hclient|split; reflexivity]|]. split.
  - match type of Hclient with
    | _ = Some ?c =>
        destruct (authorization_url_built c target (u :: id) codeChallenge
                    (redirectUrl (w_store w)) He eq_refl eq_refl eq_refl
                    Hq Hid Hcb Hesc) as [location Hloc]
    end.
    rewrite <- Hkey in Hk.
    destruct (encrypt_succeeds _ secretKeyBuf iv codeVerifier Hk Hl Hil)
      as (v0 & value & Henc).
    rewrite <- Hiv in Henc.
    rewrite (auth_request_sends url login res w1 _ codeVerifier
               codeChallenge location (v0 :: value) Hclient Hv Hch Hloc
               Henc Hcookie Hredirect).
    cbn [fst w_res]. do 3 eexists. split; [reflexivity|].
    apply (authorization_url_fixed _ _ _ Hloc).
  - intros url' login' res' sent location Hsent Hin.
    pose proof (auth_request_steps_effects url' login' res' w1) as H.
    cbn zeta in H. destruct H as (_ & _ & _ & Hres).
    unfold onAuthRequest, try_catch in Hsent.
    destruct (auth_request_steps url' login' res' w1) as [w2 [[]|e]];
      cbn in Hres, Hsent.
    + destruct Hres
        as (c & challenge & value & options & loc & _ & Hloc & Hr).
      rewrite Hr in Hsent. apply app_inv_head in Hsent. subst sent.
      destruct Hin as [Hin | [Hin | []]]; [discriminate|].
      injection Hin as <-.
      apply (authorization_url_fixed c challenge loc Hloc).
    + exfalso. destruct Hres as [Hr | (value & options & Hr)];
        rewrite Hr in Hsent.
      * rewrite <- (app_nil_r (w_res w1)) in Hsent at 1.
        apply app_inv_head in Hsent. subst sent. destruct Hin.
      * apply app_inv_head in Hsent. subst sent.
        destruct Hin as [Hin | []]. discriminate.
Qed.

Lemma public_client_authorization_url_witness :
  let w1 := fst (loadSettingsAndCreateClient enabled started) in
  (exists c,
     client (w_store w1) = Some c
     /\ token_endpoint_auth_method (client_metadata c) = Some (js "none")
     /\ client_secret (client_metadata c) = None)
  /\ (exists value options location,
        w_res (fst (onAuthRequest (js "https://tube.example") login fine w1))
        = w_res w1 ++ [ResCookie cookieName value options;
                       ResRedirect location]
        /\ Js.contains (js "code_challenge_method=S256") location
        /\ Js.contains (js "response_mode=form_post") location
        /\ Js.contains (js "scope=openid%20email%20profile") location)
  /\ forall (url' : jsstring) (login' : auth_env) (res' : response)
       (sent : list res_action) (location : jsstring),
       w_res (fst (onAuthRequest url' login' res' w1)) = w_res w1 ++ sent ->
       In (ResRedirect location) sent ->
       Js.contains (js "code_challenge_method=S256") location
       /\ Js.contains (js "response_mode=form_post") location
       /\ Js.contains (js "scope=openid%20email%20profile") location.
Proof.
  apply (public_client_authorization_url enabled started enabled_settings
           idp
           {| url_base := js "https://idp.example/auth";
              url_query := []; url_hash := [] |}
           97 (js "bc") key_buffer iv_buffer (js "https://tube.example")
           verifier (js "E9Melhoa2OwvFrEMTJguCHaoeK1t8URWbuGJSstw-cM")
           login fine).
  - reflexivity.
  - vm_compute. reflexivity.
  - vm_compute. reflexivity.
  - vm_compute. reflexivity.
  - reflexivity.
  - reflexivity.
  - constructor.
  - literal_escapable.
  - intros s Hs. injection Hs as <-. literal_escapable.
  - reflexivity.
  - reflexivity.
  - reflexivity.
  - reflexivity.
  - literal_escapable.
  - reflexivity.
  - reflexivity.
  - reflexivity.
  - reflexivity.
Defined.

(** The deployment of [Scenario], in full: the cookie and the
    authorization URL that a login attempt produces. *)
Example login_redirect :
  w_res (fst (onAuthRequest (js "https://tube.example") login fine started))
  = [ ResCookie cookieName token
        {| secure := true; httpOnly := true; sameSite := js "none";
           maxAge := 600000 |};
      ResRedirect
        (js ("https://idp.example/auth?client_id=abc"
             ++ "&scope=openid%20email%20profile&response_type=code"
             ++ "&redirect_uri=https%3A%2F%2Ftube.example%2Fplugins"
             ++ "%2Fauth-openid-connect%2Frouter%2Fid-token-cb"
             ++ "&response_mode=form_post"
             ++ "&code_challenge=E9Melhoa2OwvFrEMTJguCHaoeK1t8URWbuGJSstw-cM"
             ++ "&code_challenge_method=S256")) ].
Proof. vm_compute. reflexivity. Qed.

(** An endpoint that comes with a query of its own keeps it, in front of
    the parameters of the request. *)
Example authorization_url_keeps_query :
  authorizationUrl
    {| client_issuer := idp_with_query;
       client_metadata :=
         {| client_id := Data (JStr (js "abc"));
            redirect_uris := [JStr (js "https://tube.example/cb")];
            response_types := [js "code"];
            client_secret := None;
            token_endpoint_auth_method := Some (js "none") |} |}
    (authorization_request (js "xyz"))
  = Ok (js ("https://login.example/?p=b2c&client_id=abc"
            ++ "&scope=openid%20email%20profile&response_type=code"
            ++ "&redirect_uri=https%3A%2F%2Ftube.example%2Fcb"
            ++ "&response_mode=form_post&code_challenge=xyz"
            ++ "&code_challenge_method=S256")).
Proof. vm_compute. reflexivity. Qed.

(** [reset_client] removes from the host only what is registered under
    the name ['openid']. *)
Lemma reset_client_registered (w : world) :
  registered (w_host (fst (reset_client w)))
  = match client (w_store w) with
    | Some _ =>
        List.filter
          (fun r => negb (bool_decide (authName r = js "openid")))
          (registered (w_host w))
    | None => registered (w_host w)
    end.
Proof.
  destruct w as [st h lg rs].
  unfold reset_client, bind, get_store. cbn.
  destruct (client st); reflexivity.
Qed.

(** A run that stops because the discover URL or the client id is not
    set leaves the host as [reset_client] left it. *)
Lemma load_without_settings_registered (env : config_env) (w : world)
    (settings : gmap jsstring jsvalue) :
  getSettings env = Ok settings ->
  Js.truthy (Js.get settings (js "discover-url")) = false
  \/ Js.truthy (Js.get settings (js "client-id")) = false ->
  registered (w_host (fst (loadSettingsAndCreateClient env w)))
  = registered (w_host (fst (reset_client w))).
Proof.
  intros Hs Hempty. destruct w as [st h lg rs].
  unfold loadSettingsAndCreateClient, reset_client, configure, bind, lift,
    get_store.
  cbn. destruct (client st); cbn; rewrite Hs; cbn;
    destruct Hempty as [-> | ->]; cbn;
    try destruct (Js.truthy (Js.get settings (js "discover-url")));
    reflexivity.
Qed.

(** Hence a method registered as ['openid-connect'] outlives every such
    run. *)
Lemma openid_connect_survives (env : config_env) (w : world)
    (settings : gmap jsstring jsvalue) (r : registration) :
  getSettings env = Ok settings ->
  Js.truthy (Js.get settings (js "discover-url")) = false
  \/ Js.truthy (Js.get settings (js "client-id")) = false ->
  In r (registered (w_host w)) ->
  authName r = js "openid-connect" ->
  In r (registered (w_host (fst (loadSettingsAndCreateClient env w)))).
Proof.
  intros Hs Hempty Hin Hname.
  rewrite (load_without_settings_registered env w settings Hs Hempty).
  rewrite reset_client_registered.
  destruct (client (w_store w)); [|exact Hin].
  apply filter_In. split; [exact Hin|].
  rewrite Hname. reflexivity.
Qed.

(** When nothing was registered before, nothing is registered after. *)
Lemma nothing_registered_stays (env : config_env) (w : world)
    (settings : gmap jsstring jsvalue) :
  getSettings env = Ok settings ->
  Js.truthy (Js.get settings (js "discover-url")) = false
  \/ Js.truthy (Js.get settings (js "client-id")) = false ->
  registered (w_host w) = [] ->
  registered (w_host (fst (loadSettingsAndCreateClient env w))) = [].
Proof.
  intros Hs Hempty Hnone.
  rewrite (load_without_settings_registered env w settings Hs Hempty).
  rewrite reset_client_registered, Hnone.
  now destruct (client (w_store w)).
Qed.

(** C2 does not hold of the code.  The instance has registered
    ['openid-connect']; the administrator empties the discover URL; after
    the reconfiguration the method is still registered with the host,
    while the store has neither client nor acceptor: line 111 unregisters
    the name ['openid'], line 158 had registered ['openid-connect']. *)
Theorem disabling_leaves_method_registered :
  registered_names started = [js "openid-connect"]
  /\ let w := fst (loadSettingsAndCreateClient disabled started) in
     registered_names w = [js "openid-connect"]
     /\ client (w_store w) = None
     /\ userAuthenticated (w_store w) = None.
Proof. vm_compute. repeat split. Qed.

(** Every run starts by dropping the client and the acceptor. *)
Lemma reset_client_store (w : world) :
  client (w_store (fst (reset_client w))) = None
  /\ userAuthenticated (w_store (fst (reset_client w))) = None.
Proof.
  destruct w as [st h lg rs].
  unfold reset_client, bind, get_store. cbn.
  destruct (client st); cbn; auto.
Qed.

(** Without an acceptor in the store every callback is turned away. *)
Lemma handleCb_without_acceptor (w : world) (env : callback_env)
    (req : request) (res : response) :
  userAuthenticated (w_store w) = None ->
  redirect_throws res = None ->
  w_res (fst (handleCb env req res w))
  = w_res w ++ [ResRedirect (js "/login?externalAuthError=true")]
  /\ accepted (w_host (fst (handleCb env req res w))) = accepted (w_host w).
Proof.
  intros Hf Hres. destruct w as [st h lg rs]. cbn in Hf.
  unfold handleCb, bind, get_store, onCBError, res_redirect. cbn.
  rewrite Hf, Hres. cbn. auto.
Qed.

(** A run never keeps the acceptor it found: it ends without one, or with
    the one of a registration made during the run. *)
Lemma load_acceptor_fresh (env : config_env) (w : world) :
  let w' := fst (loadSettingsAndCreateClient env w) in
  userAuthenticated (w_store w') = None
  \/ userAuthenticated (w_store w') = Some (next_handle (w_host w)).
Proof.
  destruct w as [st h lg rs].
  unfold loadSettingsAndCreateClient, reset_client, configure, create_client,
    registerExternalAuth, unregisterExternalAuth, bind, lift, get_store,
    get_host.
  cbn.
  destruct (client st); cbn;
    (destruct (getSettings env) as [settings|]; cbn; [|now left]);
    (destruct (Js.truthy (Js.get settings (js "discover-url")));
       cbn; [|now left]);
    (destruct (Js.truthy (Js.get settings (js "client-id")));
       cbn; [|now left]);
    (destruct (discover env (Js.get settings (js "discover-url")));
       cbn; [|now left]);
    (destruct (new_client _ _); cbn; [now right|now left]).
Qed.

(** C8 does not hold of the code.  Before any reconfiguration the
    callback of the deployment is accepted through acceptor 0.  (1) A reconfiguration
    with unchanged settings that has run up to its first [await] has
    already dropped the acceptor: the same callback is turned away.
    (2) A reconfiguration during which discovery fails leaves the
    acceptor dropped for good, with the method still registered.  (3) A
    reconfiguration that succeeds registers the method a second time and
    captures a new acceptor. *)
Theorem reconfiguration_drops_acceptor :
  let callback w := fst (handleCb provider (with_cookie token) fine w) in
  let turned_away w :=
    w_res (callback w) = [ResRedirect (js "/login?externalAuthError=true")]
    /\ accepted (w_host (callback w)) = [] in
  userAuthenticated (w_store started) = Some 0%nat
  /\ List.map fst (accepted (w_host (callback started))) = [0%nat]
  /\ (let w := fst (reset_client started) in
      userAuthenticated (w_store w) = None /\ turned_away w)
  /\ (let w := fst (onSettingsChange unreachable started) in
      userAuthenticated (w_store w) = None
      /\ registered_names w = [js "openid-connect"]
      /\ turned_away w)
  /\ (let w := fst (onSettingsChange enabled started) in
      userAuthenticated (w_store w) = Some 1%nat
      /\ registered_names w = [js "openid-connect"; js "openid-connect"]).
Proof. vm_compute. repeat split. Qed.

End ConfigFacts.

(* ------------------------------------------------------------------ *)
(** ** Tokens: what [encrypt] makes and what [decrypt] takes            *)
(* ------------------------------------------------------------------ *)

Module TokenFacts.
Import GF256 GF256Facts AES AESFacts Encoding EncodingFacts.
Import Cipher CipherFacts Plugin Scenario CryptoBoxFacts.

Lemma hex_byte_alphabet (b : byte) :
  List.Forall (fun u => In u (js "0123456789abcdef")) (hex_byte b).
Proof.
  assert (H : forallb (fun u => existsb (N.eqb u) (js "0123456789abcdef"))
                (hex_byte b) = true) by (destruct b; reflexivity).
  rewrite forallb_forall in H. apply List.Forall_forall. intros u Hu.
  specialize (H u Hu). apply existsb_exists in H.
  destruct H as (v & Hv & E). apply N.eqb_eq in E. now subst v.
Qed.

Lemma hex_encode_alphabet (bs : buffer) :
  List.Forall (fun u => In u (js "0123456789abcdef")) (hex_encode bs).
Proof.
  induction bs as [|b bs IH]; [constructor|].
  cbn [hex_encode flat_map]. apply Forall_app.
  split; [apply hex_byte_alphabet|exact IH].
Qed.

(** The ciphertext is the padded plaintext, block for block. *)
Lemma cipher_run_length (key iv plain encrypted : buffer) :
  cipher_run aes256 key iv plain = Ok encrypted ->
  length encrypted = (16 * (length plain / 16 + 1))%nat.
Proof.
  unfold cipher_run. destruct (check_key_iv key iv); [|discriminate].
  cbn [rbind]. intros H. injection H as <-.
  rewrite bytes_of_blocks_length, cbc_encrypt_length.
  rewrite (blocks_of_bytes_length _ _ (pad_whole_blocks plain)). lia.
Qed.

(** X1. With the key that [register] stores and a 16-byte IV, [encrypt]
    never fails; the token is the IV in hex, a colon and the ciphertext in
    hex; the ciphertext is one block longer than the whole blocks of the
    plaintext (one block for the empty string); and the token is written
    with the characters [0-9a-f:] only. *)
Theorem encrypt_token_shape
    (st : store) (secretKeyBuf iv : buffer) (data : jsstring) :
  secretKey st = Some (hex_encode secretKeyBuf) ->
  length secretKeyBuf = 16%nat ->
  length iv = 16%nat ->
  exists encrypted token,
    encrypt st (Ok iv) data = Ok token
    /\ token = hex_encode iv ++ 58 :: hex_encode encrypted
    /\ length encrypted
       = (16 * (length (utf8_encode data) / 16 + 1))%nat
    /\ length token
       = (65 + 32 * (length (utf8_encode data) / 16))%nat
    /\ List.Forall (fun u => In u (js "0123456789abcdef:")) token.
Proof.
  intros Hk Hl Hi.
  destruct (key_bytes_of_store st secretKeyBuf Hk Hl) as (key & Hkey & Hlen).
  destruct (decipher_run_cipher_run key iv (utf8_encode data) Hlen Hi)
    as (encrypted & Henc & _).
  pose proof (cipher_run_length _ _ _ _ Henc) as Hct.
  exists encrypted, (hex_encode iv ++ 58 :: hex_encode encrypted).
  split; [|split; [reflexivity|split; [exact Hct|split]]].
  - rewrite encrypt_with_iv, Hkey. cbn [rbind]. rewrite Henc. reflexivity.
  - rewrite length_app. cbn [length]. rewrite !hex_encode_length, Hct, Hi.
    lia.
  - assert (Hin : forall u, In u (js "0123456789abcdef") ->
                       In u (js "0123456789abcdef:")).
    { intros u Hu.
      change (js "0123456789abcdef:") with (js "0123456789abcdef" ++ [58]).
      apply in_or_app. now left. }
    apply Forall_app. split; [|constructor].
    + eapply List.Forall_impl; [exact Hin|apply hex_encode_alphabet].
    + change (js "0123456789abcdef:") with (js "0123456789abcdef" ++ [58]).
      apply in_or_app. right. now left.
    + eapply List.Forall_impl; [exact Hin|apply hex_encode_alphabet].
Qed.

Lemma encrypt_token_shape_witness :
  exists encrypted token,
    encrypt (w_store started) (Ok iv_buffer) [] = Ok token
    /\ token = hex_encode iv_buffer ++ 58 :: hex_encode encrypted
    /\ length encrypted = (16 * (length (utf8_encode []) / 16 + 1))%nat
    /\ length token = (65 + 32 * (length (utf8_encode []) / 16))%nat
    /\ List.Forall (fun u => In u (js "0123456789abcdef:")) token.
Proof.
  apply (encrypt_token_shape (w_store started) key_buffer iv_buffer []);
    reflexivity.
Defined.

(** X2. Before [register] has stored a key, [encrypt] and [decrypt] throw
    on every input. *)
Theorem no_key_no_token (st : store) :
  secretKey st = None ->
  (forall random data, exists e, encrypt st random data = Throw e)
  /\ (forall data, exists e, decrypt st data = Throw e).
Proof.
  intros Hk. split.
  - intros random data. unfold encrypt, key_bytes. rewrite Hk.
    destruct random; cbn; eauto.
  - intros data. unfold decrypt, key_bytes. rewrite Hk. cbn.
    destruct (split 58 data) as [|ivh [|cth more]]; cbn; eauto.
Qed.

Lemma no_key_no_token_witness :
  (forall random data,
      exists e, encrypt (w_store initial_world) random data = Throw e)
  /\ (forall data, exists e, decrypt (w_store initial_world) data = Throw e).
Proof. apply (no_key_no_token (w_store initial_world)). reflexivity. Defined.

Lemma forallb_eqb_repeat (x : byte) (l : buffer) :
  forallb (Byte.eqb x) l = true -> l = repeat x (length l).
Proof.
  induction l as [|y l IH]; [reflexivity|].
  cbn [forallb length repeat]. rewrite andb_true_iff. intros [E H].
  apply Byte.byte_dec_bl in E. subst y. f_equal. now apply IH.
Qed.

(** What [unpad] accepts is a body followed by [n] bytes of value [n]. *)
Lemma unpad_inversion (bs body : buffer) :
  unpad bs = Some body ->
  exists n, (1 <= n <= 16)%nat /\ bs = body ++ repeat (byte_of_nat n) n.
Proof.
  unfold unpad. set (n := Byte.to_nat (List.last bs x00)).
  destruct (Nat.leb 1 n && Nat.leb n 16 && Nat.leb n (length bs))%bool
    eqn:Hn; [|discriminate].
  rewrite !andb_true_iff, !Nat.leb_le in Hn. destruct Hn as [[H1 H16] Hlen].
  destruct (forallb _ _) eqn:Hall; [|discriminate].
  intros H. injection H as <-. exists n. split; [lia|].
  apply forallb_eqb_repeat in Hall. rewrite length_skipn in Hall.
  replace (length bs - (length bs - n))%nat with n in Hall by lia.
  rewrite <- Hall. symmetry. apply firstn_skipn.
Qed.

Lemma cbc_decrypt_length (D : block -> block) (cs : list block) :
  forall prev, length (cbc_decrypt D prev cs) = length cs.
Proof.
  induction cs as [|c cs IH]; intros prev; [reflexivity|].
  cbn [cbc_decrypt length]. f_equal. apply IH.
Qed.

(** X3. [decrypt] returns a string only for a token with at least two
    colon-separated segments, the first decoding to 16 bytes and the
    second to a positive number of whole 16-byte blocks, under a 32-byte
    key; the plaintext is then shorter than the ciphertext by 1 to 16
    bytes. *)
Theorem decrypt_accepts_only (st : store) (data s : jsstring) :
  decrypt st data = Ok s ->
  exists ivh cth more key plain,
    split 58 data = ivh :: cth :: more
    /\ key_bytes st = Ok key /\ length key = 32%nat
    /\ length (hex_decode ivh) = 16%nat
    /\ (0 < length (hex_decode cth))%nat
    /\ (length (hex_decode cth) mod 16 = 0)%nat
    /\ (length plain < length (hex_decode cth) <= length plain + 16)%nat
    /\ s = utf8_decode plain.
Proof.
  unfold decrypt, encryptionOptions.
  cbn [algorithm inputEncoding outputEncoding].
  destruct (split 58 data) as [|ivh [|cth more]];
    cbn [lookup list_lookup buffer_from bytes_of rbind]; try discriminate.
  destruct (key_bytes st) as [key|]; cbn [rbind]; [|discriminate].
  unfold decipher_run, check_key_iv.
  destruct (Nat.eqb_spec (length (hex_decode ivh)) 16) as [Hi|];
    cbn [negb rbind]; [|discriminate].
  destruct (Nat.eqb_spec (length key) 32) as [Hk|];
    cbn [negb rbind]; [|discriminate].
  destruct (Nat.eqb_spec (length (hex_decode cth)) 0) as [|H0];
    cbn [orb]; [discriminate|].
  destruct (Nat.eqb_spec (length (hex_decode cth) mod 16) 0) as [Hm|];
    cbn [negb]; [|discriminate].
  destruct (unpad _) as [plain|] eqn:Hu; [|discriminate].
  cbn [rbind toString]. intros H. injection H as <-.
  assert (Hb : (length plain < length (hex_decode cth)
                <= length plain + 16)%nat).
  { apply unpad_inversion in Hu. destruct Hu as (n & Hn & Hbs).
    apply (f_equal (@length byte)) in Hbs.
    rewrite bytes_of_blocks_length, length_app, repeat_length in Hbs.
    pose proof (Nat.div_mod_eq (length (hex_decode cth)) 16) as Hd.
    rewrite Hm, Nat.add_0_r in Hd.
    rewrite cbc_decrypt_length in Hbs.
    rewrite (blocks_of_bytes_length _ _ Hd) in Hbs. lia. }
  exists ivh, cth, more, key, plain.
  repeat match goal with |- _ /\ _ => split end;
    try assumption; try reflexivity; lia.
Qed.

Lemma decrypt_accepts_only_witness :
  exists ivh cth more key plain,
    split 58 token = ivh :: cth :: more
    /\ key_bytes (w_store started) = Ok key /\ length key = 32%nat
    /\ length (hex_decode ivh) = 16%nat
    /\ (0 < length (hex_decode cth))%nat
    /\ (length (hex_decode cth) mod 16 = 0)%nat
    /\ (length plain < length (hex_decode cth) <= length plain + 16)%nat
    /\ verifier = utf8_decode plain.
Proof.
  apply (decrypt_accepts_only (w_store started) token verifier).
  vm_compute. reflexivity.
Defined.

(** X4. [decrypt] looks at the first two segments only: whatever follows
    a second colon is ignored. *)
Theorem decrypt_ignores_further_segments
    (st : store) (ivh cth more : jsstring) :
  List.Forall (fun u => u <> 58) ivh ->
  List.Forall (fun u => u <> 58) cth ->
  decrypt st (ivh ++ 58 :: cth ++ 58 :: more) = decrypt st (ivh ++ 58 :: cth).
Proof.
  intros Hi Hc. unfold decrypt, encryptionOptions.
  cbn [algorithm inputEncoding outputEncoding].
  rewrite !(split_at_sep 58 ivh _ Hi), (split_at_sep 58 cth more Hc),
    (split_no_sep 58 cth Hc).
  reflexivity.
Qed.

Lemma decrypt_ignores_further_segments_witness :
  decrypt (w_store started) (token ++ 58 :: js "anything")
  = decrypt (w_store started) token.
Proof.
  apply (decrypt_ignores_further_segments (w_store started)
           (js "f0f1f2f3f4f5f6f7f8f9fafbfcfdfeff")
           (js ("46e85740a2afff759a6819ad5c64699f"
                ++ "18eb794f96aac092e8d1177647203242"
                ++ "767889b8dd0941a9743b86325a981b7d"))
           (js "anything")).
  - apply List.Forall_forall. intros u Hu E. subst u. vm_compute in Hu.
    intuition discriminate.
  - apply List.Forall_forall. intros u Hu E. subst u. vm_compute in Hu.
    intuition discriminate.
Defined.

End TokenFacts.

(* ------------------------------------------------------------------ *)
(** ** The callback, on every input                                     *)
(* ------------------------------------------------------------------ *)

Module CallbackOutcomes.
Import Encoding OpenId Plugin Scenario JsFacts CallbackFacts.

Local Open Scope plugin_scope.

(** What the [try] block of [handleCb] can have done when it ends: the
    store, the response and the host's registrations are as before; the
    log has at most the debug line more; the acceptor was called once if
    the block completed and not at all if it threw. *)
Lemma callback_steps_effects (env : callback_env) (cookie : jsstring)
    (w : world) :
  let w' := fst (callback_steps env cookie w) in
  w_store w' = w_store w /\ w_res w' = w_res w
  /\ registered (w_host w') = registered (w_host w)
  /\ next_handle (w_host w') = next_handle (w_host w)
  /\ (w_log w' = w_log w
      \/ w_log w' = w_log w ++ [{| level := LogDebug;
                                   message := "Got userinfo from openid auth.";
                                   detail := None |}])
  /\ match snd (callback_steps env cookie w) with
     | Ok _ =>
         exists f i,
           userAuthenticated (w_store w) = Some f
           /\ accepted (w_host w') = accepted (w_host w) ++ [(f, i)]
     | Throw _ => accepted (w_host w') = accepted (w_host w)
     end.
Proof.
  destruct w as [st h lg rs].
  unfold callback_steps, bind, lift, get_store. cbn.
  destruct (decrypt st cookie) as [v|]; cbn; [|auto 7].
  destruct (client st) as [c|]; cbn; [|auto 7].
  destruct (callbackParams env) as [params|]; cbn; [|auto 7].
  destruct (callback env (value_of (redirectUrl st)) params v) as [ts|];
    cbn; [|auto 7].
  destruct (userinfo env (access_token ts)) as [userInfo|]; cbn; [|auto 7].
  destruct (cb_getSettings env) as [settings|]; cbn; [|auto 7].
  destruct (map_identity settings userInfo) as [i|]; cbn; [|auto 7].
  destruct (userAuthenticated st) as [f|] eqn:Hf; cbn; [|auto 7].
  repeat split; auto. eauto.
Qed.

(** X5. Every callback ends in one of two ways, never both and never
    neither: an identity is handed to the host through the acceptor of
    the store and nothing is written to the response, or the client is
    redirected to [/login?externalAuthError=true] and nothing is handed
    over.  Either way the store and the host's registrations are left as
    they were and the handler returns normally. *)
Theorem handleCb_outcomes (env : callback_env) (req : request)
    (res : response) (w : world) :
  redirect_throws res = None ->
  let w' := fst (handleCb env req res w) in
  snd (handleCb env req res w) = Ok tt
  /\ w_store w' = w_store w
  /\ registered (w_host w') = registered (w_host w)
  /\ ((exists f i,
         userAuthenticated (w_store w) = Some f
         /\ accepted (w_host w') = accepted (w_host w) ++ [(f, i)]
         /\ w_res w' = w_res w)
      \/ (accepted (w_host w') = accepted (w_host w)
          /\ w_res w'
             = w_res w ++ [ResRedirect (js "/login?externalAuthError=true")])).
Proof.
  intros Hres. cbn zeta.
  unfold handleCb, bind, get_store, onCBError, res_redirect.
  rewrite Hres. cbn.
  destruct (userAuthenticated (w_store w)) as [f|] eqn:Hf;
    [|solve [destruct w; cbn in *; auto 6]].
  destruct (cookies req !! cookieName) as [[|u cookie]|];
    try solve [destruct w; cbn; auto 6].
  pose proof (callback_steps_effects env (u :: cookie) w) as H.
  cbn zeta in H. destruct H as (Hst & Hrs & Hreg & _ & _ & Hacc).
  unfold try_catch.
  destruct (callback_steps env (u :: cookie) w) as [w1 [[]|e]];
    cbn in Hst, Hrs, Hreg, Hacc |- *.
  - destruct Hacc as (f' & i & Hf' & Hacc). repeat split; auto.
    left. exists f', i. split; [congruence|auto].
  - unfold logger, respond, bind. cbn. rewrite Hrs. auto 6.
Qed.

Lemma handleCb_outcomes_witness :
  let w' := fst (handleCb provider (with_cookie token) fine started) in
  snd (handleCb provider (with_cookie token) fine started) = Ok tt
  /\ w_store w' = w_store started
  /\ registered (w_host w') = registered (w_host started)
  /\ ((exists f i,
         userAuthenticated (w_store started) = Some f
         /\ accepted (w_host w') = accepted (w_host started) ++ [(f, i)]
         /\ w_res w' = w_res started)
      \/ (accepted (w_host w') = accepted (w_host started)
          /\ w_res w'
             = w_res started
               ++ [ResRedirect (js "/login?externalAuthError=true")])).
Proof.
  apply (handleCb_outcomes provider (with_cookie token) fine started).
  reflexivity.
Defined.

(** X6. Whatever makes the [try] block of [handleCb] throw (decryption,
    the token exchange, the userinfo request, the settings store, a
    username that is not a string), the error goes to the log with its
    detail and the client gets the bare redirect. *)
Theorem handleCb_failure (env : callback_env) (req : request)
    (res : response) (w : world) (f : nat) (u : N) (cookie : jsstring)
    (e : js_error) :
  redirect_throws res = None ->
  userAuthenticated (w_store w) = Some f ->
  cookies req !! cookieName = Some (u :: cookie) ->
  snd (callback_steps env (u :: cookie) w) = Throw e ->
  let w' := fst (handleCb env req res w) in
  (exists before,
     w_log w' = w_log w ++ before
                ++ [{| level := LogError;
                       message := "Error in handle callback.";
                       detail := Some e |}]
     /\ List.Forall (fun l => level l = LogDebug) before)
  /\ w_res w' = w_res w ++ [ResRedirect (js "/login?externalAuthError=true")]
  /\ accepted (w_host w') = accepted (w_host w).
Proof.
  intros Hres Hf Hcookie He. cbn zeta.
  pose proof (callback_steps_effects env (u :: cookie) w) as H.
  cbn zeta in H. rewrite He in H.
  destruct H as (Hst & Hrs & _ & _ & Hlog & Hacc).
  unfold handleCb, bind, get_store, onCBError, res_redirect.
  rewrite Hres. cbn. rewrite Hf, Hcookie. unfold try_catch.
  destruct (callback_steps env (u :: cookie) w) as [w1 r].
  cbn in He, Hst, Hrs, Hlog, Hacc. subst r.
  unfold logger, respond, bind. cbn. rewrite Hrs, Hacc.
  split; [|auto].
  destruct Hlog as [-> | ->].
  - exists []. split; [reflexivity|constructor].
  - eexists [_]. rewrite <- app_assoc. split; [reflexivity|].
    constructor; [reflexivity|constructor].
Qed.

Lemma handleCb_failure_witness :
  let w' := fst (handleCb provider (with_cookie damaged_token) fine started) in
  (exists before,
     w_log w' = w_log started ++ before
                ++ [{| level := LogError;
                       message := "Error in handle callback.";
                       detail := Some (Error "bad decrypt") |}]
     /\ List.Forall (fun l => level l = LogDebug) before)
  /\ w_res w'
     = w_res started ++ [ResRedirect (js "/login?externalAuthError=true")]
  /\ accepted (w_host w') = accepted (w_host started).
Proof.
  apply (handleCb_failure provider (with_cookie damaged_token) fine started
           0 102 (List.tl damaged_token) (Error "bad decrypt"));
    vm_compute; reflexivity.
Defined.

(** X7. While no acceptor is in the store (before the first successful
    registration, and from the start of every reconfiguration), a
    callback is turned away whatever its cookie: an info line in the log,
    the error redirect to the client, nothing decrypted and nothing asked
    of the identity provider. *)
Theorem handleCb_before_registration (env : callback_env) (req : request)
    (res : response) (w : world) :
  redirect_throws res = None ->
  userAuthenticated (w_store w) = None ->
  handleCb env req res w
  = ({| w_store := w_store w;
        w_host := w_host w;
        w_log := w_log w
                 ++ [{| level := LogInfo;
                        message :=
                          "Received callback but cannot userAuthenticated function does not exist.";
                        detail := None |}];
        w_res := w_res w
                 ++ [ResRedirect (js "/login?externalAuthError=true")] |},
     Ok tt).
Proof.
  intros Hres Hf. destruct w as [st h lg rs]. cbn in Hf.
  unfold handleCb, bind, get_store, onCBError, res_redirect. cbn.
  rewrite Hf, Hres. reflexivity.
Qed.

Lemma handleCb_before_registration_witness :
  handleCb provider (with_cookie token) fine initial_world
  = ({| w_store := w_store initial_world;
        w_host := w_host initial_world;
        w_log := w_log initial_world
                 ++ [{| level := LogInfo;
                        message :=
                          "Received callback but cannot userAuthenticated function does not exist.";
                        detail := None |}];
        w_res := w_res initial_world
                 ++ [ResRedirect (js "/login?externalAuthError=true")] |},
     Ok tt).
Proof.
  apply (handleCb_before_registration provider (with_cookie token) fine
           initial_world); reflexivity.
Defined.

(** X8. A username claim that is there but is not a string (a number,
    [true], an array, an object, or a function that the claims object
    inherits) has no [replace] method: the callback ends on the error path
    and nothing is handed to the host. *)
Theorem username_not_a_string (w : world) (env : callback_env)
    (req : request) (res : response) (f : nat)
    (settings userInfo : gmap jsstring jsvalue) :
  redirect_throws res = None ->
  reaches_mapping w env req f settings userInfo ->
  (forall v,
     Js.get_computed userInfo (Js.get settings (js "username-property"))
     = Ok v ->
     Js.truthy v = true /\ forall s, v <> Data (JStr s)) ->
  let w' := fst (handleCb env req res w) in
  w_res w' = w_res w ++ [ResRedirect (js "/login?externalAuthError=true")]
  /\ accepted (w_host w') = accepted (w_host w).
Proof.
  intros Hres Hr Hv. cbn zeta.
  rewrite (handleCb_from_mapping _ _ _ _ _ _ _ Hr).
  assert (Hu : exists e, map_username settings userInfo = Throw e).
  { unfold map_username.
    destruct (Js.get_computed userInfo _) as [v|e]; [|eauto].
    destruct (Hv v eq_refl) as [Ht Hns]. cbn [rbind]. rewrite Ht.
    destruct v as [[]| |]; try (eexists; reflexivity).
    exfalso. now apply (Hns s). }
  assert (Hi : exists e, map_identity settings userInfo = Throw e).
  { destruct Hu as [e Hu]. unfold map_identity.
    destruct (map_role settings userInfo); [|eauto]. cbn [rbind].
    destruct (map_displayName settings userInfo); [|eauto]. cbn [rbind].
    rewrite Hu. eauto. }
  destruct Hi as [e Hi]. destruct w as [st h lg rs].
  unfold try_catch, bind, lift, logger, onCBError, res_redirect, respond.
  cbn. rewrite Hi, Hres. cbn. auto.
Qed.

Lemma username_not_a_string_witness :
  let w' :=
    fst (handleCb (provider_answering (claims_with_username_value (JNum 42)))
           (with_cookie token) fine started) in
  w_res w'
  = w_res started ++ [ResRedirect (js "/login?externalAuthError=true")]
  /\ accepted (w_host w') = accepted (w_host started).
Proof.
  apply (username_not_a_string started
           (provider_answering (claims_with_username_value (JNum 42)))
           (with_cookie token) fine 0 enabled_settings
           (claims_with_username_value (JNum 42))).
  - reflexivity.
  - exact (started_reaches_mapping (claims_with_username_value (JNum 42))).
  - intros v Hv. vm_compute in Hv. injection Hv as <-.
    split; [reflexivity|]. intros s. discriminate.
Defined.

(** X9. When the mapping completes, the e-mail address and the display
    name are handed over as the property access on the claims gave them,
    whatever they are: the e-mail is [userInfo[k]] for the key [k] that
    the mail property turns into; the display name is [undefined] when no
    display name property is configured and [userInfo[k]] for the key of
    that property otherwise.  The access is the one of a plain object: the
    own claim, else what [Object.prototype] has under the name, else
    [undefined]. *)
Theorem email_and_displayName_mapping (w : world) (env : callback_env)
    (req : request) (res : response) (f : nat)
    (settings userInfo : gmap jsstring jsvalue) (i : identity) :
  reaches_mapping w env req f settings userInfo ->
  map_identity settings userInfo = Ok i ->
  handed_over w (fst (handleCb env req res w)) f i
  /\ (exists k,
        Js.to_string (Js.get settings (js "mail-property")) = Ok k
        /\ email i = Js.get userInfo k)
  /\ (let p := Js.get settings (js "display-name-property") in
      if Js.truthy p
      then exists k, Js.to_string p = Ok k /\ displayName i = Js.get userInfo k
      else displayName i = Data JUndefined)
  /\ (forall k v, userInfo !! k = Some v -> Js.get userInfo k = Data v)
  /\ (forall k, userInfo !! k = None ->
        (k = js "__proto__" /\ Js.get userInfo k = ObjectPrototype)
        \/ (In k Js.object_prototype_functions
            /\ Js.get userInfo k = Builtin k)
        \/ (k <> js "__proto__" /\ ~ In k Js.object_prototype_functions
            /\ Js.get userInfo k = Data JUndefined)).
Proof.
  intros Hr Hi.
  split; [apply (handleCb_hands_over _ _ _ _ _ _ _ _ Hr Hi)|].
  destruct (map_identity_parts _ _ _ Hi) as (_ & Hd & _ & He).
  split; [|split; [|split]].
  - unfold map_email, Js.get_computed in He.
    destruct (Js.to_string _) as [k|]; [|discriminate].
    injection He as He. eauto.
  - cbn zeta. unfold map_displayName, Js.get_computed in Hd.
    destruct (Js.truthy _); [|congruence].
    destruct (Js.to_string _) as [k|]; [|discriminate].
    injection Hd as Hd. eauto.
  - intros k v Hk. unfold Js.get. now rewrite Hk.
  - intros k Hk. unfold Js.get. rewrite Hk.
    destruct (decide (k = js "__proto__")) as [->|Hne]; [left; auto|].
    rewrite (bool_decide_eq_false_2 _ Hne). right.
    destruct (existsb _ _) eqn:E.
    + left. split; [|reflexivity].
      apply existsb_exists in E. destruct E as (x & Hx & Hxk).
      apply bool_decide_eq_true_1 in Hxk. now subst x.
    + right. split; [exact Hne|]. split; [|reflexivity].
      intros Hin.
      assert (E' : existsb (fun name => bool_decide (name = k))
                     Js.object_prototype_functions = true).
      { apply existsb_exists. exists k. split; [exact Hin|].
        now apply bool_decide_eq_true_2. }
      congruence.
Qed.

Lemma email_and_displayName_mapping_witness :
  let i := {| username := js "_ohn._oe";
              email := Data (JStr (js "john@example.org"));
              displayName := Data JUndefined;
              role := JNum 2 |} in
  handed_over started
    (fst (handleCb provider (with_cookie token) fine started)) 0 i
  /\ (exists k,
        Js.to_string (Js.get enabled_settings (js "mail-property")) = Ok k
        /\ email i = Js.get claims k)
  /\ (let p := Js.get enabled_settings (js "display-name-property") in
      if Js.truthy p
      then exists k, Js.to_string p = Ok k /\ displayName i = Js.get claims k
      else displayName i = Data JUndefined)
  /\ (forall k v, claims !! k = Some v -> Js.get claims k = Data v)
  /\ (forall k, claims !! k = None ->
        (k = js "__proto__" /\ Js.get claims k = ObjectPrototype)
        \/ (In k Js.object_prototype_functions
            /\ Js.get claims k = Builtin k)
        \/ (k <> js "__proto__" /\ ~ In k Js.object_prototype_functions
            /\ Js.get claims k = Data JUndefined)).
Proof.
  apply (email_and_displayName_mapping started provider (with_cookie token)
           fine 0 enabled_settings claims).
  - exact (started_reaches_mapping claims).
  - vm_compute. reflexivity.
Defined.

(** X10. Whenever the username mapping yields a name, the name is written
    with lowercase letters, digits, dots and underscores only, and mapping
    it again would leave it as it is. *)
Theorem username_alphabet (settings userInfo : gmap jsstring jsvalue)
    (name : jsstring) :
  map_username settings userInfo = Ok name ->
  List.Forall
    (fun c => In c (js "abcdefghijklmnopqrstuvwxyz0123456789._")) name
  /\ Js.replace_disallowed name = name.
Proof.
  unfold map_username.
  destruct (Js.get_computed userInfo _) as [v|]; [|discriminate].
  cbn [rbind].
  destruct (if Js.truthy _ then _ else _) as [[| | | | | |s| |]| |];
    try discriminate.
  intros H. injection H as <-. clear. unfold Js.replace_disallowed.
  induction s as [|c s [IH1 IH2]]; [split; [constructor|reflexivity]|].
  cbn [List.map]. destruct (Js.allowed_in_username c) eqn:E.
  - split.
    + constructor; [now apply allowed_in_username_spec|exact IH1].
    + rewrite E. now f_equal.
  - split.
    + constructor; [|exact IH1]. apply allowed_in_username_spec.
      reflexivity.
    + replace (Js.allowed_in_username 95) with true by reflexivity.
      now f_equal.
Qed.

Lemma username_alphabet_witness :
  List.Forall
    (fun c => In c (js "abcdefghijklmnopqrstuvwxyz0123456789._"))
    (js "_ohn._oe")
  /\ Js.replace_disallowed (js "_ohn._oe") = js "_ohn._oe".
Proof.
  apply (username_alphabet enabled_settings claims (js "_ohn._oe")).
  vm_compute. reflexivity.
Defined.

End CallbackOutcomes.

(* ------------------------------------------------------------------ *)
(** ** The role, for every kind of claim                                *)
(* ------------------------------------------------------------------ *)

Module RoleFacts.
Import Js JsFacts.

Lemma digits_of_uint_digits (d : Decimal.uint) :
  List.Forall is_digit (digits_of_uint d).
Proof.
  induction d; cbn [digits_of_uint]; constructor;
    try assumption; unfold is_digit; lia.
Qed.

(** Reading the digits of a decimal numeral gives its value. *)
Lemma fold_digits_acc (d : Decimal.uint) :
  forall p : positive,
    fold_left (fun a u => 10 * a + (u - 48)) (digits_of_uint d) (N.pos p)
    = N.pos (Pos.of_uint_acc d p).
Proof.
  induction d; intros p; cbn [digits_of_uint fold_left Pos.of_uint_acc];
    try reflexivity;
    match goal with
    | |- fold_left _ _ ?a = _ =>
        match type of IHd with
        | forall q, _ = N.pos (Pos.of_uint_acc _ q) =>
            first [ change a with (N.pos (10 * p))
                  | replace a with (N.pos (Pos.add 1 (Pos.mul 10 p))) by lia
                  | replace a with (N.pos (Pos.add 2 (Pos.mul 10 p))) by lia
                  | replace a with (N.pos (Pos.add 3 (Pos.mul 10 p))) by lia
                  | replace a with (N.pos (Pos.add 4 (Pos.mul 10 p))) by lia
                  | replace a with (N.pos (Pos.add 5 (Pos.mul 10 p))) by lia
                  | replace a with (N.pos (Pos.add 6 (Pos.mul 10 p))) by lia
                  | replace a with (N.pos (Pos.add 7 (Pos.mul 10 p))) by lia
                  | replace a with (N.pos (Pos.add 8 (Pos.mul 10 p))) by lia
                  | replace a with (N.pos (Pos.add 9 (Pos.mul 10 p))) by lia ]
        end
    end; apply IHd.
Qed.

Lemma decimal_value_of_uint (d : Decimal.uint) :
  decimal_value (digits_of_uint d) = N.of_uint d.
Proof.
  unfold decimal_value, N.of_uint.
  induction d; cbn [digits_of_uint fold_left Pos.of_uint];
    try reflexivity; try exact IHd; apply (fold_digits_acc d).
Qed.

Lemma decimal_value_to_uint (n : N) :
  decimal_value (digits_of_uint (N.to_uint n)) = n.
Proof. rewrite decimal_value_of_uint. apply DecimalN.Unsigned.of_to. Qed.

Lemma digits_of_uint_nonempty (n : N) : digits_of_uint (N.to_uint n) <> [].
Proof.
  destruct n as [|p]; [discriminate|]. cbn [N.to_uint].
  pose proof (DecimalPos.Unsigned.to_uint_nonnil p) as H.
  destruct (Pos.to_uint p); [congruence|..]; discriminate.
Qed.

Lemma trim_start_app (ws t : jsstring) :
  List.Forall (fun u => is_whitespace u = true) ws ->
  match t with [] => True | u :: _ => is_whitespace u = false end ->
  trim_start (ws ++ t) = t.
Proof.
  intros Hws Ht. induction Hws as [|u ws Hu _ IH].
  - destruct t as [|u t]; [reflexivity|]. cbn. now rewrite Ht.
  - cbn [app trim_start]. now rewrite Hu.
Qed.

Lemma parse_digits_all (digits rest : jsstring) :
  digits <> [] ->
  List.Forall is_digit digits ->
  match rest with [] => True | u :: _ => ~ is_digit u end ->
  parse_digits None (digits ++ rest) = Some (decimal_value digits).
Proof.
  intros Hne Hd Hr. destruct digits as [|d digits]; [congruence|].
  cbn [app parse_digits]. rewrite (digit_value_digit d (Forall_inv Hd)).
  rewrite (parse_digits_prefix digits rest (Forall_inv_tail Hd)).
  - reflexivity.
  - destruct rest as [|u rest]; [exact I|]. unfold digit_value.
    unfold is_digit in Hr.
    destruct (N.leb_spec 48 u), (N.leb_spec u 57); cbn; try reflexivity.
    lia.
Qed.

(** [parseInt] after the white space, when no sign follows... *)
Lemma parseInt_unsigned (ws t : jsstring) :
  List.Forall (fun u => is_whitespace u = true) ws ->
  match t with
  | [] => True
  | u :: _ => is_whitespace u = false /\ u <> 45 /\ u <> 43
  end ->
  parseInt (ws ++ t)
  = match parse_digits None t with
    | Some n => number_of false n
    | None => JNaN
    end.
Proof.
  intros Hws Ht. unfold parseInt. destruct t as [|u r].
  - rewrite trim_start_app; [reflexivity|exact Hws|exact I].
  - destruct Ht as (Hw & H45 & H43).
    rewrite trim_start_app; [|exact Hws|exact Hw].
    apply N.eqb_neq in H45, H43. now rewrite H45, H43.
Qed.

(** ... and when one does. *)
Lemma parseInt_after_sign (ws r : jsstring) (negative : bool) :
  List.Forall (fun u => is_whitespace u = true) ws ->
  parseInt (ws ++ (if negative then 45 else 43) :: r)
  = match parse_digits None r with
    | Some n => number_of negative n
    | None => JNaN
    end.
Proof.
  intros Hws. unfold parseInt.
  rewrite trim_start_app; [|exact Hws|now destruct negative].
  now destruct negative.
Qed.

(** [parseInt] on white space, an optional sign, digits and a tail. *)
Lemma parseInt_signed (ws sign digits rest : jsstring) :
  List.Forall (fun u => is_whitespace u = true) ws ->
  sign = [] \/ sign = [43] \/ sign = [45] ->
  digits <> [] ->
  List.Forall is_digit digits ->
  match rest with [] => True | u :: _ => ~ is_digit u end ->
  parseInt (ws ++ sign ++ digits ++ rest)
  = number_of (negative_sign sign) (decimal_value digits).
Proof.
  intros Hws Hsign Hne Hd Hr.
  pose proof (parse_digits_all digits rest Hne Hd Hr) as Hp.
  destruct Hsign as [-> | [-> | ->]].
  - cbn [app]. rewrite parseInt_unsigned; [now rewrite Hp|exact Hws|].
    destruct digits as [|d digits]; [congruence|].
    pose proof (Forall_inv Hd) as Hd0. cbn [app].
    split; [now apply digit_not_whitespace|]. unfold is_digit in Hd0. lia.
  - apply (parseInt_after_sign ws (digits ++ rest) false) in Hws.
    cbn [app]. cbv beta iota in Hws. rewrite Hws. now rewrite Hp.
  - apply (parseInt_after_sign ws (digits ++ rest) true) in Hws.
    cbn [app]. cbv beta iota in Hws. rewrite Hws. now rewrite Hp.
Qed.

(** [parseInt] on white space followed by something that cannot start a
    number. *)
Lemma parseInt_not_a_number (ws t : jsstring) :
  List.Forall (fun u => is_whitespace u = true) ws ->
  match t with
  | [] => True
  | u :: t' =>
      is_whitespace u = false /\ ~ is_digit u
      /\ (u = 45 \/ u = 43 ->
          match t' with [] => True | u' :: _ => ~ is_digit u' end)
  end ->
  parseInt (ws ++ t) = JNaN.
Proof.
  intros Hws Ht.
  assert (Hnd : forall u, ~ is_digit u -> digit_value u = None).
  { intros u Hu. unfold digit_value. unfold is_digit in Hu.
    destruct (N.leb_spec 48 u), (N.leb_spec u 57); cbn; try reflexivity.
    lia. }
  destruct t as [|u t'].
  - now rewrite parseInt_unsigned.
  - destruct Ht as (Hw & Hu & Hs).
    destruct (N.eq_dec u 45) as [->|H45];
      [|destruct (N.eq_dec u 43) as [->|H43]].
    + rewrite (parseInt_after_sign ws t' true Hws).
      specialize (Hs (or_introl eq_refl)). destruct t' as [|u' t'];
        [reflexivity|]. cbn [parse_digits]. now rewrite (Hnd u' Hs).
    + rewrite (parseInt_after_sign ws t' false Hws).
      specialize (Hs (or_intror eq_refl)). destruct t' as [|u' t'];
        [reflexivity|]. cbn [parse_digits]. now rewrite (Hnd u' Hs).
    + rewrite parseInt_unsigned; [|exact Hws|auto].
      cbn [parse_digits]. now rewrite (Hnd u Hu).
Qed.

(** Printing an integer below 2^53 and parsing it back. *)
Lemma parseInt_number_to_string (z : Z) :
  (Z.abs z < 2 ^ 53)%Z ->
  parseInt (number_to_string z) = number_of (z <? 0)%Z (Z.abs_N z).
Proof.
  intros Hz. unfold number_to_string.
  assert (Hn : Z.abs_N z < 2 ^ 53) by lia.
  assert (Hr : round_to_double (Z.abs_N z) = Z.abs_N z).
  { unfold round_to_double.
    now replace (Z.abs_N z <? 2 ^ 53) with true
      by (symmetry; now apply N.ltb_lt). }
  rewrite Hr.
  replace (Z.abs_N z <? 2 ^ 53) with true by (symmetry; now apply N.ltb_lt).
  unfold decimal.
  set (digits := digits_of_uint (N.to_uint (Z.abs_N z))).
  assert (Hv : decimal_value digits = Z.abs_N z)
    by apply decimal_value_to_uint.
  rewrite <- Hv.
  destruct (z <? 0)%Z.
  - rewrite <- (app_nil_r digits) at 1.
    apply (parseInt_signed [] [45] digits []);
      [constructor|auto|apply digits_of_uint_nonempty
      |apply digits_of_uint_digits|exact I].
  - rewrite <- (app_nil_r digits) at 1.
    apply (parseInt_signed [] [] digits []);
      [constructor|auto|apply digits_of_uint_nonempty
      |apply digits_of_uint_digits|exact I].
Qed.

Lemma number_of_exact_signed (negative : bool) (n : N) :
  n < 2 ^ 53 ->
  number_of negative n = JNum (if negative then - Z.of_N n else Z.of_N n).
Proof.
  intros H. unfold number_of, round_to_double.
  replace (n <? 2 ^ 53) with true by (symmetry; now apply N.ltb_lt).
  assert (2 ^ 53 < 2 ^ 1024) by (apply N.pow_lt_mono_r; lia).
  replace (2 ^ 1024 <=? n) with false by (symmetry; apply N.leb_gt; lia).
  reflexivity.
Qed.

End RoleFacts.

Module RoleMapping.
Import Encoding OpenId Plugin Scenario JsFacts CallbackFacts RoleFacts.

Arguments map_identity : simpl never.
Arguments js : simpl never.

(** The role of a mapping that completes, when a role property is
    configured. *)
Lemma role_of_claim (settings userInfo : gmap jsstring jsvalue)
    (i : identity) (v : member) :
  map_identity settings userInfo = Ok i ->
  Js.truthy (Js.get settings (js "role-property")) = true ->
  Js.get_computed userInfo (Js.get settings (js "role-property")) = Ok v ->
  role_of v = Ok (role i).
Proof.
  intros Hi Hp Hv. destruct (map_identity_parts _ _ _ Hi) as (Hrole & _).
  unfold map_role in Hrole. now rewrite Hp, Hv in Hrole.
Qed.

(** X11. A role claim that is a JSON number with an integral value of
    magnitude below 2^53 is mapped to that number: it is printed in
    decimal and read back. *)
Theorem numeric_role_claim (w : world) (env : callback_env) (req : request)
    (res : response) (f : nat) (settings userInfo : gmap jsstring jsvalue)
    (i : identity) (z : Z) :
  reaches_mapping w env req f settings userInfo ->
  map_identity settings userInfo = Ok i ->
  Js.truthy (Js.get settings (js "role-property")) = true ->
  Js.get_computed userInfo (Js.get settings (js "role-property"))
  = Ok (Data (JNum z)) ->
  (Z.abs z < 2 ^ 53)%Z ->
  handed_over w (fst (handleCb env req res w)) f i /\ role i = JNum z.
Proof.
  intros Hr Hi Hp Hv Hz.
  split; [apply (handleCb_hands_over _ _ _ _ _ _ _ _ Hr Hi)|].
  pose proof (role_of_claim _ _ _ _ Hi Hp Hv) as Hrole.
  unfold role_of in Hrole. cbn [Js.to_string Js.data_to_string rbind] in Hrole.
  rewrite parseInt_number_to_string, number_of_exact_signed in Hrole by lia.
  injection Hrole as <-. f_equal. destruct (Z.ltb_spec z 0); lia.
Qed.

Lemma numeric_role_claim_witness :
  let i := {| username := js "_ohn._oe";
              email := Data (JStr (js "john@example.org"));
              displayName := Data JUndefined;
              role := JNum (-3) |} in
  handed_over started
    (fst (handleCb (provider_answering (claims_with_role_value (JNum (-3))))
            (with_cookie token) fine started)) 0 i
  /\ role i = JNum (-3).
Proof.
  apply (numeric_role_claim started
           (provider_answering (claims_with_role_value (JNum (-3))))
           (with_cookie token) fine 0 enabled_settings
           (claims_with_role_value (JNum (-3)))
           {| username := js "_ohn._oe";
              email := Data (JStr (js "john@example.org"));
              displayName := Data JUndefined;
              role := JNum (-3) |} (-3)%Z).
  - exact (started_reaches_mapping (claims_with_role_value (JNum (-3)))).
  - vm_compute. reflexivity.
  - vm_compute. reflexivity.
  - vm_compute. reflexivity.
  - vm_compute. reflexivity.
Defined.

(** X12. In a role claim that is a string, leading white space and one
    sign in front of the digits are accepted: the role is the Number
    written by the digits, negated after a minus sign; it is never NaN and
    it is the exact integer below 2^53. *)
Theorem signed_role_claim (w : world) (env : callback_env) (req : request)
    (res : response) (f : nat) (settings userInfo : gmap jsstring jsvalue)
    (i : identity) (ws sign digits rest : jsstring) :
  reaches_mapping w env req f settings userInfo ->
  map_identity settings userInfo = Ok i ->
  Js.truthy (Js.get settings (js "role-property")) = true ->
  Js.get_computed userInfo (Js.get settings (js "role-property"))
  = Ok (Data (JStr (ws ++ sign ++ digits ++ rest))) ->
  List.Forall (fun u => Js.is_whitespace u = true) ws ->
  sign = [] \/ sign = [43] \/ sign = [45] ->
  digits <> [] ->
  List.Forall Js.is_digit digits ->
  match rest with [] => True | u :: _ => ~ Js.is_digit u end ->
  handed_over w (fst (handleCb env req res w)) f i
  /\ role i = Js.number_of (Js.negative_sign sign) (Js.decimal_value digits)
  /\ role i <> JNaN
  /\ (Js.decimal_value digits < 2 ^ 53 ->
      role i = JNum (if Js.negative_sign sign
                     then - Z.of_N (Js.decimal_value digits)
                     else Z.of_N (Js.decimal_value digits))).
Proof.
  intros Hr Hi Hp Hv Hws Hsign Hne Hd Hrest.
  split; [apply (handleCb_hands_over _ _ _ _ _ _ _ _ Hr Hi)|].
  pose proof (role_of_claim _ _ _ _ Hi Hp Hv) as Hrole.
  unfold role_of in Hrole. cbn [Js.to_string Js.data_to_string rbind] in Hrole.
  rewrite (parseInt_signed ws sign digits rest Hws Hsign Hne Hd Hrest)
    in Hrole.
  injection Hrole as <-.
  split; [reflexivity|]. split.
  - unfold Js.number_of. destruct (2 ^ 1024 <=? _); discriminate.
  - apply number_of_exact_signed.
Qed.

Lemma signed_role_claim_witness :
  let i := {| username := js "_ohn._oe";
              email := Data (JStr (js "john@example.org"));
              displayName := Data JUndefined;
              role := JNum (-12) |} in
  handed_over started
    (fst (handleCb (provider_answering (claims_with_role (js " -12x")))
            (with_cookie token) fine started)) 0 i
  /\ role i = Js.number_of (Js.negative_sign (js "-"))
                (Js.decimal_value (js "12"))
  /\ role i <> JNaN
  /\ (Js.decimal_value (js "12") < 2 ^ 53 ->
      role i = JNum (if Js.negative_sign (js "-")
                     then - Z.of_N (Js.decimal_value (js "12"))
                     else Z.of_N (Js.decimal_value (js "12")))).
Proof.
  apply (signed_role_claim started
           (provider_answering (claims_with_role (js " -12x")))
           (with_cookie token) fine 0 enabled_settings
           (claims_with_role (js " -12x"))
           {| username := js "_ohn._oe";
              email := Data (JStr (js "john@example.org"));
              displayName := Data JUndefined;
              role := JNum (-12) |}
           (js " ") (js "-") (js "12") (js "x")).
  - exact (started_reaches_mapping (claims_with_role (js " -12x"))).
  - vm_compute. reflexivity.
  - vm_compute. reflexivity.
  - vm_compute. reflexivity.
  - unfold js. cbn. constructor; [reflexivity|constructor].
  - right. right. reflexivity.
  - discriminate.
  - unfold js. cbn.
    constructor; [unfold Js.is_digit; lia|].
    constructor; [unfold Js.is_digit; lia|constructor].
  - unfold js. cbn. unfold Js.is_digit. lia.
Defined.

(** X13. A role claim whose string form does not start, after white
    space and at most one sign, with a digit yields NaN, and the identity
    is handed over all the same.  That is the case of [null], [true] and
    [false], of a function that the claims object inherits, and of an
    object that has no property [toString] of its own; an object that has
    one cannot be turned into a string, the concatenation of line 224
    throws and nothing is handed over. *)
Theorem role_not_a_number (w : world) (env : callback_env) (req : request)
    (res : response) (f : nat) (settings userInfo : gmap jsstring jsvalue)
    (i : identity) (v : member) (ws t : jsstring) :
  reaches_mapping w env req f settings userInfo ->
  map_identity settings userInfo = Ok i ->
  Js.truthy (Js.get settings (js "role-property")) = true ->
  Js.get_computed userInfo (Js.get settings (js "role-property")) = Ok v ->
  Js.to_string v = Ok (ws ++ t) ->
  List.Forall (fun u => Js.is_whitespace u = true) ws ->
  match t with
  | [] => True
  | u :: t' =>
      Js.is_whitespace u = false /\ ~ Js.is_digit u
      /\ (u = 45 \/ u = 43 ->
          match t' with [] => True | u' :: _ => ~ Js.is_digit u' end)
  end ->
  (handed_over w (fst (handleCb env req res w)) f i /\ role i = JNaN)
  /\ role_of (Data JNull) = Ok JNaN
  /\ (forall b, role_of (Data (JBool b)) = Ok JNaN)
  /\ (forall key, role_of (Builtin key) = Ok JNaN)
  /\ role_of ObjectPrototype = Ok JNaN
  /\ (forall fields,
        role_of (Data (JObj fields))
        = if Js.has_own (js "toString") fields
          then Throw (TypeError "Cannot convert object to primitive value")
          else Ok JNaN)
  /\ (forall settings' userInfo' fields e,
        Js.truthy (Js.get settings' (js "role-property")) = true ->
        Js.get_computed userInfo' (Js.get settings' (js "role-property"))
        = Ok (Data (JObj fields)) ->
        Js.has_own (js "toString") fields = true ->
        map_identity settings' userInfo' <> Ok e).
Proof.
  intros Hr Hi Hp Hv Hs Hws Ht. split.
  - split; [apply (handleCb_hands_over _ _ _ _ _ _ _ _ Hr Hi)|].
    pose proof (role_of_claim _ _ _ _ Hi Hp Hv) as Hrole.
    unfold role_of in Hrole. rewrite Hs in Hrole. cbn [rbind] in Hrole.
    rewrite (parseInt_not_a_number ws t Hws Ht) in Hrole. congruence.
  - split; [reflexivity|]. split; [intros []; reflexivity|].
    split; [intros key; reflexivity|]. split; [reflexivity|]. split.
    + intros fields. unfold role_of. cbn [Js.to_string Js.data_to_string].
      destruct (Js.has_own _ _); reflexivity.
    + intros settings' userInfo' fields e Hp' Hv' Hown Hi'.
      pose proof (role_of_claim _ _ _ _ Hi' Hp' Hv') as Hrole.
      unfold role_of in Hrole.
      cbn [Js.to_string Js.data_to_string] in Hrole.
      rewrite Hown in Hrole. discriminate.
Qed.

Lemma role_not_a_number_witness :
  let i := {| username := js "_ohn._oe";
              email := Data (JStr (js "john@example.org"));
              displayName := Data JUndefined;
              role := JNaN |} in
  (handed_over started
     (fst (handleCb (provider_answering (claims_with_role (js "admin")))
             (with_cookie token) fine started)) 0 i
   /\ role i = JNaN)
  /\ role_of (Data JNull) = Ok JNaN
  /\ (forall b, role_of (Data (JBool b)) = Ok JNaN)
  /\ (forall key, role_of (Builtin key) = Ok JNaN)
  /\ role_of ObjectPrototype = Ok JNaN
  /\ (forall fields,
        role_of (Data (JObj fields))
        = if Js.has_own (js "toString") fields
          then Throw (TypeError "Cannot convert object to primitive value")
          else Ok JNaN)
  /\ (forall settings' userInfo' fields e,
        Js.truthy (Js.get settings' (js "role-property")) = true ->
        Js.get_computed userInfo' (Js.get settings' (js "role-property"))
        = Ok (Data (JObj fields)) ->
        Js.has_own (js "toString") fields = true ->
        map_identity settings' userInfo' <> Ok e).
Proof.
  apply (role_not_a_number started
           (provider_answering (claims_with_role (js "admin")))
           (with_cookie token) fine 0 enabled_settings
           (claims_with_role (js "admin"))
           {| username := js "_ohn._oe";
              email := Data (JStr (js "john@example.org"));
              displayName := Data JUndefined;
              role := JNaN |}
           (Data (JStr (js "admin"))) [] (js "admin")).
  - exact (started_reaches_mapping (claims_with_role (js "admin"))).
  - vm_compute. reflexivity.
  - vm_compute. reflexivity.
  - vm_compute. reflexivity.
  - reflexivity.
  - constructor.
  - unfold js. cbn. split; [reflexivity|].
    split; [unfold Js.is_digit; lia|]. intros [H|H]; discriminate.
Defined.

End RoleMapping.

(* ------------------------------------------------------------------ *)
(** ** Start-up, reconfiguration and the login request                  *)
(* ------------------------------------------------------------------ *)

Module LifecycleFacts.
Import Encoding EncodingFacts Cipher CipherFacts OpenId Plugin Scenario.
Import CryptoBoxFacts CallbackFacts ErrorPathFacts ConfigFacts.

Local Open Scope plugin_scope.

Arguments encrypt : simpl never.
Arguments decrypt : simpl never.
Arguments authorizationUrl : simpl never.
Arguments cookieName : simpl never.
Arguments js : simpl never.

(** A client that was built is the issuer and the options it was built
    from. *)
Lemma new_client_inv (iss : issuer) (metadata : client_options)
    (c : oidc_client) :
  new_client iss metadata = Ok c ->
  c = {| client_issuer := iss; client_metadata := metadata |}.
Proof.
  unfold new_client.
  destruct (client_id metadata) as [[| | | | | |[|u s]| |]| |];
    try discriminate.
  now intros H; injection H as <-.
Qed.

(** One run of [loadSettingsAndCreateClient], in every case. *)
Lemma load_effects (env : config_env) (w : world) :
  let w' := fst (loadSettingsAndCreateClient env w) in
  let kept :=
    match client (w_store w) with
    | Some _ =>
        List.filter (fun r => negb (bool_decide (authName r = js "openid")))
                    (registered (w_host w))
    | None => registered (w_host w)
    end in
  secretKey (w_store w') = secretKey (w_store w)
  /\ redirectUrl (w_store w') = redirectUrl (w_store w)
  /\ accepted (w_host w') = accepted (w_host w)
  /\ w_res w' = w_res w
  /\ ((client (w_store w') = None
       /\ userAuthenticated (w_store w') = None
       /\ registered (w_host w') = kept
       /\ next_handle (w_host w') = next_handle (w_host w))
      \/ (exists c,
            client (w_store w') = Some c
            /\ userAuthenticated (w_store w') = Some (next_handle (w_host w))
            /\ registered (w_host w')
               = kept ++ [openid_connect_registration env (w_host w)]
            /\ next_handle (w_host w') = S (next_handle (w_host w))
            /\ snd (loadSettingsAndCreateClient env w) = Ok tt
            /\ redirect_uris (client_metadata c)
               = [value_of (redirectUrl (w_store w))]
            /\ response_types (client_metadata c) = [js "code"]
            /\ ((client_secret (client_metadata c) = None
                 /\ token_endpoint_auth_method (client_metadata c)
                    = Some (js "none"))
                \/ (exists secret,
                      client_secret (client_metadata c) = Some secret
                      /\ Js.truthy secret = true
                      /\ token_endpoint_auth_method (client_metadata c)
                         = None)))).
Proof.
  destruct w as [st h lg rs].
  unfold loadSettingsAndCreateClient, reset_client, configure, create_client,
    registerExternalAuth, unregisterExternalAuth, openid_connect_registration,
    bind, lift, get_store, get_host.
  cbn.
  destruct (client st); cbn;
    (destruct (getSettings env) as [settings|]; cbn; [|auto 10]);
    (destruct (Js.truthy (Js.get settings (js "discover-url")));
       cbn; [|auto 10]);
    (destruct (Js.truthy (Js.get settings (js "client-id")));
       cbn; [|auto 10]);
    (destruct (discover env (Js.get settings (js "discover-url")));
       cbn; [|auto 10]);
    (destruct (new_client _ _) as [c|] eqn:Hnew; cbn; [|auto 10]);
    (apply new_client_inv in Hnew; subst c;
     do 4 (split; [reflexivity|]); right; eexists;
     do 7 (split; [reflexivity|]); cbn;
     destruct (Js.truthy (Js.get settings (js "client-secret")))
       eqn:E; [right; eauto|left; auto]).
Qed.

(** X14. What a run of [loadSettingsAndCreateClient] leaves behind, in
    every case: the secret key, the callback URL, the identities accepted
    so far and the responses are untouched; the store ends either with
    neither client nor acceptor and no new registration, or with both, the
    acceptor being the one of an ['openid-connect'] registration appended
    in this run; a client has a secret or the auth method ['none'], never
    both. *)
Theorem load_outcome (env : config_env) (w : world) :
  let w' := fst (loadSettingsAndCreateClient env w) in
  let kept :=
    match client (w_store w) with
    | Some _ =>
        List.filter (fun r => negb (bool_decide (authName r = js "openid")))
                    (registered (w_host w))
    | None => registered (w_host w)
    end in
  secretKey (w_store w') = secretKey (w_store w)
  /\ redirectUrl (w_store w') = redirectUrl (w_store w)
  /\ accepted (w_host w') = accepted (w_host w)
  /\ w_res w' = w_res w
  /\ ((client (w_store w') = None
       /\ userAuthenticated (w_store w') = None
       /\ registered (w_host w') = kept
       /\ next_handle (w_host w') = next_handle (w_host w))
      \/ (exists c,
            client (w_store w') = Some c
            /\ userAuthenticated (w_store w') = Some (next_handle (w_host w))
            /\ registered (w_host w')
               = kept ++ [openid_connect_registration env (w_host w)]
            /\ next_handle (w_host w') = S (next_handle (w_host w))
            /\ snd (loadSettingsAndCreateClient env w) = Ok tt
            /\ redirect_uris (client_metadata c)
               = [value_of (redirectUrl (w_store w))]
            /\ response_types (client_metadata c) = [js "code"]
            /\ ((client_secret (client_metadata c) = None
                 /\ token_endpoint_auth_method (client_metadata c)
                    = Some (js "none"))
                \/ (exists secret,
                      client_secret (client_metadata c) = Some secret
                      /\ Js.truthy secret = true
                      /\ token_endpoint_auth_method (client_metadata c)
                         = None)))).
Proof. exact (load_effects env w). Qed.

(** X15. When [loadSettingsAndCreateClient] rejects: when the settings
    cannot be read; when both settings are there and discovery fails; and
    when discovery has answered and the client id is not a string, which
    the constructor of the client refuses.  In every other case it
    resolves. *)
Theorem load_result (env : config_env) (w : world) :
  snd (loadSettingsAndCreateClient env w)
  = match getSettings env with
    | Throw e => Throw e
    | Ok settings =>
        let discoverUrl := Js.get settings (js "discover-url") in
        let clientId := Js.get settings (js "client-id") in
        if Js.truthy discoverUrl && Js.truthy clientId
        then match discover env discoverUrl with
             | Throw e => Throw e
             | Ok _ =>
                 match clientId with
                 | Data (JStr _) => Ok tt
                 | _ => Throw (TypeError "client_id is required")
                 end
             end
        else Ok tt
    end.
Proof.
  destruct w as [st h lg rs].
  unfold loadSettingsAndCreateClient, reset_client, configure, create_client,
    registerExternalAuth, unregisterExternalAuth, new_client, bind, lift,
    get_store, get_host.
  cbn.
  destruct (client st); cbn;
    (destruct (getSettings env) as [settings|]; cbn; [|reflexivity]);
    (destruct (Js.truthy (Js.get settings (js "discover-url")));
       cbn; [|reflexivity]);
    (destruct (Js.truthy (Js.get settings (js "client-id"))) eqn:Ht;
       cbn; [|reflexivity]);
    (destruct (discover env (Js.get settings (js "discover-url")));
       cbn; [|reflexivity]);
    (destruct (Js.get settings (js "client-id"))
       as [[| | | | | |[|u s]| |]| |]; cbn in Ht |- *;
     try discriminate; reflexivity).
Qed.


(** X17. With a discover URL, a client id that is a string and a client
    secret, the client is built as a confidential one: it carries the
    secret, no [token_endpoint_auth_method], the configured client id, the
    callback URL of the store as its only redirect URI and [code] as its
    only response type.  With a client id that is there but is not a
    string no client is built, whatever the secret. *)
Theorem confidential_client (env : config_env) (w : world)
    (settings : gmap jsstring jsvalue) (iss : issuer) (u : N)
    (id : jsstring) :
  getSettings env = Ok settings ->
  Js.truthy (Js.get settings (js "discover-url")) = true ->
  Js.get settings (js "client-id") = Data (JStr (u :: id)) ->
  Js.truthy (Js.get settings (js "client-secret")) = true ->
  discover env (Js.get settings (js "discover-url")) = Ok iss ->
  (exists c,
     client (w_store (fst (loadSettingsAndCreateClient env w))) = Some c
     /\ client_issuer c = iss
     /\ client_secret (client_metadata c)
        = Some (Js.get settings (js "client-secret"))
     /\ token_endpoint_auth_method (client_metadata c) = None
     /\ client_id (client_metadata c) = Data (JStr (u :: id))
     /\ redirect_uris (client_metadata c)
        = [value_of (redirectUrl (w_store w))]
     /\ response_types (client_metadata c) = [js "code"])
  /\ forall (env' : config_env) (settings' : gmap jsstring jsvalue),
       getSettings env' = Ok settings' ->
       Js.truthy (Js.get settings' (js "client-id")) = true ->
       (forall s, Js.get settings' (js "client-id") <> Data (JStr s)) ->
       client (w_store (fst (loadSettingsAndCreateClient env' w))) = None.
Proof.
  intros Hs Hd Hc Hsecret Hi. split.
  - destruct (load_creates_client env w settings iss u id Hs Hd Hc Hi)
      as (Hclient & _).
    cbn zeta in Hclient. rewrite Hsecret in Hclient.
    eexists. split; [exact Hclient|]. repeat split.
  - intros env' settings' Hs' Ht Hns.
    destruct w as [st h lg rs].
    unfold loadSettingsAndCreateClient, reset_client, configure,
      create_client, registerExternalAuth, unregisterExternalAuth,
      new_client, bind, lift, get_store, get_host.
    cbn. rewrite Hs'.
    destruct (client st); cbn;
      (destruct (Js.truthy (Js.get settings' (js "discover-url")));
         cbn; [|reflexivity]);
      rewrite Ht; cbn;
      (destruct (discover env' (Js.get settings' (js "discover-url")));
         cbn; [|reflexivity]);
      (destruct (Js.get settings' (js "client-id"))
         as [[| | | | | |[|u' s']| |]| |] eqn:E; cbn;
       try reflexivity; exfalso; now apply (Hns (u' :: s'))).
Qed.

Lemma confidential_client_witness :
  (exists c,
     client (w_store (fst (loadSettingsAndCreateClient confidential started)))
     = Some c
     /\ client_issuer c = idp
     /\ client_secret (client_metadata c)
        = Some (Js.get confidential_settings (js "client-secret"))
     /\ token_endpoint_auth_method (client_metadata c) = None
     /\ client_id (client_metadata c) = Data (JStr (js "abc"))
     /\ redirect_uris (client_metadata c)
        = [value_of (redirectUrl (w_store started))]
     /\ response_types (client_metadata c) = [js "code"])
  /\ forall (env' : config_env) (settings' : gmap jsstring jsvalue),
       getSettings env' = Ok settings' ->
       Js.truthy (Js.get settings' (js "client-id")) = true ->
       (forall s, Js.get settings' (js "client-id") <> Data (JStr s)) ->
       client (w_store (fst (loadSettingsAndCreateClient env' started)))
       = None.
Proof.
  apply (confidential_client confidential started confidential_settings idp
           97 (js "bc")); vm_compute; reflexivity.
Defined.

(** [register] up to the first configuration. *)
Lemma register_unfold (env : config_env) (secretKeyBuf : buffer) (w : world) :
  register env (Ok secretKeyBuf) w
  = loadSettingsAndCreateClient env
      {| w_store :=
           {| client := client (w_store w);
              userAuthenticated := userAuthenticated (w_store w);
              secretKey := Some (hex_encode secretKeyBuf);
              redirectUrl :=
                Some (getWebserverUrl env
                      ++ js "/plugins/auth-openid-connect/router/id-token-cb") |};
         w_host := w_host w; w_log := w_log w; w_res := w_res w |}.
Proof. destruct w as [st h lg rs]. reflexivity. Qed.

Lemma register_store (env : config_env) (secretKeyBuf : buffer) (w : world) :
  let w' := fst (register env (Ok secretKeyBuf) w) in
  secretKey (w_store w') = Some (hex_encode secretKeyBuf)
  /\ redirectUrl (w_store w')
     = Some (getWebserverUrl env
             ++ js "/plugins/auth-openid-connect/router/id-token-cb").
Proof.
  cbn zeta. rewrite register_unfold.
  match goal with
  | |- context [loadSettingsAndCreateClient env ?w0] =>
      destruct (load_effects env w0) as (Hk & Hu & _)
  end.
  rewrite Hk, Hu. auto.
Qed.

(** The round trip through [encrypt] and [decrypt], from the shape of
    the key. *)
Lemma token_roundtrip (st : store) (secretKeyBuf iv : buffer) (s : jsstring) :
  secretKey st = Some (hex_encode secretKeyBuf) ->
  length secretKeyBuf = 16%nat ->
  length iv = 16%nat ->
  well_formed s ->
  exists encrypted,
    encrypt st (Ok iv) s = Ok (hex_encode iv ++ 58 :: hex_encode encrypted)
    /\ decrypt st (hex_encode iv ++ 58 :: hex_encode encrypted) = Ok s.
Proof.
  intros Hk Hl Hi Hs.
  destruct (key_bytes_of_store st secretKeyBuf Hk Hl) as (key & Hkey & Hlen).
  destruct (decipher_run_cipher_run key iv (utf8_encode s) Hlen Hi)
    as (encrypted & Henc & Hdec).
  exists encrypted. split.
  - rewrite encrypt_with_iv, Hkey. cbn [rbind]. rewrite Henc. reflexivity.
  - rewrite decrypt_token, Hkey. cbn [rbind]. rewrite Hdec. cbn [rbind].
    now rewrite utf8_roundtrip.
Qed.

(** X18. After [register] has drawn its 16 random bytes, whatever the
    configuration then did: the store holds their 32 hex digits as key,
    which the cipher accepts as a 32-byte key; the callback URL is the
    host's URL followed by the router path; a client, if one was made, has
    that URL as its redirect URI; and every well-formed string goes
    through [encrypt] and [decrypt] unchanged. *)
Theorem register_key_and_callback_url (env : config_env)
    (secretKeyBuf : buffer) (w : world) :
  length secretKeyBuf = 16%nat ->
  let w' := fst (register env (Ok secretKeyBuf) w) in
  let url := getWebserverUrl env
             ++ js "/plugins/auth-openid-connect/router/id-token-cb" in
  secretKey (w_store w') = Some (hex_encode secretKeyBuf)
  /\ (exists key, key_bytes (w_store w') = Ok key /\ length key = 32%nat)
  /\ redirectUrl (w_store w') = Some url
  /\ (forall c, client (w_store w') = Some c ->
                redirect_uris (client_metadata c) = [JStr url])
  /\ (forall (iv : buffer) (data : jsstring),
        length iv = 16%nat -> well_formed data ->
        exists token,
          encrypt (w_store w') (Ok iv) data = Ok token
          /\ decrypt (w_store w') token = Ok data).
Proof.
  intros Hl. cbn zeta.
  destruct (register_store env secretKeyBuf w) as (Hk & Hu).
  split; [exact Hk|].
  split; [exact (key_bytes_of_store _ _ Hk Hl)|].
  split; [exact Hu|]. split.
  - intros c. rewrite register_unfold.
    match goal with
    | |- context [loadSettingsAndCreateClient env ?w0] =>
        destruct (load_effects env w0) as (_ & _ & _ & _ & H)
    end.
    cbn zeta in H. intros Hc.
    destruct H as [(Hn & _) | (c' & Hc' & _ & _ & _ & _ & Hr & _)].
    + congruence.
    + rewrite Hc in Hc'. injection Hc' as <-. exact Hr.
  - intros iv data Hi Hd.
    destruct (token_roundtrip _ secretKeyBuf iv data Hk Hl Hi Hd)
      as (encrypted & He & Hdec).
    eauto.
Qed.

Lemma register_key_and_callback_url_witness :
  let w' := fst (register enabled (Ok key_buffer) initial_world) in
  let url := getWebserverUrl enabled
             ++ js "/plugins/auth-openid-connect/router/id-token-cb" in
  secretKey (w_store w') = Some (hex_encode key_buffer)
  /\ (exists key, key_bytes (w_store w') = Ok key /\ length key = 32%nat)
  /\ redirectUrl (w_store w') = Some url
  /\ (forall c, client (w_store w') = Some c ->
                redirect_uris (client_metadata c) = [JStr url])
  /\ (forall (iv : buffer) (data : jsstring),
        length iv = 16%nat -> well_formed data ->
        exists token,
          encrypt (w_store w') (Ok iv) data = Ok token
          /\ decrypt (w_store w') token = Ok data).
Proof.
  apply (register_key_and_callback_url enabled key_buffer initial_world).
  reflexivity.
Defined.

(** X19. When [getRandomBytes] fails, [register] rejects with that error
    before anything is configured: the callback URL is set, the key is
    not touched, no login method is registered with the host and nothing
    is logged. *)
Theorem register_without_random_bytes (env : config_env) (e : js_error)
    (w : world) :
  let w' := fst (register env (Throw e) w) in
  snd (register env (Throw e) w) = Throw e
  /\ redirectUrl (w_store w')
     = Some (getWebserverUrl env
             ++ js "/plugins/auth-openid-connect/router/id-token-cb")
  /\ secretKey (w_store w') = secretKey (w_store w)
  /\ client (w_store w') = client (w_store w)
  /\ userAuthenticated (w_store w') = userAuthenticated (w_store w)
  /\ w_host w' = w_host w
  /\ w_log w' = w_log w
  /\ w_res w' = w_res w.
Proof. destruct w as [st h lg rs]. cbn. repeat split. Qed.

(** [startsWith], as a statement about strings. *)
Lemma startsWith_spec (prefix s : jsstring) :
  Js.startsWith prefix s = true <-> exists rest, s = prefix ++ rest.
Proof.
  revert s. induction prefix as [|p prefix IH]; intros s; cbn.
  - split; eauto.
  - destruct s as [|c s].
    + split; [discriminate|intros (rest & H); discriminate].
    + rewrite andb_true_iff, N.eqb_eq, IH. split.
      * intros (-> & rest & ->). eauto.
      * intros (rest & H). injection H as -> ->. eauto.
Qed.

(** A login request that goes through, in full. *)
Lemma auth_request_success (url : jsstring) (env : auth_env)
    (res : response) (w : world) (c : oidc_client)
    (location codeVerifier codeChallenge : jsstring)
    (secretKeyBuf iv : buffer) :
  client (w_store w) = Some c ->
  codeVerifier_result env = Ok codeVerifier ->
  well_formed codeVerifier ->
  codeChallenge_result env codeVerifier = Ok codeChallenge ->
  authorizationUrl c (authorization_request codeChallenge) = Ok location ->
  secretKey (w_store w) = Some (hex_encode secretKeyBuf) ->
  length secretKeyBuf = 16%nat ->
  randomBytes_result env = Ok iv ->
  length iv = 16%nat ->
  cookie_throws res = None ->
  redirect_throws res = None ->
  exists u value,
    decrypt (w_store w) (u :: value) = Ok codeVerifier
    /\ onAuthRequest url env res w
       = ({| w_store := w_store w; w_host := w_host w; w_log := w_log w;
             w_res :=
               w_res w
               ++ [ResCookie cookieName (u :: value)
                     {| secure := Js.startsWith (js "https://") url;
                        httpOnly := true;
                        sameSite := js "none";
                        maxAge := 600000 |};
                   ResRedirect location] |}, Ok tt).
Proof.
  intros Hc Hv Hwf Hch Hloc Hk Hl Hiv Hil Hcookie Hredirect.
  destruct (token_roundtrip _ secretKeyBuf iv codeVerifier Hk Hl Hil Hwf)
    as (encrypted & Henc & Hdec).
  destruct (hex_encode iv ++ 58 :: hex_encode encrypted) as [|u value] eqn:E;
    [destruct (hex_encode iv); discriminate|].
  exists u, value. split; [exact Hdec|].
  rewrite <- Hiv in Henc.
  apply (auth_request_sends url env res w c codeVerifier codeChallenge
           location (u :: value) Hc Hv Hch Hloc Henc Hcookie Hredirect).
Qed.

(** X20. A login request that meets a configured client, working
    generators, an authorization URL from the library, 16 random bytes
    and a response that can still be written: the response gets the cookie
    [plugin-auth-openid-code-verifier] and then the redirect to that URL,
    and nothing is logged.  The cookie is [httpOnly], [sameSite] ['none'],
    lives 600000 ms and is [secure] exactly when the host's URL begins
    with [https://]; its value is not empty and decrypts, under the key of
    the store, to the code verifier. *)
Theorem login_sets_cookie_and_redirects (url : jsstring) (env : auth_env)
    (res : response) (w : world) (c : oidc_client)
    (location codeVerifier codeChallenge : jsstring)
    (secretKeyBuf iv : buffer) :
  client (w_store w) = Some c ->
  codeVerifier_result env = Ok codeVerifier ->
  well_formed codeVerifier ->
  codeChallenge_result env codeVerifier = Ok codeChallenge ->
  authorizationUrl c (authorization_request codeChallenge) = Ok location ->
  secretKey (w_store w) = Some (hex_encode secretKeyBuf) ->
  length secretKeyBuf = 16%nat ->
  randomBytes_result env = Ok iv ->
  length iv = 16%nat ->
  cookie_throws res = None ->
  redirect_throws res = None ->
  let w' := fst (onAuthRequest url env res w) in
  exists value options,
    w_res w'
    = w_res w ++ [ResCookie cookieName value options; ResRedirect location]
    /\ w_log w' = w_log w
    /\ w_store w' = w_store w
    /\ w_host w' = w_host w
    /\ decrypt (w_store w) value = Ok codeVerifier
    /\ value <> []
    /\ httpOnly options = true
    /\ sameSite options = js "none"
    /\ maxAge options = 600000%Z
    /\ (secure options = true <-> exists rest, url = js "https://" ++ rest).
Proof.
  intros Hc Hv Hwf Hch Hloc Hk Hl Hiv Hil Hcookie Hredirect. cbn zeta.
  destruct (auth_request_success url env res w c location codeVerifier
              codeChallenge secretKeyBuf iv Hc Hv Hwf Hch Hloc Hk Hl Hiv Hil
              Hcookie Hredirect) as (u & value & Hdec & ->).
  cbn [fst w_res w_log w_store w_host].
  do 2 eexists. split; [reflexivity|].
  do 3 (split; [reflexivity|]). split; [exact Hdec|].
  split; [discriminate|].
  do 3 (split; [reflexivity|]).
  apply startsWith_spec.
Qed.

Lemma login_sets_cookie_and_redirects_witness :
  let w' := fst (onAuthRequest (js "https://tube.example") login fine
                   started) in
  exists value options,
    w_res w'
    = w_res started
      ++ [ResCookie cookieName value options;
          ResRedirect
            (js ("https://idp.example/auth?client_id=abc"
                 ++ "&scope=openid%20email%20profile&response_type=code"
                 ++ "&redirect_uri=https%3A%2F%2Ftube.example%2Fplugins"
                 ++ "%2Fauth-openid-connect%2Frouter%2Fid-token-cb"
                 ++ "&response_mode=form_post"
                 ++ "&code_challenge=E9Melhoa2OwvFrEMTJguCHaoeK1t8URWbuGJSstw-cM"
                 ++ "&code_challenge_method=S256"))]
    /\ w_log w' = w_log started
    /\ w_store w' = w_store started
    /\ w_host w' = w_host started
    /\ decrypt (w_store started) value = Ok verifier
    /\ value <> []
    /\ httpOnly options = true
    /\ sameSite options = js "none"
    /\ maxAge options = 600000%Z
    /\ (secure options = true
        <-> exists rest, js "https://tube.example" = js "https://" ++ rest).
Proof.
  apply (login_sets_cookie_and_redirects (js "https://tube.example") login
           fine started
           {| client_issuer := idp;
              client_metadata :=
                {| client_id := Data (JStr (js "abc"));
                   redirect_uris :=
                     [JStr (js ("https://tube.example/plugins/"
                                ++ "auth-openid-connect/router/id-token-cb"))];
                   response_types := [js "code"];
                   client_secret := None;
                   token_endpoint_auth_method := Some (js "none") |} |}
           _ verifier
           (js "E9Melhoa2OwvFrEMTJguCHaoeK1t8URWbuGJSstw-cM")
           key_buffer iv_buffer).
  - vm_compute. reflexivity.
  - reflexivity.
  - apply seven_bit_well_formed. unfold seven_bit, verifier, js. cbn.
    repeat constructor.
  - reflexivity.
  - vm_compute. reflexivity.
  - reflexivity.
  - reflexivity.
  - reflexivity.
  - reflexivity.
  - reflexivity.
  - reflexivity.
Defined.

(** X21. Login and callback fit together.  After a login request that
    went through, a callback that brings the cookie back is taken as far
    as the hand-off, the token endpoint being given the code verifier that
    the login request generated: when the identity provider answers for
    that verifier and the mapping completes, the identity goes to the host
    through the acceptor of the store. *)
Theorem login_then_callback (url : jsstring) (env : auth_env)
    (res res' : response) (w : world) (c : oidc_client)
    (location codeVerifier codeChallenge : jsstring)
    (secretKeyBuf iv : buffer) (cb : callback_env) (f : nat)
    (params : jsvalue) (tokenSet : token_set)
    (settings userInfo : gmap jsstring jsvalue) (i : identity) :
  client (w_store w) = Some c ->
  codeVerifier_result env = Ok codeVerifier ->
  well_formed codeVerifier ->
  codeChallenge_result env codeVerifier = Ok codeChallenge ->
  authorizationUrl c (authorization_request codeChallenge) = Ok location ->
  secretKey (w_store w) = Some (hex_encode secretKeyBuf) ->
  length secretKeyBuf = 16%nat ->
  randomBytes_result env = Ok iv ->
  length iv = 16%nat ->
  cookie_throws res = None ->
  redirect_throws res = None ->
  userAuthenticated (w_store w) = Some f ->
  callbackParams cb = Ok params ->
  callback cb (value_of (redirectUrl (w_store w))) params codeVerifier
  = Ok tokenSet ->
  userinfo cb (access_token tokenSet) = Ok userInfo ->
  cb_getSettings cb = Ok settings ->
  map_identity settings userInfo = Ok i ->
  let w1 := fst (onAuthRequest url env res w) in
  exists value options,
    w_res w1
    = w_res w ++ [ResCookie cookieName value options; ResRedirect location]
    /\ forall req,
         cookies req !! cookieName = Some value ->
         handed_over w1 (fst (handleCb cb req res' w1)) f i.
Proof.
  intros Hc Hv Hwf Hch Hloc Hk Hl Hiv Hil Hcookie Hredirect Hf Hp Hcb Hui Hs
    Hi.
  cbn zeta.
  destruct (auth_request_success url env res w c location codeVerifier
              codeChallenge secretKeyBuf iv Hc Hv Hwf Hch Hloc Hk Hl Hiv Hil
              Hcookie Hredirect) as (u & value & Hdec & ->).
  cbn [fst w_res].
  do 2 eexists. split; [reflexivity|].
  intros req Hreq.
  apply (handleCb_hands_over _ _ _ _ _ settings userInfo); [|exact Hi].
  split; [exact Hf|].
  exists c, u, value, codeVerifier, params, tokenSet.
  cbn [w_store]. auto 10.
Qed.

Lemma login_then_callback_witness :
  let w1 := fst (onAuthRequest (js "https://tube.example") login fine
                   started) in
  exists value options,
    w_res w1
    = w_res started
      ++ [ResCookie cookieName value options;
          ResRedirect
            (js ("https://idp.example/auth?client_id=abc"
                 ++ "&scope=openid%20email%20profile&response_type=code"
                 ++ "&redirect_uri=https%3A%2F%2Ftube.example%2Fplugins"
                 ++ "%2Fauth-openid-connect%2Frouter%2Fid-token-cb"
                 ++ "&response_mode=form_post"
                 ++ "&code_challenge=E9Melhoa2OwvFrEMTJguCHaoeK1t8URWbuGJSstw-cM"
                 ++ "&code_challenge_method=S256"))]
    /\ forall req,
         cookies req !! cookieName = Some value ->
         handed_over w1 (fst (handleCb provider req fine w1)) 0
           {| username := js "_ohn._oe";
              email := Data (JStr (js "john@example.org"));
              displayName := Data JUndefined;
              role := JNum 2 |}.
Proof.
  apply (login_then_callback (js "https://tube.example") login fine fine
           started
           {| client_issuer := idp;
              client_metadata :=
                {| client_id := Data (JStr (js "abc"));
                   redirect_uris :=
                     [JStr (js ("https://tube.example/plugins/"
                                ++ "auth-openid-connect/router/id-token-cb"))];
                   response_types := [js "code"];
                   client_secret := None;
                   token_endpoint_auth_method := Some (js "none") |} |}
           _ verifier
           (js "E9Melhoa2OwvFrEMTJguCHaoeK1t8URWbuGJSstw-cM")
           key_buffer iv_buffer provider 0
           (JObj [(js "code", JStr (js "c0de"))])
           {| access_token := JStr (js "at") |} enabled_settings claims).
  - vm_compute. reflexivity.
  - reflexivity.
  - apply seven_bit_well_formed. unfold seven_bit, verifier, js. cbn.
    repeat constructor.
  - reflexivity.
  - vm_compute. reflexivity.
  - reflexivity.
  - reflexivity.
  - reflexivity.
  - reflexivity.
  - reflexivity.
  - reflexivity.
  - reflexivity.
  - reflexivity.
  - reflexivity.
  - reflexivity.
  - reflexivity.
  - vm_compute. reflexivity.
Defined.

(** X22. A login request that finds no client in the store, as after a
    reconfiguration that failed or that found the plugin disabled, is not
    answered at all: neither cookie nor redirect is written, one error is
    logged, and the handler resolves.  When the generators work, the error
    is the [TypeError] of calling [authorizationUrl] on [null]. *)
Theorem login_without_client (url : jsstring) (env : auth_env)
    (res : response) (w : world) :
  client (w_store w) = None ->
  let w' := fst (onAuthRequest url env res w) in
  snd (onAuthRequest url env res w) = Ok tt
  /\ w_res w' = w_res w
  /\ w_store w' = w_store w
  /\ w_host w' = w_host w
  /\ exists e,
       w_log w'
       = w_log w ++ [{| level := LogError;
                        message := "Cannot handle auth request.";
                        detail := Some e |}]
       /\ match codeVerifier_result env with
          | Ok v =>
              match codeChallenge_result env v with
              | Ok _ => e = null_error "authorizationUrl"
              | Throw e' => e = e'
              end
          | Throw e' => e = e'
          end.
Proof.
  intros Hc. destruct w as [st h lg rs]. cbn in Hc.
  unfold onAuthRequest, try_catch, auth_request_steps, bind, lift, get_store,
    logger.
  cbn. destruct (codeVerifier_result env) as [v|e1]; cbn; [|eauto 10].
  destruct (codeChallenge_result env v) as [ch|e2]; cbn; [|eauto 10].
  rewrite Hc. cbn. eauto 10.
Qed.

Lemma login_without_client_witness :
  let w := fst (loadSettingsAndCreateClient disabled started) in
  let w' := fst (onAuthRequest (js "https://tube.example") login fine w) in
  snd (onAuthRequest (js "https://tube.example") login fine w) = Ok tt
  /\ w_res w' = w_res w
  /\ w_store w' = w_store w
  /\ w_host w' = w_host w
  /\ exists e,
       w_log w'
       = w_log w ++ [{| level := LogError;
                        message := "Cannot handle auth request.";
                        detail := Some e |}]
       /\ match codeVerifier_result login with
          | Ok v =>
              match codeChallenge_result login v with
              | Ok _ => e = null_error "authorizationUrl"
              | Throw e' => e = e'
              end
          | Throw e' => e = e'
          end.
Proof.
  apply (login_without_client (js "https://tube.example") login fine
           (fst (loadSettingsAndCreateClient disabled started))).
  vm_compute. reflexivity.
Defined.

(** X23. Every login request ends in one of two ways, and in both the
    handler resolves and leaves the store and the host as they were:
    cookie and redirect are written and nothing is logged; or one error is
    logged, no redirect is written, and at most the cookie has been put on
    the response. *)
Theorem login_outcomes (url : jsstring) (env : auth_env) (res : response)
    (w : world) :
  let w' := fst (onAuthRequest url env res w) in
  snd (onAuthRequest url env res w) = Ok tt
  /\ w_store w' = w_store w
  /\ w_host w' = w_host w
  /\ ((w_log w' = w_log w
       /\ exists value options location,
            w_res w' = w_res w ++ [ResCookie cookieName value options;
                                   ResRedirect location])
      \/ ((exists e,
             w_log w'
             = w_log w ++ [{| level := LogError;
                              message := "Cannot handle auth request.";
                              detail := Some e |}])
          /\ (w_res w' = w_res w
              \/ exists value options,
                   w_res w' = w_res w ++ [ResCookie cookieName value options]))).
Proof.
  pose proof (auth_request_steps_effects url env res w) as H.
  cbn zeta in H. destruct H as (Hst & Hh & Hlog & Hres).
  cbn zeta. unfold onAuthRequest, try_catch.
  destruct (auth_request_steps url env res w) as [w1 [[]|e]];
    cbn in Hst, Hh, Hlog, Hres |- *.
  - do 3 (split; [auto|]). left. split; [exact Hlog|].
    destruct Hres as (c & ch & value & options & loc & _ & _ & Hr). eauto.
  - rewrite Hst, Hh, Hlog. do 3 (split; [auto|]). right. split; eauto.
Qed.




(** Among entries named ['openid-connect'], unregistering ['openid']
    removes nothing. *)
Lemma filter_openid_connect (l : list registration) :
  List.Forall (fun r => authName r = js "openid-connect") l ->
  List.filter (fun r => negb (bool_decide (authName r = js "openid"))) l = l.
Proof.
  induction 1 as [|r l Hr _ IH]; [reflexivity|].
  cbn [List.filter]. rewrite Hr, IH. reflexivity.
Qed.

Lemma consistent_ext (w1 w2 : world) :
  w_store w2 = w_store w1 -> w_host w2 = w_host w1 ->
  consistent w1 -> consistent w2.
Proof. unfold consistent. intros -> ->. auto. Qed.

Lemma replace_disallowed_allowed (s : jsstring) :
  List.Forall (fun c => Js.allowed_in_username c = true)
              (Js.replace_disallowed s).
Proof.
  unfold Js.replace_disallowed.
  induction s as [|c s IH]; [constructor|].
  cbn [List.map]. constructor; [|exact IH].
  destruct (Js.allowed_in_username c) eqn:E; [exact E|reflexivity].
Qed.

(** What one run of [loadSettingsAndCreateClient] does to a consistent
    world. *)
Lemma load_step (env : config_env) (w : world) :
  consistent w ->
  let w' := fst (loadSettingsAndCreateClient env w) in
  consistent w'
  /\ secretKey (w_store w') = secretKey (w_store w)
  /\ redirectUrl (w_store w') = redirectUrl (w_store w)
  /\ accepted (w_host w') = accepted (w_host w)
  /\ exists more,
       registered (w_host w') = registered (w_host w) ++ more.
Proof.
  intros (H1 & H2 & H3 & H4 & H5). cbn zeta.
  destruct (load_effects env w) as (Hk & Hu & Ha & _ & H).
  cbn zeta in H.
  assert (Hkept :
            match client (w_store w) with
            | Some _ =>
                List.filter
                  (fun r => negb (bool_decide (authName r = js "openid")))
                  (registered (w_host w))
            | None => registered (w_host w)
            end = registered (w_host w)).
  { destruct (client (w_store w)); [|reflexivity].
    now apply filter_openid_connect. }
  rewrite Hkept in H. clear Hkept.
  set (w' := fst (loadSettingsAndCreateClient env w)) in *.
  split; [|split; [exact Hk|split; [exact Hu|split; [exact Ha|]]]].
  - unfold consistent. rewrite Ha.
    destruct H as [(Hc & Hf & Hr & Hn) | (c & Hc & Hf & Hr & Hn & _)];
      rewrite Hc, Hf, Hr, Hn.
    + split; [tauto|]. split; [exact H2|]. split; [exact H3|].
      split; [discriminate|exact H5].
    + split; [split; discriminate|].
      split; [apply Forall_app; split;
              [exact H2|constructor; [reflexivity|constructor]]|].
      split; [rewrite map_app, seq_S, H3; reflexivity|].
      split; [intros f Hf'; congruence|].
      eapply List.Forall_impl; [|exact H5]. cbn beta.
      intros fi [Hlt Hn']. split; [lia|exact Hn'].
  - destruct H as [(_ & _ & Hr & _) | (c & _ & _ & Hr & _)]; rewrite Hr.
    + exists []. now rewrite app_nil_r.
    + eauto.
Qed.

(** What a callback does to the store and the host, whatever the
    response object does. *)
Lemma handleCb_world (env : callback_env) (req : request) (res : response)
    (w : world) :
  let w' := fst (handleCb env req res w) in
  w_store w' = w_store w
  /\ registered (w_host w') = registered (w_host w)
  /\ next_handle (w_host w') = next_handle (w_host w)
  /\ (accepted (w_host w') = accepted (w_host w)
      \/ exists f i,
           userAuthenticated (w_store w) = Some f
           /\ accepted (w_host w') = accepted (w_host w) ++ [(f, i)]
           /\ List.Forall (fun c => Js.allowed_in_username c = true)
                          (username i)).
Proof.
  destruct w as [st h lg rs].
  unfold handleCb, bind, get_store, onCBError, res_redirect, logger, respond,
    throw.
  cbn.
  destruct (userAuthenticated st) as [f|] eqn:Hf;
    [|destruct (redirect_throws res); cbn; auto].
  destruct (cookies req !! cookieName) as [[|u cookie]|];
    try solve [destruct (redirect_throws res); cbn; auto].
  unfold try_catch, callback_steps, bind, lift, get_store, logger.
  cbn.
  destruct (decrypt st (u :: cookie)) as [v|]; cbn;
    [|destruct (redirect_throws res); cbn; auto].
  destruct (client st) as [c|]; cbn;
    [|destruct (redirect_throws res); cbn; auto].
  destruct (callbackParams env) as [params|]; cbn;
    [|destruct (redirect_throws res); cbn; auto].
  destruct (callback env (value_of (redirectUrl st)) params v) as [ts|]; cbn;
    [|destruct (redirect_throws res); cbn; auto].
  destruct (userinfo env (access_token ts)) as [userInfo|]; cbn;
    [|destruct (redirect_throws res); cbn; auto].
  destruct (cb_getSettings env) as [settings|]; cbn;
    [|destruct (redirect_throws res); cbn; auto].
  destruct (map_identity settings userInfo) as [i|] eqn:Hi; cbn;
    [|destruct (redirect_throws res); cbn; auto].
  rewrite Hf. cbn. do 3 (split; [reflexivity|]). right.
  do 2 eexists. split; [reflexivity|]. split; [reflexivity|].
  destruct (map_identity_parts _ _ _ Hi) as (_ & _ & Hname & _).
  unfold map_username in Hname.
  destruct (Js.get_computed userInfo _) as [v0|]; [|discriminate].
  cbn [rbind] in Hname.
  destruct (if Js.truthy _ then _ else _) as [[| | | | | |s| |]| |];
    try discriminate.
  injection Hname as <-. apply replace_disallowed_allowed.
Qed.

(** Every event keeps the world consistent, leaves the key and the
    callback URL alone, and removes nothing from the host's list. *)
Lemma dispatch_step (e : event) (w : world) :
  consistent w ->
  let w' := fst (dispatch e w) in
  consistent w'
  /\ secretKey (w_store w') = secretKey (w_store w)
  /\ redirectUrl (w_store w') = redirectUrl (w_store w)
  /\ exists more,
       registered (w_host w') = registered (w_host w) ++ more.
Proof.
  intros Hw. destruct e as [env | url env res | env req res];
    cbn [dispatch]; cbn zeta.
  - destruct (load_step env w Hw) as (Hc & Hk & Hu & _ & Hm).
    assert (Hs : w_store (fst (onSettingsChange env w))
                 = w_store (fst (loadSettingsAndCreateClient env w))
                 /\ w_host (fst (onSettingsChange env w))
                    = w_host (fst (loadSettingsAndCreateClient env w))).
    { unfold onSettingsChange, try_catch.
      destruct (loadSettingsAndCreateClient env w) as [w1 [[]|err]];
        cbn; auto. }
    destruct Hs as (Hs & Hh). rewrite Hs, Hh.
    split; [exact (consistent_ext _ _ Hs Hh Hc)|auto].
  - pose proof (auth_request_steps_effects url env res w) as H.
    cbn zeta in H. destruct H as (Hst & Hh & _).
    assert (Hs : w_store (fst (onAuthRequest url env res w)) = w_store w
                 /\ w_host (fst (onAuthRequest url env res w)) = w_host w).
    { unfold onAuthRequest, try_catch.
      destruct (auth_request_steps url env res w) as [w1 [[]|err]];
        cbn in Hst, Hh |- *; auto. }
    destruct Hs as (Hs & Hh'). rewrite Hs, Hh'.
    split; [exact (consistent_ext _ _ Hs Hh' Hw)|].
    do 2 (split; [reflexivity|]). exists []. now rewrite app_nil_r.
  - destruct (handleCb_world env req res w) as (Hs & Hr & Hn & Ha).
    cbn zeta in Ha. rewrite Hs, Hr.
    split; [|do 2 (split; [reflexivity|]); exists []; now rewrite app_nil_r].
    destruct Hw as (H1 & H2 & H3 & H4 & H5).
    unfold consistent. rewrite Hs, Hr, Hn.
    do 4 (split; [assumption|]).
    destruct Ha as [-> | (f & i & Hf & -> & Hi)]; [exact H5|].
    apply Forall_app. split; [exact H5|].
    constructor; [|constructor]. cbn [fst snd].
    split; [rewrite (H4 f Hf); lia|exact Hi].
Qed.

Lemma run_steps (events : list event) (w : world) :
  consistent w ->
  consistent (run events w)
  /\ secretKey (w_store (run events w)) = secretKey (w_store w)
  /\ redirectUrl (w_store (run events w)) = redirectUrl (w_store w)
  /\ exists more,
       registered (w_host (run events w)) = registered (w_host w) ++ more.
Proof.
  revert w. induction events as [|e events IH]; intros w Hw.
  - cbn. do 3 (split; [auto|]). exists []. now rewrite app_nil_r.
  - change (run (e :: events) w) with (run events (fst (dispatch e w))).
    destruct (dispatch_step e w Hw) as (Hc & Hk & Hu & more & Hm).
    cbn zeta in Hm.
    destruct (IH _ Hc) as (Hc' & Hk' & Hu' & more' & Hm').
    split; [exact Hc'|]. split; [congruence|]. split; [congruence|].
    exists (more ++ more'). now rewrite Hm', Hm, app_assoc.
Qed.

Lemma register_consistent (env : config_env) (random : result buffer) :
  let w0 := fst (register env random initial_world) in
  consistent w0
  /\ redirectUrl (w_store w0)
     = Some (getWebserverUrl env
             ++ js "/plugins/auth-openid-connect/router/id-token-cb").
Proof.
  destruct random as [secretKeyBuf|e]; cbn zeta.
  - split; [|apply (register_store env secretKeyBuf initial_world)].
    rewrite register_unfold. apply load_step.
    unfold consistent. cbn. repeat split; auto; discriminate.
  - cbn. split; [|reflexivity].
    unfold consistent. cbn. repeat split; auto; discriminate.
Qed.

(** X25. From start-up on, through any sequence of settings changes,
    login requests and callbacks, each handled to its end: client and
    acceptor are in the store together or not at all; every entry the
    plugin has with the host is named ['openid-connect'], entries are
    never removed, and the acceptor of the store is the one of the latest
    entry; every identity the host was handed came through an acceptor it
    had given out and has a username of lowercase letters, digits, dots
    and underscores; the secret key and the callback URL are those of
    start-up. *)
Theorem runtime_invariant (env : config_env) (random : result buffer)
    (events : list event) :
  let w0 := fst (register env random initial_world) in
  let w := run events w0 in
  consistent w
  /\ secretKey (w_store w) = secretKey (w_store w0)
  /\ redirectUrl (w_store w)
     = Some (getWebserverUrl env
             ++ js "/plugins/auth-openid-connect/router/id-token-cb")
  /\ exists more,
       registered (w_host w) = registered (w_host w0) ++ more.
Proof.
  cbn zeta. destruct (register_consistent env random) as (Hc & Hu).
  cbn zeta in Hc, Hu.
  destruct (run_steps events _ Hc) as (Hc' & Hk' & Hu' & Hm).
  split; [exact Hc'|]. split; [exact Hk'|].
  split; [now rewrite Hu'|exact Hm].
Qed.

(** X26. Reconfiguring never takes a login method away from the host:
    in a consistent world, whatever the settings and whatever discovery
    answers, the entries registered before the change are all there after
    it, in their order, followed by at most one new entry named
    ['openid-connect']. *)
Theorem settings_change_keeps_registrations (env : config_env) (w : world) :
  consistent w ->
  let w' := fst (onSettingsChange env w) in
  consistent w'
  /\ (registered (w_host w') = registered (w_host w)
      \/ registered (w_host w')
         = registered (w_host w)
           ++ [openid_connect_registration env (w_host w)]).
Proof.
  intros Hw. cbn zeta.
  destruct (dispatch_step (SettingsChanged env) w Hw) as (Hc & _).
  split; [exact Hc|].
  assert (Hh : w_host (fst (onSettingsChange env w))
               = w_host (fst (loadSettingsAndCreateClient env w))).
  { unfold onSettingsChange, try_catch.
    destruct (loadSettingsAndCreateClient env w) as [w1 [[]|err]];
      cbn; auto. }
  rewrite Hh.
  destruct (load_effects env w) as (_ & _ & _ & _ & H). cbn zeta in H.
  destruct Hw as (_ & H2 & _).
  assert (Hkept :
            match client (w_store w) with
            | Some _ =>
                List.filter
                  (fun r => negb (bool_decide (authName r = js "openid")))
                  (registered (w_host w))
            | None => registered (w_host w)
            end = registered (w_host w)).
  { destruct (client (w_store w)); [|reflexivity].
    now apply filter_openid_connect. }
  rewrite Hkept in H.
  destruct H as [(_ & _ & Hr & _) | (c & _ & _ & Hr & _)]; auto.
Qed.

Lemma settings_change_keeps_registrations_witness :
  let w' := fst (onSettingsChange disabled started) in
  consistent w'
  /\ (registered (w_host w') = registered (w_host started)
      \/ registered (w_host w')
         = registered (w_host started)
           ++ [openid_connect_registration disabled (w_host started)]).
Proof.
  apply (settings_change_keeps_registrations disabled started).
  unfold consistent. vm_compute.
  split; [split; discriminate|].
  split; [repeat constructor|].
  split; [reflexivity|].
  split; [intros f H; injection H as <-; reflexivity|constructor].
Defined.

End LifecycleFacts.
